(** * Macro dashboard signal pipeline ([src/fetch/signals.py])

    A shallow embedding of the signal computation script and the proofs of
    the properties its specification states.

    Numbers are IEEE 754 binary64 values (Python [float], NumPy [float64]),
    embedded as Rocq's primitive [float]; [NaN] is the missing-value marker
    of pandas.  A pandas [Series] with a date index is a list of
    (date, value) observations in index order, a date being a day number.
    The script runs top to bottom and mutates a module-level list; it is
    embedded as a state-and-exception monad over the provider log, the
    [signals] list and the content of [docs/signals.json]. *)

From Stdlib Require Import Reals Lra Floats ZArith List String Ascii Bool Lia Sorted.
Import ListNotations.

Open Scope string_scope.
Open Scope list_scope.
Open Scope float_scope.

(** ** Data model *)

(** Calendar day, as a day ordinal. *)
Definition date := Z.

(** [pd.Series] of float64 over a date index, in index order. *)
Definition Series := list (date * float).

Definition index (s : Series) : list date := map fst s.
Definition values (s : Series) : list float := map snd s.

(** The output record: [{"id": .., "value": .., "z": .., "desc": ..}]. *)
Record Signal := mkSignal {
  id : string;
  value : float;
  z : float;
  desc : string
}.

(** Series codes: the [series] dict of the script. *)
Definition series : list (string * string) :=
  [ ("real_yield", "DFII10");
    ("breakeven", "T10YIE");
    ("usd", "DTWEXBGS");
    ("hy_oas", "BAMLH0A0HYM2");
    ("ig_oas", "BAMLC0A0CM");
    ("walcl", "WALCL");
    ("rrp", "RRPONTSYD");
    ("tga", "WTREGEN");
    ("claims", "ICSA");
    ("spx", "SP500");
    ("vix", "VIXCLS");
    ("vix3m", "VXVCLS") ].

Fixpoint assoc (k : string) (d : list (string * string)) : option string :=
  match d with
  | [] => None
  | (k', v) :: d' => if String.eqb k k' then Some v else assoc k d'
  end.

(** ** Exceptions and the script monad *)

(** What the provider call can fail with; all four are subclasses of
    Python's [Exception]. *)
Inductive provider_error :=
| NetworkError
| AuthError
| InvalidIdentifier
| NoData.

Inductive pyexn :=
| ProviderError (e : provider_error)
| KeyError (k : string)
| IndexError
| TypeError
| KeyboardInterrupt.

(** [isinstance(e, Exception)]: everything here but [KeyboardInterrupt],
    which derives from [BaseException] only. *)
Definition is_Exception (e : pyexn) : bool :=
  match e with
  | KeyboardInterrupt => false
  | _ => true
  end.

Inductive result (A : Type) :=
| Ok (a : A)
| Raise (e : pyexn).
Arguments Ok {A} a.
Arguments Raise {A} e.

(** What [fred.get_series] does for a series code. *)
Inductive outcome :=
| Returned (s : Series)
| Raised (e : pyexn).

Record pstate := mkState {
  calls : list string;          (* provider requests issued so far *)
  signals : list Signal;        (* the module-level [signals] list *)
  docs_signals_json : option string   (* content of docs/signals.json *)
}.

Definition initial : pstate :=
  {| calls := []; signals := []; docs_signals_json := None |}.

Definition M (A : Type) : Type := pstate -> result A * pstate.

Definition ret {A} (a : A) : M A := fun st => (Ok a, st).

Definition bind {A B} (m : M A) (k : A -> M B) : M B :=
  fun st =>
    match m st with
    | (Ok a, st') => k a st'
    | (Raise e, st') => (Raise e, st')
    end.

Definition raise {A} (e : pyexn) : M A := fun st => (Raise e, st).

Notation "x <- m ;; k" := (bind m (fun x => k))
  (at level 61, m at next level, right associativity).
Notation "m ;;; k" := (bind m (fun _ => k))
  (at level 61, right associativity).

(** [try: body except Exception: handler] *)
Definition try_except_Exception {A} (body handler : M A) : M A :=
  fun st =>
    match body st with
    | (Raise e, st') => if is_Exception e then handler st' else (Raise e, st')
    | r => r
    end.

(** [signals.append(sig)] *)
Definition append (sig : Signal) : M unit :=
  fun st => (Ok tt, {| calls := calls st;
                       signals := signals st ++ [sig];
                       docs_signals_json := docs_signals_json st |}).

(** [series[key]] *)
Definition series_get (key : string) : M string :=
  match assoc key series with
  | Some code => ret code
  | None => raise (KeyError key)
  end.

(** ** pandas primitives *)

Definition isna (x : float) : bool := PrimFloat.is_nan x.

(** [s.dropna()] *)
Definition dropna (s : Series) : Series :=
  filter (fun p => negb (isna (snd p))) s.

(** [s.empty] *)
Definition empty {A} (s : list A) : bool :=
  match s with
  | [] => true
  | _ :: _ => false
  end.

Fixpoint last_opt {A} (l : list A) : option A :=
  match l with
  | [] => None
  | [x] => Some x
  | _ :: l' => last_opt l'
  end.

(** [s.iloc[-1]]: positional access to the last row; [IndexError] on an
    empty series. *)
Definition iloc_last (s : Series) : M float :=
  match last_opt s with
  | Some p => ret (snd p)
  | None => raise IndexError
  end.

Definition of_nat (n : nat) : float :=
  PrimFloat.of_uint63 (Uint63.of_Z (Z.of_nat n)).

(** Sum of a float64 array, the terms added left to right.  NumPy may
    associate the additions differently, which can move the last bits of a
    sum; the order is a choice of this embedding. *)
Definition fsum (l : list float) : float := fold_left PrimFloat.add l 0.

(** [s.mean()] with pandas' default [skipna=True]: the sum of the
    observations present over their count; NaN when there is none. *)
Definition mean (s : Series) : float :=
  let xs := values (dropna s) in
  fsum xs / of_nat (List.length xs).

(** [s.std()] with pandas' defaults [skipna=True], [ddof=1]: square root of
    the sum of squared deviations over [count - 1]; NaN when [count <= 1]. *)
Definition var (s : Series) : float :=
  let xs := values (dropna s) in
  let avg := fsum xs / of_nat (List.length xs) in
  let sqr := map (fun x => (avg - x) * (avg - x)) xs in
  if (List.length xs <=? 1)%nat then PrimFloat.nan
  else fsum sqr / of_nat (List.length xs - 1).

Definition std (s : Series) : float := PrimFloat.sqrt (var s).

(** [zscore]: [(series - series.mean()) / series.std()], element-wise with
    the two scalars broadcast. *)
Definition zscore (s : Series) : Series :=
  map (fun p => (fst p, (snd p - mean s) / std s)) s.

Section Pipeline.

(** The data provider: what [fred.get_series] answers for each code during
    the run. *)
Variable fred : string -> outcome.

(** One provider request; the request is logged whether it succeeds or not. *)
Definition get_series (code : string) : M Series :=
  fun st =>
    let st' := {| calls := calls st ++ [code];
                  signals := signals st;
                  docs_signals_json := docs_signals_json st |} in
    match fred code with
    | Returned s => (Ok s, st')
    | Raised e => (Raise e, st')
    end.

(** [fetch_series] *)
Definition fetch_series (code : string) : M Series :=
  data <- try_except_Exception (get_series code) (ret []) ;;
  ret data.

(** The shape shared by the real_yield, breakeven, usd, hy_oas, ig_oas,
    claims and vix_level blocks; the cleaned series is returned because the
    vix block's variable is read again by the vix_term block. *)
Definition simple_extractor (key id_ desc_ : string) : M Series :=
  code <- series_get key ;;
  raw <- fetch_series code ;;
  let real := dropna raw in
  if negb (empty real) then
    val <- iloc_last real ;;
    z_ <- iloc_last (zscore real) ;;
    append {| id := id_; value := val; z := z_; desc := desc_ |} ;;;
    ret real
  else ret real.

Definition real_yield_block : M Series :=
  simple_extractor "real_yield" "real_yield"
    "10-year TIPS real yield; rising real yields pressure growth and long-duration assets.".

Definition breakeven_block : M Series :=
  simple_extractor "breakeven" "breakeven"
    "10-year inflation breakeven; higher breakevens imply rising inflation expectations.".

Definition usd_block : M Series :=
  simple_extractor "usd" "usd"
    "Trade-weighted USD (broad); a stronger dollar can be a headwind for risk assets and commodities.".

Definition hy_oas_block : M Series :=
  simple_extractor "hy_oas" "hy_oas"
    "High-yield credit option-adjusted spread; widening spreads suggest stress in credit markets.".

Definition ig_oas_block : M Series :=
  simple_extractor "ig_oas" "ig_oas"
    "Investment-grade credit spread; widening indicates risk aversion and tightening conditions.".

Definition claims_block : M Series :=
  simple_extractor "claims" "claims"
    "Weekly initial unemployment claims; rising claims may signal labor market weakness.".

Definition vix_level_block : M Series :=
  simple_extractor "vix" "vix_level"
    "CBOE Volatility Index (VIX); higher levels signal market stress.".

End Pipeline.


(** ** Data frames *)

(** [pd.DataFrame]: named float64 columns over one shared index.  A row
    maps a column name to its cell.  [datetime_index] tells whether the
    index is a [DatetimeIndex]: time-series operations ask for one. *)
Record DataFrame := mkFrame {
  columns : list string;
  datetime_index : bool;
  rows : list (date * (string -> float))
}.

Fixpoint insert_date (d : date) (l : list date) : list date :=
  match l with
  | [] => [d]
  | x :: l' =>
      if (d <? x)%Z then d :: l
      else if (d =? x)%Z then l
      else x :: insert_date d l'
  end.

(** Union of the labels of several indexes, ascending, each label once. *)
Definition union_indexes (ixs : list (list date)) : list date :=
  fold_right insert_date [] (List.concat ixs).

(** The cell of [s] at label [d] after reindexing: NaN when [s] has no
    observation at [d]. *)
Fixpoint at_date (d : date) (s : Series) : float :=
  match s with
  | [] => PrimFloat.nan
  | (d', v) :: s' => if (d =? d')%Z then v else at_date d s'
  end.

Fixpoint column_of (name : string) (cols : list (string * Series)) : Series :=
  match cols with
  | [] => []
  | (n, s) :: cols' => if String.eqb name n then s else column_of name cols'
  end.

(** [a.equals(b)] on two indexes: the same labels in the same order. *)
Fixpoint same_index (a b : list date) : bool :=
  match a, b with
  | [], [] => true
  | x :: a', y :: b' => (x =? y)%Z && same_index a' b'
  | _, _ => false
  end.

(** The index of a frame built from several series.  When the series all
    have the same index the frame takes it as it is, in the order the
    series list their observations; otherwise it takes the union of the
    labels, which pandas sorts. *)
Definition frame_index (ixs : list (list date)) : list date :=
  match ixs with
  | [] => []
  | ix :: rest =>
      if forallb (same_index ix) rest then ix else union_indexes ixs
  end.

(** Whether a series is indexed by dates.  A series with observations is
    indexed by their dates.  A series without any brings no date: the
    placeholder [pd.Series(dtype=float)] of [fetch_series] has an empty
    index that is not a [DatetimeIndex]. *)
Definition has_datetime_index (s : Series) : bool := negb (empty s).

(** [pd.DataFrame({name: series, ...})]: every series is aligned on the
    index of the frame, NaN where it has no observation.  The index of the
    frame is a [DatetimeIndex] only when the index of every series is one:
    the union of dates with an index of another type is an index of plain
    objects. *)
Definition DataFrame_of (cols : list (string * Series)) : DataFrame :=
  {| columns := map fst cols;
     datetime_index := forallb (fun c => has_datetime_index (snd c)) cols;
     rows := map (fun d => (d, fun name => at_date d (column_of name cols)))
                 (frame_index (map (fun c => index (snd c)) cols)) |}.

(** [df[name]] *)
Definition col (name : string) (df : DataFrame) : Series :=
  map (fun r => (fst r, snd r name)) (rows df).

(** [df.dropna()]: the rows with no NaN cell. *)
Definition dropna_rows (df : DataFrame) : DataFrame :=
  {| columns := columns df;
     datetime_index := datetime_index df;
     rows := filter (fun r => forallb (fun c => negb (isna (snd r c))) (columns df))
                    (rows df) |}.

(** [df[name] = f(row)] for a column computed row by row. *)
Definition assign (name : string) (f : (string -> float) -> float)
    (df : DataFrame) : DataFrame :=
  {| columns := columns df ++ [name];
     datetime_index := datetime_index df;
     rows := map (fun r => (fst r, fun c => if String.eqb c name then f (snd r)
                                            else snd r c)) (rows df) |}.

(** The calendar days from [lo] to [hi], both included. *)
Definition day_range (lo hi : date) : list date :=
  map (fun k => (lo + Z.of_nat k)%Z) (seq 0 (Z.to_nat (hi - lo + 1))).

(** The row in force on day [d]: the last row labelled [d] or earlier. *)
Definition asof {A} (d : date) (rs : list (date * A)) : option A :=
  option_map snd (last_opt (filter (fun r => (fst r <=? d)%Z) rs)).

(** One step of a stable insertion sort on the labels: [r], which came
    before the rows of [rs], goes in front of the first row whose label is
    not smaller than its own. *)
Fixpoint insert_row {A} (r : date * A) (rs : list (date * A))
    : list (date * A) :=
  match rs with
  | [] => [r]
  | x :: rs' =>
      if (fst r <=? fst x)%Z then r :: rs else x :: insert_row r rs'
  end.

(** The rows in ascending order of their labels, rows of one label in the
    order they had: [resample] sorts a frame whose index does not ascend
    before it bins it. *)
Definition sort_rows {A} (rs : list (date * A)) : list (date * A) :=
  fold_right insert_row [] rs.

(** [obj.reindex(days, method="ffill")] on sorted rows: the frame is
    reindexed on every calendar day from its first label to its last, each
    day taking the row in force on it.  Cells that are NaN in that row stay
    NaN: the fill carries rows forward, it does not look for an earlier row
    with a number. *)
Definition reindex_days_ffill (df : DataFrame) : DataFrame :=
  match rows df, last_opt (rows df) with
  | (lo, _) :: _, Some (hi, _) =>
      {| columns := columns df;
         datetime_index := datetime_index df;
         rows := flat_map (fun d => match asof d (rows df) with
                                    | Some r => [(d, r)]
                                    | None => []
                                    end) (day_range lo hi) |}
  | _, _ => {| columns := columns df;
               datetime_index := datetime_index df;
               rows := [] |}
  end.

(** What [df.resample("D").ffill()] returns on a frame with a
    [DatetimeIndex]: the frame sorted by date, then reindexed on the
    calendar days. *)
Definition upsample_D_ffill (df : DataFrame) : DataFrame :=
  reindex_days_ffill {| columns := columns df;
                        datetime_index := datetime_index df;
                        rows := sort_rows (rows df) |}.

(** [df.resample("D").ffill()]: [resample] raises [TypeError] on a frame
    whose index is not a [DatetimeIndex]. *)
Definition resample_D_ffill (df : DataFrame) : M DataFrame :=
  if datetime_index df then ret (upsample_D_ffill df) else raise TypeError.

(** [a - b] on two columns of one frame (same index). *)
Definition sub_cols (a b : string) (df : DataFrame) : Series :=
  map (fun r => (fst r, snd r a - snd r b)) (rows df).

(** ** Relative strength index *)

(** [s.diff()]: NaN first, then each value minus the one before. *)
Fixpoint diff_from (prev : float) (l : list float) : list float :=
  match l with
  | [] => []
  | x :: l' => (x - prev) :: diff_from x l'
  end.

Definition diff (l : list float) : list float :=
  match l with
  | [] => []
  | x :: l' => PrimFloat.nan :: diff_from x l'
  end.

(** [s.clip(lower=0)]: NaN and the values [>= 0] are kept, the others
    become [0]. *)
Definition clip_lower0 (x : float) : float :=
  if isna x || (0 <=? x) then x else 0.

(** [s.clip(upper=0)] *)
Definition clip_upper0 (x : float) : float :=
  if isna x || (x <=? 0) then x else 0.

(** Infinities become NaN before the windows are aggregated. *)
Definition inf_to_nan (x : float) : float :=
  if PrimFloat.is_infinity x then PrimFloat.nan else x.

(** [signbit(x)] for a number: set for the negative numbers and for
    [-0.0]. *)
Definition signbit (x : float) : bool :=
  match Prim2SF x with
  | S754_zero s => s
  | S754_infinity s => s
  | S754_finite s _ _ => s
  | S754_nan => false
  end.

(** The running state of pandas' [roll_mean]: the count of the
    observations in the window and of those with the sign bit set, the
    running sum, the two compensation terms of its Kahan summation, and the
    length and value of the latest run of equal observations. *)
Record mean_state := mkMeanState {
  nobs : nat;
  neg_ct : nat;
  sum_x : float;
  compensation_add : float;
  compensation_remove : float;
  num_consecutive_same_value : nat;
  prev_value : float
}.

(** [add_mean]: an observation enters the window; NaN is passed over. *)
Definition add_mean (val : float) (st : mean_state) : mean_state :=
  if val =? val then
    let y := val - compensation_add st in
    let t := sum_x st + y in
    {| nobs := S (nobs st);
       neg_ct := if signbit val then S (neg_ct st) else neg_ct st;
       sum_x := t;
       compensation_add := t - sum_x st - y;
       compensation_remove := compensation_remove st;
       num_consecutive_same_value :=
         if val =? prev_value st then S (num_consecutive_same_value st)
         else 1%nat;
       prev_value := val |}
  else st.

(** [remove_mean]: an observation leaves the window; NaN is passed over. *)
Definition remove_mean (val : float) (st : mean_state) : mean_state :=
  if val =? val then
    let y := - val - compensation_remove st in
    let t := sum_x st + y in
    {| nobs := Nat.pred (nobs st);
       neg_ct := if signbit val then Nat.pred (neg_ct st) else neg_ct st;
       sum_x := t;
       compensation_add := compensation_add st;
       compensation_remove := t - sum_x st - y;
       num_consecutive_same_value := num_consecutive_same_value st;
       prev_value := prev_value st |}
  else st.

(** [calc_mean]: the mean of the window when it holds [minp] observations
    or more.  A window of equal observations gives that observation; a
    negative mean of observations without sign bit, or a positive mean of
    observations that all have it, is replaced by zero. *)
Definition calc_mean (minp : nat) (st : mean_state) : float :=
  if ((minp <=? nobs st) && (0 <? nobs st))%nat then
    let result := sum_x st / of_nat (nobs st) in
    if (nobs st <=? num_consecutive_same_value st)%nat then prev_value st
    else if (neg_ct st =? 0)%nat && (result <? 0) then 0
    else if (neg_ct st =? nobs st)%nat && (0 <? result) then 0
    else result
  else PrimFloat.nan.

(** The state before the first observation of a window that starts at
    position [s]. *)
Definition setup_mean (values : list float) (s : nat) : mean_state :=
  {| nobs := 0; neg_ct := 0; sum_x := 0;
     compensation_add := 0; compensation_remove := 0;
     num_consecutive_same_value := 0;
     prev_value := nth s values PrimFloat.nan |}.

(** The loop of [roll_mean] from position [i] on, for the windows
    [[i + 1 - window, i + 1)] of a fixed size of one entry or more.  The state is set up afresh
    at the first position, and at every position when the windows do not
    overlap; otherwise the observation that left the window is removed from
    the running sum and the one that entered it is added. *)
Fixpoint roll_mean_from (values : list float) (minp window i : nat)
    (rest : list float) (st : mean_state) : list float :=
  match rest with
  | [] => []
  | val :: rest' =>
      let st :=
        if ((i =? 0) || (window <=? 1))%nat
        then setup_mean values (i + 1 - window)
        else if (window <=? i)%nat
             then remove_mean (nth (i - window) values PrimFloat.nan) st
             else st in
      let st := add_mean val st in
      calc_mean minp st :: roll_mean_from values minp window (S i) rest' st
  end.

Definition roll_mean (values : list float) (minp window : nat) : list float :=
  roll_mean_from values minp window 0 values (setup_mean values 0).

(** [s.rolling(period).mean()]: infinities become NaN, the windows hold the
    [period] entries up to each position, and [min_periods] defaults to the
    window size, so a position has a mean only when its window holds
    [period] observations. *)
Definition rolling_mean (period : nat) (l : list float) : list float :=
  roll_mean (map inf_to_nan l) period period.

(** [compute_rsi] on the values of a series. *)
Definition rsi_values (l : list float) (period : nat) : list float :=
  let delta := diff l in
  let gain := map clip_lower0 delta in
  let loss := map (fun x => - clip_upper0 x) delta in
  let avg_gain := rolling_mean period gain in
  let avg_loss := rolling_mean period loss in
  let rs := map (fun p => fst p / snd p) (combine avg_gain avg_loss) in
  map (fun x => 100 - (100 / (1 + x))) rs.

(** [compute_rsi(series, period=14)]: the result keeps the index. *)
Definition compute_rsi (s : Series) (period : nat) : Series :=
  combine (index s) (rsi_values (values s) period).

Section Blocks.

Variable fred : string -> outcome.

(** The net_liquidity block. *)
Definition net_liquidity_block : M unit :=
  c1 <- series_get "walcl" ;;
  walcl <- fetch_series fred c1 ;;
  c2 <- series_get "rrp" ;;
  rrp <- fetch_series fred c2 ;;
  c3 <- series_get "tga" ;;
  tga <- fetch_series fred c3 ;;
  if negb (empty walcl) then
    let df := DataFrame_of [("walcl", walcl); ("rrp", rrp); ("tga", tga)] in
    df <- resample_D_ffill df ;;
    let df := assign "net_liquidity"
                (fun r => r "walcl" * 1e6 - r "rrp" * 1e9 - r "tga" * 1e9) df in
    let nl := dropna (col "net_liquidity" df) in
    if negb (empty nl) then
      val <- iloc_last nl ;;
      z_ <- iloc_last (zscore nl) ;;
      append {| id := "net_liquidity"; value := val; z := z_;
                desc := "Net liquidity = Fed balance sheet minus reverse repo and Treasury cash; rising liquidity supports risk assets." |}
    else ret tt
  else ret tt.

(** The spx_rsi14 block. *)
Definition spx_rsi14_block : M unit :=
  code <- series_get "spx" ;;
  raw <- fetch_series fred code ;;
  let spx := dropna raw in
  if negb (empty spx) then
    let rsi_series := dropna (compute_rsi spx 14) in
    if negb (empty rsi_series) then
      val <- iloc_last rsi_series ;;
      z_ <- iloc_last (zscore rsi_series) ;;
      append {| id := "spx_rsi14"; value := val; z := z_;
                desc := "S&P 500 RSI (14-day); measures momentum; overbought >70, oversold <30." |}
    else ret tt
  else ret tt.

(** The vix_term block; [vix] is the cleaned series left by the vix_level
    block. *)
Definition vix_term_block (vix : Series) : M unit :=
  code <- series_get "vix3m" ;;
  raw <- fetch_series fred code ;;
  let vix3m := dropna raw in
  if negb (empty vix) && negb (empty vix3m) then
    let df_vix := dropna_rows (DataFrame_of [("vix", vix); ("vix3m", vix3m)]) in
    let spread := sub_cols "vix" "vix3m" df_vix in
    val <- iloc_last spread ;;
    z_ <- iloc_last (zscore spread) ;;
    append {| id := "vix_term"; value := val; z := z_;
              desc := "VIX term structure (VIX minus VIX3M); positive spread indicates backwardation (stress)." |}
  else ret tt.

End Blocks.

(** ** JSON text

    [json.dump(signals, f, indent=2)] writes the list as JSON text; the
    consumer reads it back with [json.load].  Both are embedded on the JSON
    values the script can produce.  Python strings are embedded as Rocq
    strings, a character being a code point below 256. *)

Close Scope float_scope.

Set Warnings "-register-all".

(** A JSON document.  A number is kept as its literal, the way it stands in
    the text. *)
Inductive json :=
| JNull
| JBool (b : bool)
| JNum (literal : string)
| JStr (s : string)
| JList (l : list json)
| JDict (d : list (string * json)).

Definition LF : ascii := "010"%char.

(** The double quote. *)
Definition DQ : ascii := "034"%char.

Fixpoint spaces (n : nat) : string :=
  match n with
  | O => ""
  | S n' => String " " (spaces n')
  end.

(** ['\n' + indent * level] with [indent = 2] spaces. *)
Definition newline_indent (level : nat) : string :=
  String LF (spaces (2 * level)).

Definition hex_digit (n : nat) : ascii :=
  match n with
  | 0 => "0" | 1 => "1" | 2 => "2" | 3 => "3" | 4 => "4" | 5 => "5"
  | 6 => "6" | 7 => "7" | 8 => "8" | 9 => "9" | 10 => "a" | 11 => "b"
  | 12 => "c" | 13 => "d" | 14 => "e" | _ => "f"
  end%char.

(** The replacement of one character in [encode_basestring_ascii]: the two
    characters of JSON syntax and the control characters take their escape,
    everything outside [' '..'~'] becomes [\uXXXX], the rest stands. *)
Definition escape_char (c : ascii) : string :=
  let n := nat_of_ascii c in
  if Ascii.eqb c DQ then String "\" (String DQ "")
  else if Ascii.eqb c "\" then "\\"
  else if (n =? 8)%nat then "\b"
  else if (n =? 12)%nat then "\f"
  else if (n =? 10)%nat then "\n"
  else if (n =? 13)%nat then "\r"
  else if (n =? 9)%nat then "\t"
  else if ((n <? 32) || (126 <? n))%nat then
    String "\" (String "u" (String "0" (String "0"
      (String (hex_digit (n / 16)) (String (hex_digit (n mod 16)) "")))))
  else String c "".

Fixpoint escape (s : string) : string :=
  match s with
  | EmptyString => ""
  | String c s' => (escape_char c ++ escape s')%string
  end.

(** [encode_basestring_ascii] *)
Definition encode_basestring_ascii (s : string) : string :=
  (String DQ (escape s) ++ String DQ "")%string.

(** The encoder with [indent=2]: item separator [","], key separator
    [": "], every item of a non-empty list or dict on a line of its own. *)
Fixpoint encode (level : nat) (v : json) : string :=
  match v with
  | JNull => "null"
  | JBool true => "true"
  | JBool false => "false"
  | JNum literal => literal
  | JStr s => encode_basestring_ascii s
  | JList [] => "[]"
  | JList (x :: l) =>
      ("[" ++ newline_indent (S level) ++ encode (S level) x
        ++ (fix items (l : list json) : string :=
              match l with
              | [] => ""
              | y :: l' => "," ++ newline_indent (S level) ++ encode (S level) y
                            ++ items l'
              end) l
        ++ newline_indent level ++ "]")%string
  | JDict [] => "{}"
  | JDict ((k, x) :: d) =>
      ("{" ++ newline_indent (S level) ++ encode_basestring_ascii k ++ ": "
        ++ encode (S level) x
        ++ (fix members (d : list (string * json)) : string :=
              match d with
              | [] => ""
              | (k', y) :: d' => "," ++ newline_indent (S level)
                                  ++ encode_basestring_ascii k' ++ ": "
                                  ++ encode (S level) y ++ members d'
              end) d
        ++ newline_indent level ++ "}")%string
  end.

(** *** Decoder *)

Definition is_digit (c : ascii) : bool :=
  let n := nat_of_ascii c in ((48 <=? n) && (n <=? 57))%nat.

Definition is_whitespace (c : ascii) : bool :=
  let n := nat_of_ascii c in
  ((n =? 32) || (n =? 9) || (n =? 10) || (n =? 13))%nat.

Fixpoint skip_ws (s : string) : string :=
  match s with
  | String c s' => if is_whitespace c then skip_ws s' else s
  | EmptyString => s
  end.

(** The longest run of digits at the head of [s], and what follows. *)
Fixpoint span_digits (s : string) : string * string :=
  match s with
  | String c s' =>
      if is_digit c then let (ds, r) := span_digits s' in (String c ds, r)
      else ("", s)
  | EmptyString => ("", s)
  end.

(** The optional fraction of [NUMBER_RE]: a dot and at least one digit. *)
Definition match_frac (s : string) : string * string :=
  match s with
  | String "." s' =>
      match span_digits s' with
      | (EmptyString, _) => ("", s)
      | (ds, r) => (String "." ds, r)
      end
  | _ => ("", s)
  end.

(** The optional exponent of [NUMBER_RE]: [e] or [E], an optional sign and
    at least one digit. *)
Definition match_exp (s : string) : string * string :=
  match s with
  | String e s' =>
      if Ascii.eqb e "e" || Ascii.eqb e "E" then
        let (sg, s'') :=
          match s' with
          | String c t => if Ascii.eqb c "-" || Ascii.eqb c "+"
                          then (String c "", t) else ("", s')
          | EmptyString => ("", s')
          end in
        match span_digits s'' with
        | (EmptyString, _) => ("", s)
        | (ds, r) => (String e (sg ++ ds)%string, r)
        end
      else ("", s)
  | EmptyString => ("", s)
  end.

(** The integer part of [NUMBER_RE]: an optional minus sign, then a single
    zero or a non-zero digit followed by digits. *)
Definition match_int (s : string) : option (string * string) :=
  let (sg, s') :=
    match s with
    | String "-" t => ("-", t)
    | _ => ("", s)
    end in
  match s' with
  | String c t =>
      if Ascii.eqb c "0" then Some ((sg ++ "0")%string, t)
      else if is_digit c then
        let (ds, r) := span_digits t in Some ((sg ++ String c ds)%string, r)
      else None
  | EmptyString => None
  end.

(** [NUMBER_RE.match]: the literal matched at the head of [s] and the rest
    of the text. *)
Definition match_number (s : string) : option (string * string) :=
  match match_int s with
  | Some (i, r) =>
      let (f, r') := match_frac r in
      let (e, r'') := match_exp r' in
      Some ((i ++ f ++ e)%string, r'')
  | None => None
  end.

Definition hex_value (c : ascii) : option nat :=
  let n := nat_of_ascii c in
  if ((48 <=? n) && (n <=? 57))%nat then Some (n - 48)
  else if ((97 <=? n) && (n <=? 102))%nat then Some (n - 87)
  else if ((65 <=? n) && (n <=? 70))%nat then Some (n - 55)
  else None.

(** The character named by the escape that follows a backslash, and the
    text after the escape.  Code points from 256 on have no embedding. *)
Definition unescape (s : string) : option (ascii * string) :=
  match s with
  | String "u" (String a (String b (String c (String d r)))) =>
      match hex_value a, hex_value b, hex_value c, hex_value d with
      | Some 0, Some 0, Some h, Some l => Some (ascii_of_nat (16 * h + l), r)
      | _, _, _, _ => None
      end
  | String c r =>
      if Ascii.eqb c DQ then Some (c, r)
      else if Ascii.eqb c "\" then Some (c, r)
      else if Ascii.eqb c "/" then Some (c, r)
      else if Ascii.eqb c "b" then Some (ascii_of_nat 8, r)
      else if Ascii.eqb c "f" then Some (ascii_of_nat 12, r)
      else if Ascii.eqb c "n" then Some (ascii_of_nat 10, r)
      else if Ascii.eqb c "r" then Some (ascii_of_nat 13, r)
      else if Ascii.eqb c "t" then Some (ascii_of_nat 9, r)
      else None
  | EmptyString => None
  end.

(** [scanstring], after the opening quote: the decoded string and the text
    after the closing quote.  Control characters are refused (strict
    mode). *)
Fixpoint scanstring (fuel : nat) (s : string) : option (string * string) :=
  match fuel with
  | O => None
  | S fuel' =>
      match s with
      | EmptyString => None
      | String c r =>
          if Ascii.eqb c DQ then Some ("", r)
          else if Ascii.eqb c "\" then
            match unescape r with
            | Some (x, r') =>
                match scanstring fuel' r' with
                | Some (t, r'') => Some (String x t, r'')
                | None => None
                end
            | None => None
            end
          else if (nat_of_ascii c <? 32)%nat then None
          else
            match scanstring fuel' r with
            | Some (t, r') => Some (String c t, r')
            | None => None
            end
      end
  end.

(** [s.startswith(p)], giving the text after the prefix. *)
Fixpoint strip_prefix (p s : string) : option string :=
  match p, s with
  | EmptyString, _ => Some s
  | String a p', String b s' => if Ascii.eqb a b then strip_prefix p' s' else None
  | String _ _, EmptyString => None
  end.

(** [d[k] = v] on a dict kept in insertion order. *)
Fixpoint dict_set (k : string) (v : json) (d : list (string * json))
    : list (string * json) :=
  match d with
  | [] => [(k, v)]
  | (k', v') :: d' =>
      if String.eqb k k' then (k', v) :: d' else (k', v') :: dict_set k v d'
  end.

(** [scan_once], [JSONArray] and [JSONObject]: one value at the head of the
    text, with the text that follows it.  The [fuel] bounds the characters
    read. *)
Fixpoint scan_once (fuel : nat) (s : string) : option (json * string) :=
  match fuel with
  | O => None
  | S fuel' =>
      match s with
      | EmptyString => None
      | String c r =>
          if Ascii.eqb c DQ then
            match scanstring fuel' r with
            | Some (t, r') => Some (JStr t, r')
            | None => None
            end
          else if Ascii.eqb c "{" then
            match skip_ws r with
            | String "}" r' => Some (JDict [], r')
            | r' => scan_members fuel' [] r'
            end
          else if Ascii.eqb c "[" then
            match skip_ws r with
            | String "]" r' => Some (JList [], r')
            | r' => scan_items fuel' [] r'
            end
          else
            match strip_prefix "null" s, strip_prefix "true" s,
                  strip_prefix "false" s with
            | Some r', _, _ => Some (JNull, r')
            | _, Some r', _ => Some (JBool true, r')
            | _, _, Some r' => Some (JBool false, r')
            | None, None, None =>
                match match_number s with
                | Some (literal, r') => Some (JNum literal, r')
                | None =>
                    match strip_prefix "NaN" s, strip_prefix "Infinity" s,
                          strip_prefix "-Infinity" s with
                    | Some r', _, _ => Some (JNum "NaN", r')
                    | _, Some r', _ => Some (JNum "Infinity", r')
                    | _, _, Some r' => Some (JNum "-Infinity", r')
                    | None, None, None => None
                    end
                end
            end
      end
  end

with scan_items (fuel : nat) (acc : list json) (s : string)
    : option (json * string) :=
  match fuel with
  | O => None
  | S fuel' =>
      match scan_once fuel' s with
      | Some (v, r) =>
          match skip_ws r with
          | String "]" r' => Some (JList (acc ++ [v]), r')
          | String "," r' => scan_items fuel' (acc ++ [v]) (skip_ws r')
          | _ => None
          end
      | None => None
      end
  end

with scan_members (fuel : nat) (acc : list (string * json)) (s : string)
    : option (json * string) :=
  match fuel with
  | O => None
  | S fuel' =>
      match s with
      | String c r =>
          if Ascii.eqb c DQ then
            match scanstring fuel' r with
            | Some (k, r1) =>
                match skip_ws r1 with
                | String ":" r2 =>
                    match scan_once fuel' (skip_ws r2) with
                    | Some (v, r3) =>
                        match skip_ws r3 with
                        | String "}" r4 => Some (JDict (dict_set k v acc), r4)
                        | String "," r4 =>
                            scan_members fuel' (dict_set k v acc) (skip_ws r4)
                        | _ => None
                        end
                    | None => None
                    end
                | _ => None
                end
            | None => None
            end
          else None
      | EmptyString => None
      end
  end.

(** [json.loads]: one value, white space around it, nothing else. *)
Definition loads (s : string) : option json :=
  match scan_once (S (String.length s)) (skip_ws s) with
  | Some (v, r) =>
      match skip_ws r with
      | EmptyString => Some v
      | _ => None
      end
  | None => None
  end.

Section Sink.

(** [float.__repr__] on finite numbers: the shortest decimal literal that
    reads back as the same binary64 value. *)
Variable float_repr : float -> string.

(** [floatstr] of the encoder (with [allow_nan=True], the default). *)
Definition floatstr (o : float) : string :=
  if negb (o =? o)%float then "NaN"
  else if (o =? PrimFloat.infinity)%float then "Infinity"
  else if (o =? PrimFloat.neg_infinity)%float then "-Infinity"
  else float_repr o.

(** A signal dict as a JSON value, keys in insertion order. *)
Definition signal_json (sg : Signal) : json :=
  JDict [ ("id", JStr (id sg));
          ("value", JNum (floatstr (value sg)));
          ("z", JNum (floatstr (z sg)));
          ("desc", JStr (desc sg)) ].

(** [json.dump(signals, f, indent=2)]: the text written. *)
Definition json_dump (sigs : list Signal) : string :=
  encode 0 (JList (map signal_json sigs)).

(** The sink: [os.makedirs("docs", exist_ok=True)], then the file is opened
    for writing and receives the whole list. *)
Definition write_signals : M unit :=
  fun st => (Ok tt, {| calls := calls st;
                       signals := signals st;
                       docs_signals_json := Some (json_dump (signals st)) |}).

Variable fred : string -> outcome.

(** The script, top to bottom. *)
Definition main : M unit :=
  real_yield_block fred ;;;
  breakeven_block fred ;;;
  usd_block fred ;;;
  hy_oas_block fred ;;;
  ig_oas_block fred ;;;
  net_liquidity_block fred ;;;
  claims_block fred ;;;
  spx_rsi14_block fred ;;;
  vix <- vix_level_block fred ;;
  vix_term_block fred vix ;;;
  write_signals.

End Sink.

(** ** Vocabulary of the specification *)

Open Scope float_scope.

(** The state after one more provider request for [code]. *)
Definition logged (code : string) (st : pstate) : pstate :=
  {| calls := calls st ++ [code];
     signals := signals st;
     docs_signals_json := docs_signals_json st |}.

(** The state after one more signal. *)
Definition emitted (sg : Signal) (st : pstate) : pstate :=
  {| calls := calls st;
     signals := signals st ++ [sg];
     docs_signals_json := docs_signals_json st |}.

(** A series is chronological when its dates strictly ascend. *)
Definition chronological (s : Series) : Prop :=
  StronglySorted Z.lt (index s).

(** The seven simple blocks, each with the code it fetches and the id it
    emits. *)
Definition simple_blocks (fred : string -> outcome)
    : list (M Series * string * string) :=
  [ (real_yield_block fred, "DFII10", "real_yield");
    (breakeven_block fred, "T10YIE", "breakeven");
    (usd_block fred, "DTWEXBGS", "usd");
    (hy_oas_block fred, "BAMLH0A0HYM2", "hy_oas");
    (ig_oas_block fred, "BAMLC0A0CM", "ig_oas");
    (claims_block fred, "ICSA", "claims");
    (vix_level_block fred, "VIXCLS", "vix_level") ].

(** What [fetch_series] hands to a block that goes on: the provider's
    series, or the empty one after a caught failure. *)
Definition fetched (fred : string -> outcome) (code : string) : Series :=
  match fred code with
  | Returned s => s
  | Raised _ => []
  end.

(** The frame of the net_liquidity block after alignment on the daily
    calendar: what [resample_D_ffill] returns when it returns. *)
Definition aligned_frame (walcl rrp tga : Series) : DataFrame :=
  upsample_D_ffill (DataFrame_of [("walcl", walcl); ("rrp", rrp); ("tga", tga)]).

(** The combined net-liquidity series: the rows left by the missing-row
    drop. *)
Definition net_liquidity_series (walcl rrp tga : Series) : Series :=
  dropna (col "net_liquidity"
            (assign "net_liquidity"
               (fun r => r "walcl" * 1e6 - r "rrp" * 1e9 - r "tga" * 1e9)
               (aligned_frame walcl rrp tga))).

(** The spread series of the vix_term block. *)
Definition spread_series (vix vix3m : Series) : Series :=
  sub_cols "vix" "vix3m"
    (dropna_rows (DataFrame_of [("vix", vix); ("vix3m", vix3m)])).

(** The cleaned series a signal is computed from, by signal id. *)
Definition underlying (fred : string -> outcome) (id_ : string) : Series :=
  if String.eqb id_ "real_yield" then dropna (fetched fred "DFII10")
  else if String.eqb id_ "breakeven" then dropna (fetched fred "T10YIE")
  else if String.eqb id_ "usd" then dropna (fetched fred "DTWEXBGS")
  else if String.eqb id_ "hy_oas" then dropna (fetched fred "BAMLH0A0HYM2")
  else if String.eqb id_ "ig_oas" then dropna (fetched fred "BAMLC0A0CM")
  else if String.eqb id_ "claims" then dropna (fetched fred "ICSA")
  else if String.eqb id_ "vix_level" then dropna (fetched fred "VIXCLS")
  else if String.eqb id_ "net_liquidity" then
    if empty (fetched fred "WALCL") then []
    else net_liquidity_series (fetched fred "WALCL") (fetched fred "RRPONTSYD")
                              (fetched fred "WTREGEN")
  else if String.eqb id_ "spx_rsi14" then
    dropna (compute_rsi (dropna (fetched fred "SP500")) 14)
  else if String.eqb id_ "vix_term" then
    if empty (dropna (fetched fred "VIXCLS"))
       || empty (dropna (fetched fred "VXVCLS")) then []
    else spread_series (dropna (fetched fred "VIXCLS"))
                       (dropna (fetched fred "VXVCLS"))
  else [].

(** A signal is well-founded when its value is the last entry of its
    underlying series and its z is the z-score of that entry over the whole
    of that series. *)
Definition well_founded_signal (fred : string -> outcome) (sg : Signal) : Prop :=
  exists d,
    last_opt (underlying fred (id sg)) = Some (d, value sg) /\
    z sg = (value sg - mean (underlying fred (id sg)))
           / std (underlying fred (id sg)).

(** [appends fred Q m]: from any state, [m] only ever extends the signal
    list, by well-founded signals, and a normal return satisfies [Q]. *)
Definition appends {A} (fred : string -> outcome) (Q : A -> Prop) (m : M A)
    : Prop :=
  forall st,
    (exists out, signals (snd (m st)) = signals st ++ out /\
                 Forall (well_founded_signal fred) out) /\
    match fst (m st) with
    | Ok a => Q a
    | Raise _ => True
    end.

(** A provider that has two equal observations of the real yield and fails
    on every other code. *)
Definition flat_real_yield_provider (code : string) : outcome :=
  if String.eqb code "DFII10" then Returned [(0%Z, 2); (1%Z, 2)]
  else Raised (ProviderError NoData).

(** A provider whose VIX and VIX3M series have one observation each, on
    different days, and that fails on every other code. *)
Definition disjoint_vix_provider (code : string) : outcome :=
  if String.eqb code "VIXCLS" then Returned [(1%Z, 20)]
  else if String.eqb code "VXVCLS" then Returned [(2%Z, 18)]
  else Raised (ProviderError NoData).

(** The dates of the frame of the two series on which both have a
    number. *)
Definition joint_dates (a b : Series) : list date :=
  filter (fun d => negb (isna (at_date d a)) && negb (isna (at_date d b)))
         (frame_index [index a; index b]).

(** The net-liquidity formula on one row of the aligned frame. *)
Definition net_liquidity_of (r : string -> float) : float :=
  r "walcl" * 1e6 - r "rrp" * 1e9 - r "tga" * 1e9.

(** A provider with a balance-sheet series and a treasury-cash series but no
    reverse-repo series. *)
Definition no_rrp_provider (code : string) : outcome :=
  if String.eqb code "WALCL" then Returned [(1%Z, 7000000); (8%Z, 7100000)]
  else if String.eqb code "WTREGEN" then Returned [(1%Z, 700); (8%Z, 710)]
  else Raised (ProviderError NoData).

(** A JSON number: [NUMBER_RE] matches the whole of [s] when a comma
    follows. *)
Definition number_literal (s : string) : Prop :=
  forall rest,
    match_number (s ++ String "," rest)%string = Some (s, String "," rest).

(** [d[k]] on a decoded dict. *)
Fixpoint dict_get (k : string) (d : list (string * json)) : option json :=
  match d with
  | [] => None
  | (k', v) :: d' => if String.eqb k k' then Some v else dict_get k d'
  end.

(** What a consumer reads: [[s["id"] for s in json.load(f)]]. *)
Definition ids_of (v : json) : option (list string) :=
  match v with
  | JList l =>
      fold_right (fun o acc =>
                    match o, acc with
                    | JDict d, Some ids =>
                        match dict_get "id" d with
                        | Some (JStr s) => Some (s :: ids)
                        | _ => None
                        end
                    | _, _ => None
                    end) (Some []) l
  | _ => None
  end.

(** The separated items after the first one of a list, as [encode] writes
    them. *)
Fixpoint encode_items (level : nat) (l : list json) : string :=
  match l with
  | [] => ""
  | y :: l' => ("," ++ newline_indent (S level) ++ encode (S level) y
                 ++ encode_items level l')%string
  end.

(** One [key: value] member of an object, followed by [more]. *)
Definition member_text (k vt more : string) : string :=
  (encode_basestring_ascii k ++ ": " ++ vt ++ more)%string.

(** The numbers [floatstr] hands to [float.__repr__]. *)
Definition finite_number (o : float) : Prop :=
  (o =? o) = true /\
  (o =? PrimFloat.infinity) = false /\
  (o =? PrimFloat.neg_infinity) = false.

(** *** Binary64 values *)

(** [2 ^ e] as a real number. *)
Definition bpow (e : Z) : R := powerRZ 2 e.

(** The real value of mantissa [m] at exponent [e]. *)
Definition F2R (m e : Z) : R := (IZR m * bpow e)%R.

(** The canonical exponent of binary64 for a number of magnitude [e]. *)
Definition fexp64 (e : Z) : Z := Z.max (e - 53) (-1074).

(** A mantissa and exponent on the binary64 grid: the exponent is not below
    the least one, and above it the mantissa has all its 53 digits. *)
Definition on_grid (m e : Z) : Prop :=
  (0 <= m /\ -1074 <= e /\ (-1074 < e -> 2 ^ 52 <= m))%Z.

(** The outcome of [binary_round_aux] from the final mantissa and
    exponent. *)
Definition sf_of (s : bool) (m e : Z) : spec_float :=
  match m with
  | Z0 => S754_zero s
  | Zpos p => if (e <=? 971)%Z then S754_finite s p e else S754_infinity s
  | Zneg _ => S754_nan
  end.

(** A binary64 number that is zero or positive, infinity included. *)
Definition sf_nonneg (x : spec_float) : Prop :=
  match x with
  | S754_zero _ => True
  | S754_finite false _ _ => True
  | S754_infinity false => True
  | _ => False
  end.

(** A finite binary64 number that is zero or positive. *)
Definition sf_nonneg_fin (x : spec_float) : Prop :=
  match x with
  | S754_zero _ => True
  | S754_finite false _ _ => True
  | _ => False
  end.

(** The relative strength index from an average gain and an average
    loss. *)
Definition rsi_of (g l : float) : float := 100 - 100 / (1 + g / l).

(** The rolling average gain and the rolling average loss inside
    [compute_rsi]. *)
Definition avg_gain_of (l : list float) (period : nat) : list float :=
  rolling_mean period (map clip_lower0 (diff l)).

Definition avg_loss_of (l : list float) (period : nat) : list float :=
  rolling_mean period (map (fun x => - clip_upper0 x) (diff l)).

(** Sixteen daily prices, each one above the one before. *)
Definition rising_prices : Series :=
  map (fun k => (Z.of_nat k, of_nat (100 + k))) (seq 0 16).

(** Eighteen daily prices with one far outlier. *)
Definition spike_prices : Series :=
  combine (map Z.of_nat (seq 0 18))
          [9; 1; 1e17; 4; 1; 5; 7; 3; 4; 4; 5; 1; 1; 3; 1; 6; 5; 4].

(** The script from the breakeven block on. *)
Definition after_real_yield (float_repr : float -> string)
    (fred : string -> outcome) : M unit :=
  breakeven_block fred ;;;
  usd_block fred ;;;
  hy_oas_block fred ;;;
  ig_oas_block fred ;;;
  net_liquidity_block fred ;;;
  claims_block fred ;;;
  spx_rsi14_block fred ;;;
  vix <- vix_level_block fred ;;
  vix_term_block fred vix ;;;
  write_signals float_repr.


(** ** Vocabulary for the whole run *)

(** The state after the requests [cs] and the new signals [sigs]. *)
Definition advanced (cs : list string) (sigs : list Signal) (st : pstate)
    : pstate :=
  {| calls := calls st ++ cs;
     signals := signals st ++ sigs;
     docs_signals_json := docs_signals_json st |}.

(** The record a block builds from the series it ends with: the last value
    and its z-score, or nothing when the series is empty. *)
Definition signal_of (s : Series) (id_ desc_ : string) : list Signal :=
  match last_opt s with
  | Some (_, v) =>
      [ {| id := id_; value := v; z := (v - mean s) / std s; desc := desc_ |} ]
  | None => []
  end.

(** The ten signals of the script in the order of their blocks, each with
    its description. *)
Definition catalog : list (string * string) :=
  [ ("real_yield",
     "10-year TIPS real yield; rising real yields pressure growth and long-duration assets.");
    ("breakeven",
     "10-year inflation breakeven; higher breakevens imply rising inflation expectations.");
    ("usd",
     "Trade-weighted USD (broad); a stronger dollar can be a headwind for risk assets and commodities.");
    ("hy_oas",
     "High-yield credit option-adjusted spread; widening spreads suggest stress in credit markets.");
    ("ig_oas",
     "Investment-grade credit spread; widening indicates risk aversion and tightening conditions.");
    ("net_liquidity",
     "Net liquidity = Fed balance sheet minus reverse repo and Treasury cash; rising liquidity supports risk assets.");
    ("claims",
     "Weekly initial unemployment claims; rising claims may signal labor market weakness.");
    ("spx_rsi14",
     "S&P 500 RSI (14-day); measures momentum; overbought >70, oversold <30.");
    ("vix_level",
     "CBOE Volatility Index (VIX); higher levels signal market stress.");
    ("vix_term",
     "VIX term structure (VIX minus VIX3M); positive spread indicates backwardation (stress).") ].

(** The signals of the blocks of [entries], in order: one for each block
    whose series is not empty. *)
Definition signals_of (fred : string -> outcome)
    (entries : list (string * string)) : list Signal :=
  flat_map (fun e => signal_of (underlying fred (fst e)) (fst e) (snd e)) entries.

(** What a run that is not cut short leaves in [signals]. *)
Definition expected_signals (fred : string -> outcome) : list Signal :=
  signals_of fred catalog.

(** The provider requests of a run, in order. *)
Definition request_order : list string :=
  [ "DFII10"; "T10YIE"; "DTWEXBGS"; "BAMLH0A0HYM2"; "BAMLC0A0CM";
    "WALCL"; "RRPONTSYD"; "WTREGEN"; "ICSA"; "SP500"; "VIXCLS"; "VXVCLS" ].

(** The provider fails with [Exception]s only: nothing it raises gets past
    [fetch_series]. *)
Definition only_exceptions (fred : string -> outcome) : Prop :=
  forall code e, fred code = Raised e -> is_Exception e = true.

(** The frame of the net_liquidity block has no [DatetimeIndex]: the
    balance-sheet series has observations and the reverse-repo or the
    treasury-cash series has none. *)
Definition frame_fails (fred : string -> outcome) : bool :=
  negb (empty (fetched fred "WALCL"))
  && (empty (fetched fred "RRPONTSYD") || empty (fetched fred "WTREGEN")).

(** Both VIX series have observations and no date in common. *)
Definition vix_join_empty (fred : string -> outcome) : bool :=
  negb (empty (dropna (fetched fred "VIXCLS")))
  && negb (empty (dropna (fetched fred "VXVCLS")))
  && empty (spread_series (dropna (fetched fred "VIXCLS"))
                          (dropna (fetched fred "VXVCLS"))).

(** [subseq a b]: [a] is [b] with some elements left out, order kept. *)
Inductive subseq {A : Type} : list A -> list A -> Prop :=
| subseq_nil : subseq [] []
| subseq_skip (x : A) (a b : list A) : subseq a b -> subseq a (x :: b)
| subseq_take (x : A) (a b : list A) : subseq a b -> subseq (x :: a) (x :: b).

(** The id and the description of a signal. *)
Definition label (sg : Signal) : string * string := (id sg, desc sg).

(** [emits ls m]: from any state, [m] only ever extends the signal list, and
    the labels of what it adds are taken in order from [ls]. *)
Definition emits {A} (ls : list (string * string)) (m : M A) : Prop :=
  forall st,
    exists out, signals (snd (m st)) = signals st ++ out /\
                subseq (map label out) ls.

(** [guarded fred m]: [m] leaves the output file as it is, and an exception
    that gets out of it is an [IndexError], a [TypeError] or something the
    provider raised that is not an [Exception]. *)
Definition guarded {A} (fred : string -> outcome) (m : M A) : Prop :=
  forall st,
    docs_signals_json (snd (m st)) = docs_signals_json st /\
    forall e, fst (m st) = Raise e ->
              e = IndexError \/ e = TypeError \/
              (is_Exception e = false /\ exists code, fred code = Raised e).

(** A provider with no observation at all: every series it returns is empty
    once the missing observations are dropped. *)
Definition no_data (fred : string -> outcome) : Prop :=
  forall code, dropna (fetched fred code) = [].

(** A provider that returns one missing observation for every code. *)
Definition all_missing_provider (code : string) : outcome :=
  Returned [(1%Z, PrimFloat.nan)].

(** [ends_well float_repr fred m]: started with no output file, [m] either
    returns with the file holding the dump of the signal list, or raises
    with no file written. *)
Definition ends_well (float_repr : float -> string) (fred : string -> outcome)
    (m : M unit) : Prop :=
  forall st,
    docs_signals_json st = None ->
    match fst (m st) with
    | Ok _ =>
        docs_signals_json (snd (m st))
        = Some (json_dump float_repr (signals (snd (m st))))
    | Raise e =>
        docs_signals_json (snd (m st)) = None /\
        (e = IndexError \/ e = TypeError \/
         (is_Exception e = false /\ exists code, fred code = Raised e))
    end.

(** A provider with one observation of the real yield, failing on every
    other code. *)
Definition single_observation_provider (code : string) : outcome :=
  if String.eqb code "DFII10" then Returned [(1%Z, 2)]
  else Raised (ProviderError NoData).

(** Sixteen daily prices, each one below the one before. *)
Definition falling_prices : Series :=
  map (fun k => (Z.of_nat k, of_nat (200 - k))) (seq 0 16).

(** A provider with three S&P 500 prices, failing on every other code. *)
Definition short_spx_provider (code : string) : outcome :=
  if String.eqb code "SP500" then Returned [(1%Z, 100); (2%Z, 101); (3%Z, 102)]
  else Raised (ProviderError NoData).

(** A provider whose VIX and VIX3M series share the days 2 and 3, failing on
    every other code. *)
Definition overlapping_vix_provider (code : string) : outcome :=
  if String.eqb code "VIXCLS" then Returned [(1%Z, 20); (2%Z, 21); (3%Z, 22)]
  else if String.eqb code "VXVCLS" then Returned [(2%Z, 18); (3%Z, 19); (4%Z, 17)]
  else Raised (ProviderError NoData).

(** A provider whose S&P 500 price never moves, failing on every other
    code. *)
Definition flat_spx_provider (code : string) : outcome :=
  if String.eqb code "SP500"
  then Returned (map (fun k => (Z.of_nat k, 4500)) (seq 0 20))
  else Raised (ProviderError NoData).

(** A float that is missing or zero. *)
Definition nan_or_zero (x : float) : Prop :=
  isna x = true \/ (x =? 0) = true.

(** *** Characters of the output file *)

(** The printable ASCII characters, from the space to the tilde. *)
Definition printable (c : ascii) : bool :=
  ((32 <=? nat_of_ascii c) && (nat_of_ascii c <=? 126))%nat.

(** A printable ASCII character or a line feed. *)
Definition text_char (c : ascii) : bool := printable c || Ascii.eqb c LF.

Fixpoint all_chars (P : ascii -> bool) (s : string) : bool :=
  match s with
  | EmptyString => true
  | String c s' => P c && all_chars P s'
  end.

(** [prefix_of a b]: [a] is an initial segment of [b]. *)
Definition prefix_of {A : Type} (a b : list A) : Prop :=
  exists rest, a ++ rest = b.

(** [requests cs m]: from any state, [m] only ever extends the request log,
    by an initial segment of [cs], and by the whole of [cs] when it
    returns. *)
Definition requests {A} (cs : list string) (m : M A) : Prop :=
  forall st,
    exists done,
      calls (snd (m st)) = calls st ++ done /\
      prefix_of done cs /\
      match fst (m st) with
      | Ok _ => done = cs
      | Raise _ => True
      end.

(** A provider that is interrupted on the breakeven request and fails on
    every other code. *)
Definition interrupted_provider (code : string) : outcome :=
  if String.eqb code "T10YIE" then Raised KeyboardInterrupt
  else Raised (ProviderError NoData).

(** The running state of the rolling mean over values that are all zero or
    missing: the sum and its two compensations are zero. *)
Definition flat_state (st : mean_state) : Prop :=
  (sum_x st =? 0) = true /\ (compensation_add st =? 0) = true /\
  (compensation_remove st =? 0) = true /\ nan_or_zero (prev_value st).

(** An observation counts in a rolling window when it is a finite number. *)
Definition counted (x : float) : bool :=
  negb (isna x) && negb (PrimFloat.is_infinity x).

(** A provider whose VIX and VIX3M series both hold one infinite
    observation on day 1, failing on every other code. *)
Definition infinite_vix_provider (code : string) : outcome :=
  if String.eqb code "VIXCLS" then Returned [(1%Z, infinity)]
  else if String.eqb code "VXVCLS" then Returned [(1%Z, infinity)]
  else Raised (ProviderError NoData).

(** * Properties *)

(** ** Lists and the monad *)

Lemma last_opt_map {A B} (f : A -> B) (l : list A) :
  last_opt (map f l) = option_map f (last_opt l).
Proof.
  induction l as [|x [|y l'] IH]; try reflexivity.
  exact IH.
Qed.

Lemma last_opt_app {A} (l : list A) (x : A) : last_opt (l ++ [x]) = Some x.
Proof.
  induction l as [|y l IH]; [reflexivity|].
  simpl. destruct (l ++ [x]) eqn:E; [destruct l; discriminate|exact IH].
Qed.

Lemma last_opt_None {A} (l : list A) : last_opt l = None -> l = [].
Proof.
  induction l as [|x [|y l'] IH]; [reflexivity|discriminate|].
  intros H. apply IH in H. discriminate.
Qed.

Lemma last_opt_In {A} (l : list A) (x : A) : last_opt l = Some x -> In x l.
Proof.
  induction l as [|y [|y' l'] IH]; [discriminate| |].
  - intros [= ->]. left; reflexivity.
  - intros H. right. apply IH, H.
Qed.

Lemma last_opt_split {A} (l : list A) (x : A) :
  last_opt l = Some x -> exists l', l = l' ++ [x].
Proof.
  induction l as [|y [|y' l'] IH]; [discriminate| |].
  - intros [= ->]. exists []. reflexivity.
  - intros H. destruct (IH H) as [l0 E]. exists (y :: l0). rewrite E. reflexivity.
Qed.

Lemma empty_false {A} (l : list A) : empty l = false <-> l <> [].
Proof. destruct l; simpl; split; congruence. Qed.

Lemma empty_true {A} (l : list A) : empty l = true <-> l = [].
Proof. destruct l; simpl; split; congruence. Qed.

(** ** The fetcher *)

Lemma fetch_series_returned fred code s st :
  fred code = Returned s ->
  fetch_series fred code st = (Ok s, logged code st).
Proof.
  intros H. unfold fetch_series, bind, try_except_Exception, get_series.
  rewrite H. reflexivity.
Qed.

Lemma fetch_series_caught fred code e st :
  fred code = Raised e -> is_Exception e = true ->
  fetch_series fred code st = (Ok [], logged code st).
Proof.
  intros H He. unfold fetch_series, bind, try_except_Exception, get_series.
  rewrite H, He. reflexivity.
Qed.

Lemma fetch_series_calls fred code st :
  calls (snd (fetch_series fred code st)) = calls st ++ [code].
Proof.
  unfold fetch_series, bind, try_except_Exception, get_series.
  destruct (fred code) as [s|e]; [reflexivity|].
  destruct (is_Exception e); reflexivity.
Qed.

(** C7: when the provider call raises one of its errors, [fetch_series]
    returns the empty series instead of raising, and the provider has been
    asked exactly once: the request log grows by the one entry [code]. *)
Theorem fetch_series_error_gives_empty :
  forall fred code (e : provider_error) st,
    fred code = Raised (ProviderError e) ->
    fst (fetch_series fred code st) = Ok [] /\
    calls (snd (fetch_series fred code st)) = calls st ++ [code] /\
    signals (snd (fetch_series fred code st)) = signals st.
Proof.
  intros fred code e st H.
  rewrite (fetch_series_caught fred code (ProviderError e) st H eq_refl).
  repeat split.
Qed.

Lemma fetch_series_error_gives_empty_witness :
  fst (fetch_series (fun _ => Raised (ProviderError NetworkError)) "DFII10" initial)
    = Ok [] /\
  calls (snd (fetch_series (fun _ => Raised (ProviderError NetworkError))
                "DFII10" initial))
    = ["DFII10"] /\
  signals (snd (fetch_series (fun _ => Raised (ProviderError NetworkError))
                  "DFII10" initial))
    = [].
Proof.
  apply (fetch_series_error_gives_empty
           (fun _ => Raised (ProviderError NetworkError)) "DFII10" NetworkError initial).
  reflexivity.
Defined.

(** ** Simple extractors *)

Lemma last_opt_zscore (s : Series) :
  last_opt (zscore s)
  = option_map (fun p => (fst p, (snd p - mean s) / std s)) (last_opt s).
Proof. unfold zscore. apply last_opt_map. Qed.

(** Symbolic run of a simple block on a fetch that leaves observations. *)
Lemma simple_extractor_emits fred key id_ desc_ code raw d v st :
  assoc key series = Some code ->
  fetch_series fred code st = (Ok raw, logged code st) ->
  last_opt (dropna raw) = Some (d, v) ->
  simple_extractor fred key id_ desc_ st
  = (Ok (dropna raw),
     emitted {| id := id_; value := v;
                z := (v - mean (dropna raw)) / std (dropna raw);
                desc := desc_ |} (logged code st)).
Proof.
  intros Hk Hf Hl. unfold simple_extractor, series_get. rewrite Hk.
  unfold bind at 1. unfold ret at 1. unfold bind at 1. rewrite Hf.
  destruct (dropna raw) as [|p l] eqn:E; [discriminate|]. simpl negb. cbv iota.
  unfold bind at 1. unfold iloc_last at 1. rewrite Hl. unfold ret at 1.
  unfold bind at 1. unfold iloc_last at 1. rewrite last_opt_zscore, Hl. simpl.
  reflexivity.
Qed.

(** Symbolic run of a simple block on a fetch that leaves nothing. *)
Lemma simple_extractor_skips fred key id_ desc_ code raw st :
  assoc key series = Some code ->
  fetch_series fred code st = (Ok raw, logged code st) ->
  dropna raw = [] ->
  simple_extractor fred key id_ desc_ st = (Ok [], logged code st).
Proof.
  intros Hk Hf Hl. unfold simple_extractor, series_get. rewrite Hk.
  unfold bind at 1. unfold ret at 1. unfold bind at 1. rewrite Hf, Hl.
  reflexivity.
Qed.

Lemma chronological_filter (f : date * float -> bool) (s : Series) :
  chronological s -> chronological (filter f s).
Proof.
  unfold chronological, index. induction s as [|p s IH]; simpl; intros H.
  - constructor.
  - inversion H as [|a l Hs Hall]; subst.
    destruct (f p); [|apply IH, Hs].
    simpl. constructor; [apply IH, Hs|].
    rewrite Forall_forall in *. intros x Hx.
    apply Hall. rewrite in_map_iff in *.
    destruct Hx as [q [Hq Hin]]. exists q. split; [exact Hq|].
    apply filter_In in Hin. apply Hin.
Qed.

Lemma chronological_last (s : Series) d v :
  chronological s -> last_opt s = Some (d, v) ->
  forall d' v', In (d', v') s -> (d' <= d)%Z.
Proof.
  unfold chronological, index. induction s as [|p s IH]; [discriminate|].
  intros H Hl d' v' Hin. inversion H as [|a l Hs Hall]; subst.
  destruct s as [|q s'].
  - injection Hl as ->. destruct Hin as [[= -> ->]|[]]. lia.
  - destruct Hin as [->|Hin].
    + assert (Hd : In (d, v) (q :: s')) by (apply last_opt_In; exact Hl).
      rewrite Forall_forall in Hall.
      specialize (Hall d (in_map fst _ _ Hd)). simpl in Hall. lia.
    + apply (IH Hs Hl d' v' Hin).
Qed.

Lemma simple_blocks_shape fred blk code id_ :
  In (blk, code, id_) (simple_blocks fred) ->
  exists key desc_,
    blk = simple_extractor fred key id_ desc_ /\ assoc key series = Some code.
Proof.
  unfold simple_blocks. intros H.
  repeat (destruct H as [H|H];
          [injection H as <- <- <-; eexists; eexists; split; reflexivity|]).
  destruct H.
Qed.

(** C1: for each of the seven simple blocks, when the fetched series still
    has observations after the missing ones are dropped, the block appends
    one signal whose value is the last observation of the cleaned series
    (the latest one in date when the series is chronological) and whose z is
    [(value - mean) / std], mean and standard deviation being taken over the
    whole cleaned series. *)
Theorem simple_signal_value_and_z :
  forall fred blk code id_ raw st,
    In (blk, code, id_) (simple_blocks fred) ->
    fred code = Returned raw ->
    dropna raw <> [] ->
    exists d v sg,
      last_opt (dropna raw) = Some (d, v) /\
      (chronological raw ->
       forall d' v', In (d', v') (dropna raw) -> (d' <= d)%Z) /\
      blk st = (Ok (dropna raw), emitted sg (logged code st)) /\
      id sg = id_ /\
      value sg = v /\
      z sg = (v - mean (dropna raw)) / std (dropna raw).
Proof.
  intros fred blk code id_ raw st Hin Hf Hne.
  destruct (simple_blocks_shape _ _ _ _ Hin) as [key [desc_ [-> Hk]]].
  destruct (last_opt (dropna raw)) as [[d v]|] eqn:Hl;
    [|apply last_opt_None in Hl; contradiction].
  exists d, v. eexists. split; [reflexivity|]. split; [|split].
  - intros Hc. apply (chronological_last (dropna raw) d v); [|exact Hl].
    apply chronological_filter, Hc.
  - apply simple_extractor_emits with (code := code) (d := d);
      [exact Hk| |exact Hl].
    apply fetch_series_returned, Hf.
  - repeat split.
Qed.

Lemma simple_signal_value_and_z_witness :
  exists d v sg,
    last_opt (dropna [(1%Z, 1.5); (2%Z, PrimFloat.nan); (3%Z, 2.5); (4%Z, 2)])
      = Some (d, v) /\
    (forall d' v',
        In (d', v') (dropna [(1%Z, 1.5); (2%Z, PrimFloat.nan); (3%Z, 2.5); (4%Z, 2)]) ->
        (d' <= d)%Z) /\
    usd_block (fun _ => Returned [(1%Z, 1.5); (2%Z, PrimFloat.nan); (3%Z, 2.5); (4%Z, 2)])
      initial
    = (Ok (dropna [(1%Z, 1.5); (2%Z, PrimFloat.nan); (3%Z, 2.5); (4%Z, 2)]),
       emitted sg (logged "DTWEXBGS" initial)) /\
    id sg = "usd" /\ value sg = v /\ v = 2 /\ z sg = 0.
Proof.
  destruct (simple_signal_value_and_z
              (fun _ => Returned [(1%Z, 1.5); (2%Z, PrimFloat.nan); (3%Z, 2.5); (4%Z, 2)])
              (usd_block
                 (fun _ => Returned [(1%Z, 1.5); (2%Z, PrimFloat.nan); (3%Z, 2.5); (4%Z, 2)]))
              "DTWEXBGS" "usd"
              [(1%Z, 1.5); (2%Z, PrimFloat.nan); (3%Z, 2.5); (4%Z, 2)] initial)
    as [d [v [sg [Hl [Hc [Hb [Hi [Hv Hz]]]]]]]].
  - simpl. right. right. left. reflexivity.
  - reflexivity.
  - vm_compute. discriminate.
  - exists d, v, sg. split; [exact Hl|]. split.
    + apply Hc. unfold chronological. simpl.
      repeat (constructor; [|repeat constructor; lia]). constructor.
    + split; [exact Hb|]. split; [exact Hi|]. split; [exact Hv|].
      vm_compute in Hl. injection Hl as <- <-.
      split; [reflexivity|]. rewrite Hz. vm_compute. reflexivity.
Defined.

(** ** What a run can append *)

Section Appends.

Variable fred : string -> outcome.

Lemma appends_ret {A} (Q : A -> Prop) (a : A) : Q a -> appends fred Q (ret a).
Proof.
  intros H st. split; [|exact H].
  exists []. split; [symmetry; apply app_nil_r|constructor].
Qed.

Lemma appends_raise {A} (Q : A -> Prop) (e : pyexn) : appends fred Q (raise e).
Proof.
  intros st. split; [|exact I].
  exists []. split; [symmetry; apply app_nil_r|constructor].
Qed.

Lemma appends_bind {A B} (Q : A -> Prop) (R : B -> Prop) (m : M A) (k : A -> M B) :
  appends fred Q m ->
  (forall a, Q a -> appends fred R (k a)) ->
  appends fred R (bind m k).
Proof.
  intros Hm Hk st. unfold bind.
  destruct (Hm st) as [[out1 [E1 F1]] HQ].
  destruct (m st) as [[a|e] st'] eqn:E; simpl in *.
  - destruct (Hk a HQ st') as [[out2 [E2 F2]] HR].
    split; [|exact HR].
    exists (out1 ++ out2). split.
    + rewrite E2, E1. symmetry. apply app_assoc.
    + apply Forall_app. split; assumption.
  - split; [|exact I]. exists out1. split; assumption.
Qed.

Lemma appends_weaken {A} (Q R : A -> Prop) (m : M A) :
  appends fred Q m -> (forall a, Q a -> R a) -> appends fred R m.
Proof.
  intros Hm HQR st. destruct (Hm st) as [Ho HQ]. split; [exact Ho|].
  destruct (fst (m st)); [apply HQR, HQ|exact I].
Qed.

Lemma appends_series_get key code :
  assoc key series = Some code ->
  appends fred (fun c => c = code) (series_get key).
Proof.
  intros H. unfold series_get. rewrite H. apply appends_ret. reflexivity.
Qed.

Lemma appends_fetch_series code :
  appends fred (fun s => s = fetched fred code) (fetch_series fred code).
Proof.
  intros st. unfold fetched.
  destruct (fred code) as [s|e] eqn:E.
  - rewrite (fetch_series_returned _ _ _ _ E). simpl. split; [|reflexivity].
    exists []. split; [symmetry; apply app_nil_r|constructor].
  - destruct (is_Exception e) eqn:He.
    + rewrite (fetch_series_caught _ _ _ _ E He). simpl. split; [|reflexivity].
      exists []. split; [symmetry; apply app_nil_r|constructor].
    + unfold fetch_series, bind, try_except_Exception, get_series.
      rewrite E, He. simpl. split; [|exact I].
      exists []. split; [symmetry; apply app_nil_r|constructor].
Qed.

Lemma appends_iloc_last (s : Series) :
  appends fred (fun v => exists d, last_opt s = Some (d, v)) (iloc_last s).
Proof.
  unfold iloc_last. destruct (last_opt s) as [[d v]|].
  - apply appends_ret. exists d. reflexivity.
  - apply appends_raise.
Qed.

Lemma appends_iloc_last_zscore (s : Series) :
  appends fred
    (fun x => forall d v, last_opt s = Some (d, v) -> x = (v - mean s) / std s)
    (iloc_last (zscore s)).
Proof.
  unfold iloc_last. rewrite last_opt_zscore.
  destruct (last_opt s) as [[d v]|]; simpl.
  - apply appends_ret. intros d' v' [= <- <-]. reflexivity.
  - apply appends_raise.
Qed.

Lemma appends_append (sg : Signal) :
  well_founded_signal fred sg -> appends fred (fun _ => True) (append sg).
Proof.
  intros H st. split; [|exact I].
  exists [sg]. split; [reflexivity|]. constructor; [exact H|constructor].
Qed.

(** The tail shared by every block: read the last value and the last
    z-score of the series, append the record. *)
Lemma appends_emit (s : Series) id_ desc_ :
  underlying fred id_ = s ->
  appends fred (fun _ => True)
    (val <- iloc_last s ;;
     z_ <- iloc_last (zscore s) ;;
     append {| id := id_; value := val; z := z_; desc := desc_ |}).
Proof.
  intros Hu.
  eapply appends_bind; [apply appends_iloc_last|]. intros v [d Hd].
  eapply appends_bind; [apply appends_iloc_last_zscore|]. intros x Hx.
  apply appends_append. exists d. simpl. rewrite Hu. split; [exact Hd|].
  apply (Hx d v Hd).
Qed.

Lemma appends_simple_extractor key id_ desc_ code :
  assoc key series = Some code ->
  underlying fred id_ = dropna (fetched fred code) ->
  appends fred (fun s => s = dropna (fetched fred code))
    (simple_extractor fred key id_ desc_).
Proof.
  intros Hk Hu. unfold simple_extractor.
  eapply appends_bind; [apply (appends_series_get _ _ Hk)|]. intros c ->.
  eapply appends_bind; [apply appends_fetch_series|]. intros raw ->.
  destruct (empty (dropna (fetched fred code))); simpl.
  - apply appends_ret. reflexivity.
  - eapply appends_bind; [apply appends_iloc_last|]. intros v [d Hd].
    eapply appends_bind; [apply appends_iloc_last_zscore|]. intros x Hx.
    eapply appends_bind; [|intros _ _; apply appends_ret; reflexivity].
    apply appends_append. exists d. simpl. rewrite Hu. split; [exact Hd|].
    apply (Hx d v Hd).
Qed.

Lemma appends_resample_D_ffill (df : DataFrame) :
  appends fred (fun df' => df' = upsample_D_ffill df) (resample_D_ffill df).
Proof.
  unfold resample_D_ffill. destruct (datetime_index df).
  - apply appends_ret. reflexivity.
  - apply appends_raise.
Qed.

Lemma appends_net_liquidity_block :
  appends fred (fun _ => True) (net_liquidity_block fred).
Proof.
  unfold net_liquidity_block.
  eapply appends_bind; [apply (appends_series_get "walcl" "WALCL" eq_refl)|].
  intros c ->.
  eapply appends_bind; [apply appends_fetch_series|]. intros walcl ->.
  eapply appends_bind; [apply (appends_series_get "rrp" "RRPONTSYD" eq_refl)|].
  intros c ->.
  eapply appends_bind; [apply appends_fetch_series|]. intros rrp ->.
  eapply appends_bind; [apply (appends_series_get "tga" "WTREGEN" eq_refl)|].
  intros c ->.
  eapply appends_bind; [apply appends_fetch_series|]. intros tga ->.
  destruct (empty (fetched fred "WALCL")) eqn:Ew; simpl.
  - apply appends_ret. exact I.
  - eapply appends_bind; [apply appends_resample_D_ffill|]. intros df ->.
    match goal with
    | |- appends _ _ (if negb (empty ?s) then _ else _) =>
        destruct (empty s) eqn:En; simpl
    end.
    + apply appends_ret. exact I.
    + apply appends_emit. unfold underlying. simpl. rewrite Ew. reflexivity.
Qed.

Lemma appends_spx_rsi14_block :
  appends fred (fun _ => True) (spx_rsi14_block fred).
Proof.
  unfold spx_rsi14_block.
  eapply appends_bind; [apply (appends_series_get "spx" "SP500" eq_refl)|].
  intros c ->.
  eapply appends_bind; [apply appends_fetch_series|]. intros raw ->.
  destruct (empty (dropna (fetched fred "SP500"))); simpl.
  - apply appends_ret. exact I.
  - match goal with
    | |- appends _ _ (if negb (empty ?s) then _ else _) =>
        destruct (empty s) eqn:En; simpl
    end.
    + apply appends_ret. exact I.
    + apply appends_emit. reflexivity.
Qed.

Lemma appends_vix_term_block :
  appends fred (fun _ => True)
    (vix_term_block fred (dropna (fetched fred "VIXCLS"))).
Proof.
  unfold vix_term_block.
  eapply appends_bind; [apply (appends_series_get "vix3m" "VXVCLS" eq_refl)|].
  intros c ->.
  eapply appends_bind; [apply appends_fetch_series|]. intros raw ->.
  destruct (empty (dropna (fetched fred "VIXCLS"))) eqn:E1; simpl.
  - apply appends_ret. exact I.
  - destruct (empty (dropna (fetched fred "VXVCLS"))) eqn:E2; simpl.
    + apply appends_ret. exact I.
    + apply appends_emit. unfold underlying. simpl. rewrite E1, E2. reflexivity.
Qed.

Lemma appends_write_signals float_repr :
  appends fred (fun _ => True) (write_signals float_repr).
Proof.
  intros st. split; [|exact I].
  exists []. split; [symmetry; apply app_nil_r|constructor].
Qed.

(** What runs after the real_yield block appends well-founded signals
    only. *)
Lemma appends_after_real_yield float_repr :
  appends fred (fun _ => True) (after_real_yield float_repr fred).
Proof.
  unfold after_real_yield.
  eapply appends_bind;
    [apply (appends_simple_extractor "breakeven" _ _ "T10YIE"); reflexivity|].
  intros _ _.
  eapply appends_bind;
    [apply (appends_simple_extractor "usd" _ _ "DTWEXBGS"); reflexivity|].
  intros _ _.
  eapply appends_bind;
    [apply (appends_simple_extractor "hy_oas" _ _ "BAMLH0A0HYM2"); reflexivity|].
  intros _ _.
  eapply appends_bind;
    [apply (appends_simple_extractor "ig_oas" _ _ "BAMLC0A0CM"); reflexivity|].
  intros _ _.
  eapply appends_bind; [apply appends_net_liquidity_block|]. intros _ _.
  eapply appends_bind;
    [apply (appends_simple_extractor "claims" _ _ "ICSA"); reflexivity|].
  intros _ _.
  eapply appends_bind; [apply appends_spx_rsi14_block|]. intros _ _.
  eapply appends_bind;
    [apply (appends_simple_extractor "vix" _ _ "VIXCLS"); reflexivity|].
  intros vix ->.
  eapply appends_bind; [apply appends_vix_term_block|]. intros _ _.
  apply appends_write_signals.
Qed.

Lemma main_unfold float_repr :
  main float_repr fred
  = (real_yield_block fred ;;; after_real_yield float_repr fred).
Proof. reflexivity. Qed.

(** Every signal a run appends is well-founded, whether the run reaches the
    sink or stops on an exception. *)
Lemma appends_main float_repr :
  appends fred (fun _ => True) (main float_repr fred).
Proof.
  rewrite main_unfold.
  eapply appends_bind;
    [apply (appends_simple_extractor "real_yield" _ _ "DFII10"); reflexivity|].
  intros _ _. apply appends_after_real_yield.
Qed.

End Appends.

(** C9: when the real-yield fetch returns twenty observations of constant
    value 2.0, the real_yield block appends a signal whose value is 2.0 and
    whose z is NaN, the standard deviation of the series being zero; the
    signal is in the list of the run, whatever the other fetches give. *)
Theorem constant_real_yield_signal :
  forall float_repr fred (dates : list date),
    List.length dates = 20%nat ->
    fred "DFII10" = Returned (map (fun d => (d, 2)) dates) ->
    std (map (fun d => (d, 2)) dates) = 0 /\
    exists sg,
      real_yield_block fred initial
      = (Ok (map (fun d => (d, 2)) dates), emitted sg (logged "DFII10" initial)) /\
      id sg = "real_yield" /\
      value sg = 2 /\
      isna (z sg) = true /\
      In sg (signals (snd (main float_repr fred initial))).
Proof.
  intros float_repr fred dates Hlen Hf.
  do 19 (destruct dates as [|? dates]; [discriminate|]).
  destruct dates as [|dlast dates]; [discriminate|].
  destruct dates; [|discriminate]. clear Hlen.
  split; [vm_compute; reflexivity|].
  match type of Hf with
  | _ = Returned ?s =>
      assert (Hb : real_yield_block fred initial
                   = (Ok s, emitted {| id := "real_yield"; value := 2;
                                       z := (2 - mean s) / std s;
                                       desc := "10-year TIPS real yield; rising real yields pressure growth and long-duration assets." |}
                              (logged "DFII10" initial)))
  end.
  { unfold real_yield_block.
    match goal with
    | |- _ = (Ok ?s, _) => change s with (dropna s)
    end.
    apply simple_extractor_emits with (code := "DFII10") (d := dlast);
      [reflexivity| |reflexivity].
    apply fetch_series_returned, Hf. }
  eexists. split; [exact Hb|]. split; [reflexivity|]. split; [reflexivity|].
  split; [vm_compute; reflexivity|].
  rewrite main_unfold. unfold bind at 1. rewrite Hb.
  match goal with
  | |- In _ (signals (snd (?m ?st))) =>
      destruct (appends_after_real_yield fred float_repr st) as [[out [E _]] _];
      rewrite E
  end.
  apply in_or_app. left. simpl. left. reflexivity.
Qed.

Lemma constant_real_yield_signal_witness :
  std (map (fun d => (d, 2)) (map Z.of_nat (seq 0 20))) = 0 /\
  exists sg,
    real_yield_block (fun _ => Returned (map (fun d => (d, 2)) (map Z.of_nat (seq 0 20))))
      initial
    = (Ok (map (fun d => (d, 2)) (map Z.of_nat (seq 0 20))),
       emitted sg (logged "DFII10" initial)) /\
    id sg = "real_yield" /\ value sg = 2 /\ isna (z sg) = true /\
    In sg (signals (snd (main (fun _ => "2.0")
                           (fun _ => Returned (map (fun d => (d, 2)) (map Z.of_nat (seq 0 20))))
                           initial))).
Proof.
  apply (constant_real_yield_signal (fun _ => "2.0")
           (fun _ => Returned (map (fun d => (d, 2)) (map Z.of_nat (seq 0 20))))
           (map Z.of_nat (seq 0 20))); reflexivity.
Defined.


(** ** Emission invariant *)

Lemma dropna_not_nan (s : Series) d v : In (d, v) (dropna s) -> isna v = false.
Proof.
  unfold dropna. intros H. apply filter_In in H. destruct H as [_ H].
  simpl in H. destruct (isna v); [discriminate|reflexivity].
Qed.

Lemma well_founded_signal_nonempty fred sg :
  well_founded_signal fred sg -> underlying fred (id sg) <> [].
Proof.
  intros [d [H _]] E. rewrite E in H. discriminate.
Qed.

(** ** Floating-point facts *)

Lemma SFcompare_refl_not_nan (x : spec_float) :
  x <> S754_nan -> SFcompare x x = Some Eq.
Proof.
  destruct x as [s|s| |s m e]; simpl; intros H; try reflexivity.
  - destruct s; reflexivity.
  - contradiction.
  - rewrite Z.compare_refl, Pos.compare_cont_refl. destruct s; reflexivity.
Qed.

Lemma isna_spec (x : float) : isna x = true <-> Prim2SF x = S754_nan.
Proof.
  unfold isna, PrimFloat.is_nan. rewrite FloatAxioms.eqb_spec. unfold SFeqb. split.
  - intros H. destruct (Prim2SF x) eqn:E; try reflexivity;
      rewrite SFcompare_refl_not_nan in H by discriminate; discriminate.
  - intros ->. reflexivity.
Qed.

Lemma isna_mul_l (x y : float) : isna x = true -> isna (x * y) = true.
Proof.
  rewrite !isna_spec, mul_spec. intros ->. reflexivity.
Qed.

Lemma isna_sub_l (x y : float) : isna x = true -> isna (x - y) = true.
Proof.
  rewrite !isna_spec, sub_spec. intros ->. reflexivity.
Qed.

Lemma isna_sub_r (x y : float) : isna y = true -> isna (x - y) = true.
Proof.
  rewrite !isna_spec, sub_spec. intros ->.
  destruct (Prim2SF x); reflexivity.
Qed.

(** ** Index union and alignment *)

Lemma insert_date_In (d x : date) (l : list date) :
  In x (insert_date d l) <-> x = d \/ In x l.
Proof.
  induction l as [|y l IH]; simpl.
  - intuition.
  - destruct (Z.ltb_spec d y); [simpl; intuition|].
    destruct (Z.eqb_spec d y); [subst; simpl; intuition|].
    simpl. rewrite IH. intuition.
Qed.

Lemma insert_date_sorted (d : date) (l : list date) :
  StronglySorted Z.lt l -> StronglySorted Z.lt (insert_date d l).
Proof.
  induction l as [|y l IH]; simpl; intros H.
  - constructor; constructor.
  - inversion H as [|a b Hs Hall]; subst.
    destruct (Z.ltb_spec d y).
    + constructor; [exact H|]. constructor; [exact H0|].
      rewrite Forall_forall in *. intros x Hx. specialize (Hall x Hx). lia.
    + destruct (Z.eqb_spec d y); [exact H|].
      constructor; [apply IH, Hs|].
      rewrite Forall_forall in *. intros x Hx.
      apply insert_date_In in Hx. destruct Hx as [->|Hx]; [lia|apply Hall, Hx].
Qed.

Lemma union_indexes_In (ixs : list (list date)) (d : date) :
  In d (union_indexes ixs) <-> exists ix, In ix ixs /\ In d ix.
Proof.
  unfold union_indexes. rewrite <- in_concat.
  induction (List.concat ixs) as [|y l IH]; simpl.
  - intuition.
  - rewrite insert_date_In, IH. intuition.
Qed.

Lemma union_indexes_sorted (ixs : list (list date)) :
  StronglySorted Z.lt (union_indexes ixs).
Proof.
  unfold union_indexes. induction (List.concat ixs) as [|y l IH]; simpl.
  - constructor.
  - apply insert_date_sorted, IH.
Qed.

Lemma same_index_eq (a b : list date) : same_index a b = true <-> a = b.
Proof.
  revert b. induction a as [|x a IH]; intros [|y b]; simpl;
    try (split; [discriminate|discriminate]); [split; reflexivity|].
  rewrite andb_true_iff, Z.eqb_eq, IH. split.
  - intros [-> ->]. reflexivity.
  - intros [= -> ->]. split; reflexivity.
Qed.

Lemma frame_index_cases (ix : list date) (rest : list (list date)) :
  (frame_index (ix :: rest) = ix /\ forall ix', In ix' rest -> ix' = ix) \/
  frame_index (ix :: rest) = union_indexes (ix :: rest).
Proof.
  unfold frame_index. destruct (forallb (same_index ix) rest) eqn:E.
  - left. split; [reflexivity|]. intros ix' Hin.
    rewrite forallb_forall in E. symmetry. apply same_index_eq, E, Hin.
  - right. reflexivity.
Qed.

(** The index of a frame has the labels of the indexes of its series. *)
Lemma frame_index_In (ixs : list (list date)) (d : date) :
  In d (frame_index ixs) <-> exists ix, In ix ixs /\ In d ix.
Proof.
  destruct ixs as [|ix rest].
  - simpl. split; [intros []|intros [ix [[] _]]].
  - destruct (frame_index_cases ix rest) as [[E Hall]|E]; rewrite E.
    + split.
      * intros H. exists ix. split; [left; reflexivity|exact H].
      * intros [ix' [[<-|Hin] H]]; [exact H|].
        rewrite (Hall ix' Hin) in H. exact H.
    + apply union_indexes_In.
Qed.

(** It ascends when the index of the first series does. *)
Lemma frame_index_sorted (ix : list date) (rest : list (list date)) :
  StronglySorted Z.lt ix -> StronglySorted Z.lt (frame_index (ix :: rest)).
Proof.
  intros H. destruct (frame_index_cases ix rest) as [[E _]|E]; rewrite E.
  - exact H.
  - apply union_indexes_sorted.
Qed.

Lemma sorted_NoDup (l : list date) : StronglySorted Z.lt l -> NoDup l.
Proof.
  induction 1 as [|a l Hs IH Hall]; constructor; [|exact IH].
  intros Hin. rewrite Forall_forall in Hall. specialize (Hall a Hin). lia.
Qed.

Lemma at_date_absent (d : date) (s : Series) :
  ~ In d (index s) -> at_date d s = PrimFloat.nan.
Proof.
  induction s as [|[d' v] s IH]; simpl; intros H; [reflexivity|].
  destruct (Z.eqb_spec d d'); [subst; exfalso; apply H; left; reflexivity|].
  apply IH. intros Hin. apply H. right. exact Hin.
Qed.

Lemma at_date_present (d : date) (s : Series) :
  In d (index s) -> In (d, at_date d s) s.
Proof.
  induction s as [|[d' v] s IH]; simpl; intros H; [destruct H|].
  destruct (Z.eqb_spec d d'); [subst; left; reflexivity|].
  right. apply IH. destruct H as [H|H]; [congruence|exact H].
Qed.

Lemma at_date_unique (d : date) (v : float) (s : Series) :
  NoDup (index s) -> In (d, v) s -> at_date d s = v.
Proof.
  induction s as [|[d' v'] s IH]; simpl; intros Hn H; [destruct H|].
  inversion Hn as [|a l Hnot Hn']; subst.
  destruct (Z.eqb_spec d d').
  - subst. destruct H as [[= ->]|H]; [reflexivity|].
    exfalso. apply Hnot. apply (in_map fst) in H. exact H.
  - destruct H as [[= -> ->]|H]; [congruence|]. apply IH; assumption.
Qed.

(** On a cleaned series a date has a number exactly when it is in the
    index. *)
Lemma at_date_dropna (d : date) (s : Series) :
  isna (at_date d (dropna s)) = false <-> In d (index (dropna s)).
Proof.
  split.
  - intros H. destruct (in_dec Z.eq_dec d (index (dropna s))) as [Hin|Hout];
      [exact Hin|].
    rewrite (at_date_absent _ _ Hout) in H. discriminate.
  - intros H. apply at_date_present in H. apply dropna_not_nan in H. exact H.
Qed.

(** ** The VIX term spread *)

Lemma filter_map_swap {A B} (f : B -> bool) (g : A -> B) (l : list A) :
  filter f (map g l) = map g (filter (fun x => f (g x)) l).
Proof.
  induction l as [|x l IH]; simpl; [reflexivity|].
  destruct (f (g x)); simpl; rewrite IH; reflexivity.
Qed.

Lemma spread_series_eq (vix vix3m : Series) :
  spread_series vix vix3m
  = map (fun d => (d, at_date d vix - at_date d vix3m)) (joint_dates vix vix3m).
Proof.
  unfold spread_series, sub_cols, dropna_rows, DataFrame_of, joint_dates.
  cbn [rows columns map fst snd].
  rewrite filter_map_swap, map_map. cbn [fst snd forallb column_of String.eqb Ascii.eqb Bool.eqb].
  apply f_equal2; [reflexivity|].
  apply filter_ext. intros d. rewrite andb_true_r. reflexivity.
Qed.

Lemma joint_dates_In (a b : Series) (d : date) :
  In d (joint_dates (dropna a) (dropna b))
  <-> In d (index (dropna a)) /\ In d (index (dropna b)).
Proof.
  unfold joint_dates. rewrite filter_In, andb_true_iff, !negb_true_iff.
  rewrite !at_date_dropna, frame_index_In. split.
  - intros [_ H]. exact H.
  - intros [Ha Hb]. split; [|split; assumption].
    exists (index (dropna a)). split; [left; reflexivity|exact Ha].
Qed.

Lemma joint_dates_sorted (a b : Series) :
  chronological a -> StronglySorted Z.lt (joint_dates a b).
Proof.
  unfold joint_dates, chronological. intros Ha.
  generalize (frame_index_sorted (index a) [index b] Ha).
  generalize (frame_index [index a; index b]).
  intros l. induction 1 as [|x l Hs IH Hall]; simpl; [constructor|].
  destruct (negb (isna (at_date x a)) && negb (isna (at_date x b))); [|exact IH].
  constructor; [exact IH|].
  rewrite Forall_forall in *. intros y Hy. apply Hall.
  apply filter_In in Hy. apply Hy.
Qed.

Lemma index_spread_series (vix vix3m : Series) :
  index (spread_series vix vix3m) = joint_dates vix vix3m.
Proof.
  rewrite spread_series_eq. unfold index. rewrite map_map. simpl.
  apply map_id.
Qed.

(** C5: the spread series has exactly the dates present in both cleaned
    series; at each of them the spread is the VIX value minus the VIX3M
    value, and a date of only one of the two series is not in it. *)
Theorem vix_term_spread_inner_join :
  forall vix_raw vix3m_raw,
    let vix := dropna vix_raw in
    let vix3m := dropna vix3m_raw in
    let spread := spread_series vix vix3m in
    (forall d, In d (index spread) <-> In d (index vix) /\ In d (index vix3m)) /\
    (forall d v, In (d, v) spread -> v = at_date d vix - at_date d vix3m) /\
    (NoDup (index vix) -> NoDup (index vix3m) ->
     forall d x y, In (d, x) vix -> In (d, y) vix3m -> In (d, x - y) spread).
Proof.
  intros vix_raw vix3m_raw vix vix3m spread. subst vix vix3m spread.
  split; [|split].
  - intros d. rewrite index_spread_series. apply joint_dates_In.
  - intros d v. rewrite spread_series_eq, in_map_iff.
    intros [d' [[= <- <-] _]]. reflexivity.
  - intros Hn1 Hn2 d x y Hx Hy. rewrite spread_series_eq, in_map_iff.
    exists d. split.
    + rewrite (at_date_unique _ _ _ Hn1 Hx), (at_date_unique _ _ _ Hn2 Hy).
      reflexivity.
    + apply joint_dates_In. split.
      * apply (in_map fst) in Hx. exact Hx.
      * apply (in_map fst) in Hy. exact Hy.
Qed.

Lemma vix_term_spread_inner_join_witness :
  In (3%Z, 1) (spread_series (dropna [(1%Z, 20); (2%Z, PrimFloat.nan); (3%Z, 22)])
                             (dropna [(1%Z, 18); (2%Z, 19); (3%Z, 21); (4%Z, 21)])).
Proof.
  destruct (vix_term_spread_inner_join
              [(1%Z, 20); (2%Z, PrimFloat.nan); (3%Z, 22)]
              [(1%Z, 18); (2%Z, 19); (3%Z, 21); (4%Z, 21)])
    as [_ [_ H]].
  apply (H ltac:(vm_compute; repeat constructor; simpl; intuition lia)
           ltac:(vm_compute; repeat constructor; simpl; intuition lia)
           3%Z 22 21).
  - vm_compute. right. left. reflexivity.
  - vm_compute. right. right. left. reflexivity.
Defined.

(** With no date in common the join is empty, and the block reads the last
    row of an empty series. *)
Lemma vix_term_block_no_common_date fred vix_raw vix3m_raw st :
  fred "VXVCLS" = Returned vix3m_raw ->
  dropna vix_raw <> [] ->
  dropna vix3m_raw <> [] ->
  (forall d, In d (index (dropna vix_raw)) -> ~ In d (index (dropna vix3m_raw))) ->
  spread_series (dropna vix_raw) (dropna vix3m_raw) = [] /\
  vix_term_block fred (dropna vix_raw) st = (Raise IndexError, logged "VXVCLS" st).
Proof.
  intros Hf H1 H2 Hd.
  assert (Hs : spread_series (dropna vix_raw) (dropna vix3m_raw) = []).
  { rewrite spread_series_eq.
    destruct (joint_dates (dropna vix_raw) (dropna vix3m_raw)) as [|d l] eqn:E;
      [reflexivity|].
    assert (Hin : In d (joint_dates (dropna vix_raw) (dropna vix3m_raw)))
      by (rewrite E; left; reflexivity).
    apply joint_dates_In in Hin. destruct Hin as [Ha Hb].
    exfalso. apply (Hd d Ha Hb). }
  split; [exact Hs|].
  unfold vix_term_block, series_get. simpl assoc. cbv iota.
  unfold bind at 1. unfold ret at 1. unfold bind at 1.
  rewrite (fetch_series_returned _ _ _ _ Hf).
  apply empty_false in H1, H2. rewrite H1, H2. simpl negb. simpl andb. cbv iota.
  fold (spread_series (dropna vix_raw) (dropna vix3m_raw)). rewrite Hs.
  reflexivity.
Qed.

(** C6 fails on the code: with one VIX observation and one VIX3M
    observation on different days the gate passes, the joined spread series
    is empty, the read of its last row raises [IndexError], the run stops
    there and [docs/signals.json] is not written. *)
Theorem vix_term_disjoint_dates_raises :
  negb (empty (dropna (fetched disjoint_vix_provider "VIXCLS")))
  && negb (empty (dropna (fetched disjoint_vix_provider "VXVCLS"))) = true /\
  fst (main (fun _ => "2.0") disjoint_vix_provider initial) = Raise IndexError /\
  docs_signals_json (snd (main (fun _ => "2.0") disjoint_vix_provider initial)) = None.
Proof.
  vm_compute. repeat split.
Qed.

(** ** Net liquidity *)

Lemma col_assign name f df :
  col name (assign name f df) = map (fun r => (fst r, f (snd r))) (rows df).
Proof.
  unfold col, assign. cbn [rows]. rewrite map_map. apply map_ext.
  intros r. cbn [fst snd]. rewrite String.eqb_refl. reflexivity.
Qed.

Lemma net_liquidity_series_eq walcl rrp tga :
  net_liquidity_series walcl rrp tga
  = dropna (map (fun r => (fst r, net_liquidity_of (snd r)))
                (rows (aligned_frame walcl rrp tga))).
Proof. unfold net_liquidity_series. rewrite col_assign. reflexivity. Qed.

Lemma net_liquidity_series_In walcl rrp tga d v :
  In (d, v) (net_liquidity_series walcl rrp tga)
  <-> exists r, In (d, r) (rows (aligned_frame walcl rrp tga)) /\
                v = net_liquidity_of r /\ isna v = false.
Proof.
  rewrite net_liquidity_series_eq. unfold dropna.
  rewrite filter_In, in_map_iff. cbn [snd]. rewrite negb_true_iff. split.
  - intros [[[d' r] [[= <- <-] Hin]] Hv]. exists r. auto.
  - intros [r [Hin [-> Hv]]]. split; [|exact Hv].
    exists (d, r). split; [reflexivity|exact Hin].
Qed.

Lemma asof_In {A} (d : date) (rs : list (date * A)) (r : A) :
  asof d rs = Some r -> exists d0, In (d0, r) rs /\ (d0 <= d)%Z.
Proof.
  unfold asof. destruct (last_opt _) as [[d0 r0]|] eqn:E; [|discriminate].
  intros [= <-]. apply last_opt_In, filter_In in E. destruct E as [Hin Hle].
  exists d0. split; [exact Hin|]. apply Z.leb_le. exact Hle.
Qed.

Lemma insert_row_In {A} (r x : date * A) (rs : list (date * A)) :
  In x (insert_row r rs) <-> x = r \/ In x rs.
Proof.
  induction rs as [|y rs IH]; simpl.
  - intuition.
  - destruct (fst r <=? fst y)%Z; simpl; [intuition|].
    rewrite IH. intuition.
Qed.

(** Sorting keeps the rows. *)
Lemma sort_rows_In {A} (x : date * A) (rs : list (date * A)) :
  In x (sort_rows rs) <-> In x rs.
Proof.
  unfold sort_rows. induction rs as [|y rs IH]; simpl; [reflexivity|].
  rewrite insert_row_In, IH. intuition.
Qed.

Lemma insert_row_sorted {A} (r : date * A) (rs : list (date * A)) :
  StronglySorted Z.le (map fst rs) ->
  StronglySorted Z.le (map fst (insert_row r rs)).
Proof.
  induction rs as [|y rs IH]; simpl; intros H.
  - constructor; constructor.
  - apply StronglySorted_inv in H. destruct H as [Hs Hall].
    destruct (Z.leb_spec (fst r) (fst y)); simpl.
    + constructor; [constructor; assumption|].
      constructor; [assumption|].
      rewrite Forall_forall in *. intros x Hx. specialize (Hall x Hx). lia.
    + constructor; [apply IH, Hs|].
      rewrite Forall_forall in *. intros x Hx. apply in_map_iff in Hx.
      destruct Hx as [q [<- Hq]]. apply insert_row_In in Hq.
      destruct Hq as [->|Hq]; [lia|]. apply Hall, in_map, Hq.
Qed.

(** Sorted rows ascend, rows of one label side by side. *)
Lemma sort_rows_sorted {A} (rs : list (date * A)) :
  StronglySorted Z.le (map fst (sort_rows rs)).
Proof.
  unfold sort_rows. induction rs as [|y rs IH]; simpl; [constructor|].
  apply insert_row_sorted, IH.
Qed.

Lemma reindex_rows_In df d r :
  In (d, r) (rows (reindex_days_ffill df)) -> asof d (rows df) = Some r.
Proof.
  unfold reindex_days_ffill.
  destruct (rows df) as [|[lo r0] rs] eqn:E; [intros []|].
  destruct (last_opt ((lo, r0) :: rs)) as [[hi r1]|]; [|intros []].
  cbn [rows]. rewrite in_flat_map. intros [d' [_ H]].
  destruct (asof d' ((lo, r0) :: rs)) as [r'|] eqn:Ea; [|destruct H].
  destruct H as [[= <- <-]|[]]. exact Ea.
Qed.

Lemma day_range_NoDup lo hi : NoDup (day_range lo hi).
Proof.
  unfold day_range. generalize (Z.to_nat (hi - lo + 1)). intros n.
  generalize (seq_NoDup n 0). generalize (seq 0 n). intros l.
  induction 1 as [|k l Hk Hn IH]; simpl; constructor; [|exact IH].
  rewrite in_map_iff. intros [k' [E Hin]].
  assert (k' = k) by lia. subst. contradiction.
Qed.

Lemma upsample_rows_In df d r :
  In (d, r) (rows (upsample_D_ffill df)) ->
  asof d (sort_rows (rows df)) = Some r.
Proof. unfold upsample_D_ffill. apply reindex_rows_In. Qed.

Lemma reindex_index_NoDup df : NoDup (map fst (rows (reindex_days_ffill df))).
Proof.
  unfold reindex_days_ffill.
  destruct (rows df) as [|[lo r0] rs] eqn:E; [constructor|].
  destruct (last_opt ((lo, r0) :: rs)) as [[hi r1]|]; [|constructor].
  cbn [rows]. generalize (day_range_NoDup lo hi).
  generalize (day_range lo hi). intros l.
  induction 1 as [|d l Hd Hn IH]; simpl; [constructor|].
  destruct (asof d ((lo, r0) :: rs)); simpl; [|exact IH].
  constructor; [|exact IH].
  rewrite in_map_iff. intros [[d' r'] [Hd' Hin]]. simpl in Hd'. subst d'.
  apply in_flat_map in Hin. destruct Hin as [d'' [Hin H]].
  destruct (asof d'' ((lo, r0) :: rs)); [|destruct H].
  destruct H as [[= -> _]|[]]. contradiction.
Qed.

Lemma upsample_index_NoDup df : NoDup (map fst (rows (upsample_D_ffill df))).
Proof. unfold upsample_D_ffill. apply reindex_index_NoDup. Qed.

(** The cell of a column at the date of a row, dates being unique. *)
Lemma at_date_col name df d r :
  NoDup (map fst (rows df)) -> In (d, r) (rows df) ->
  at_date d (col name df) = r name.
Proof.
  intros Hn Hin. apply at_date_unique.
  - unfold index, col. rewrite map_map. exact Hn.
  - unfold col. apply in_map_iff. exists (d, r). split; [reflexivity|exact Hin].
Qed.

Lemma index_col name df : index (col name df) = map fst (rows df).
Proof. unfold index, col. rewrite map_map. reflexivity. Qed.

Lemma isna_net_liquidity_of (r : string -> float) :
  isna (r "walcl") = true \/ isna (r "rrp") = true \/ isna (r "tga") = true ->
  isna (net_liquidity_of r) = true.
Proof.
  unfold net_liquidity_of. intros [H|[H|H]].
  - apply isna_sub_l, isna_sub_l, isna_mul_l, H.
  - apply isna_sub_l, isna_sub_r, isna_mul_l, H.
  - apply isna_sub_r, isna_mul_l, H.
Qed.

(** C4: on the frame aligned on the daily calendar, every date kept in the
    combined series carries [walcl * 1e6 - rrp * 1e9 - tga * 1e9] computed
    from the three aligned columns at that date, and a calendar date on
    which one of the three aligned columns is still missing is not in the
    combined series. *)
Theorem net_liquidity_formula_and_exclusion :
  forall walcl rrp tga,
    let df := aligned_frame walcl rrp tga in
    let nl := net_liquidity_series walcl rrp tga in
    let W := fun d => at_date d (col "walcl" df) in
    let R := fun d => at_date d (col "rrp" df) in
    let T := fun d => at_date d (col "tga" df) in
    (forall d v, In (d, v) nl -> v = W d * 1e6 - R d * 1e9 - T d * 1e9) /\
    (forall d, In d (index nl) -> In d (index (col "walcl" df))) /\
    (forall d, In d (index (col "walcl" df)) ->
               isna (W d) = true \/ isna (R d) = true \/ isna (T d) = true ->
               ~ In d (index nl)).
Proof.
  intros walcl rrp tga df nl W R T. subst nl W R T.
  pose proof (upsample_index_NoDup
                (DataFrame_of [("walcl", walcl); ("rrp", rrp); ("tga", tga)])) as Hn.
  fold (aligned_frame walcl rrp tga) in Hn. fold df in Hn.
  assert (Hcell : forall d v, In (d, v) (net_liquidity_series walcl rrp tga) ->
            In d (map fst (rows df)) /\
            isna v = false /\
            v = at_date d (col "walcl" df) * 1e6 - at_date d (col "rrp" df) * 1e9
                - at_date d (col "tga" df) * 1e9).
  { intros d v H. apply net_liquidity_series_In in H.
    destruct H as [r [Hin [Hv Hnn]]]. fold df in Hin.
    rewrite !(at_date_col _ _ _ _ Hn Hin). split; [|split; assumption].
    apply (in_map fst) in Hin. exact Hin. }
  split; [|split].
  - intros d v H. apply Hcell, H.
  - intros d H. unfold index in H. apply in_map_iff in H.
    destruct H as [[d' v] [E H]]. simpl in E. subst d'.
    rewrite index_col. apply (Hcell d v H).
  - intros d _ Hna H. unfold index in H. apply in_map_iff in H.
    destruct H as [[d' v] [E H]]. simpl in E. subst d'.
    destruct (Hcell d v H) as [_ [Hnn Hv]].
    assert (Hc : isna v = true).
    { rewrite Hv. destruct Hna as [Hna|[Hna|Hna]].
      - apply isna_sub_l, isna_sub_l, isna_mul_l, Hna.
      - apply isna_sub_l, isna_sub_r, isna_mul_l, Hna.
      - apply isna_sub_r, isna_mul_l, Hna. }
    congruence.
Qed.

Lemma net_liquidity_formula_and_exclusion_witness :
  In (8%Z, 5900000000000)
     (net_liquidity_series [(1%Z, 7000000); (8%Z, 7100000)]
                           [(1%Z, 500); (2%Z, 510); (8%Z, 490)]
                           [(1%Z, 700); (8%Z, 710)]) /\
  ~ In 2%Z (index (net_liquidity_series [(1%Z, 7000000); (8%Z, 7100000)]
                                        [(1%Z, 500); (2%Z, 510); (8%Z, 490)]
                                        [(1%Z, 700); (8%Z, 710)])).
Proof.
  destruct (net_liquidity_formula_and_exclusion
              [(1%Z, 7000000); (8%Z, 7100000)]
              [(1%Z, 500); (2%Z, 510); (8%Z, 490)]
              [(1%Z, 700); (8%Z, 710)]) as [_ [_ H]].
  split.
  - vm_compute. right. left. reflexivity.
  - apply H.
    + vm_compute. right. left. reflexivity.
    + left. vm_compute. reflexivity.
Defined.

Lemma DataFrame_of_rows_In cols d r :
  In (d, r) (rows (DataFrame_of cols)) ->
  r = fun name => at_date d (column_of name cols).
Proof.
  unfold DataFrame_of. cbn [rows]. rewrite in_map_iff.
  intros [d' [[= <- <-] _]]. reflexivity.
Qed.

(** Every row of the aligned frame is a row of the frame built from the
    three series. *)
Lemma aligned_frame_rows_In walcl rrp tga d r :
  In (d, r) (rows (aligned_frame walcl rrp tga)) ->
  exists d0,
    r = fun name =>
          at_date d0 (column_of name [("walcl", walcl); ("rrp", rrp); ("tga", tga)]).
Proof.
  unfold aligned_frame. intros H. apply upsample_rows_In, asof_In in H.
  destruct H as [d0 [H _]]. exists d0.
  apply (proj1 (sort_rows_In _ _)) in H. apply DataFrame_of_rows_In, H.
Qed.

Lemma dropna_all_nan (s : Series) :
  (forall d v, In (d, v) s -> isna v = true) -> dropna s = [].
Proof.
  induction s as [|[d v] s IH]; simpl; intros H; [reflexivity|].
  rewrite (H d v (or_introl eq_refl)). simpl. apply IH.
  intros d' v' Hin. apply (H d' v'). right. exact Hin.
Qed.

Lemma net_liquidity_series_missing_input walcl rrp tga :
  rrp = [] \/ tga = [] -> net_liquidity_series walcl rrp tga = [].
Proof.
  intros He. rewrite net_liquidity_series_eq. apply dropna_all_nan.
  intros d v H. apply in_map_iff in H. destruct H as [[d' r] [[= <- <-] Hin]].
  apply aligned_frame_rows_In in Hin. destruct Hin as [d0 ->].
  apply isna_net_liquidity_of. destruct He as [-> | ->].
  - right. left. reflexivity.
  - right. right. reflexivity.
Qed.

Lemma fetch_series_cases fred code st :
  fetch_series fred code st = (Ok (fetched fred code), logged code st) \/
  exists e, fetch_series fred code st = (Raise e, logged code st).
Proof.
  unfold fetched. destruct (fred code) as [s|e] eqn:E.
  - left. apply fetch_series_returned, E.
  - destruct (is_Exception e) eqn:He.
    + left. apply fetch_series_caught with (e := e); assumption.
    + right. exists e. unfold fetch_series, bind, try_except_Exception, get_series.
      rewrite E, He. reflexivity.
Qed.

(** The net_liquidity block leaves the signal list as it is when the gate is
    closed or the combined series is empty. *)
Lemma net_liquidity_block_silent fred st :
  empty (fetched fred "WALCL") = true \/
  net_liquidity_series (fetched fred "WALCL") (fetched fred "RRPONTSYD")
                       (fetched fred "WTREGEN") = [] ->
  signals (snd (net_liquidity_block fred st)) = signals st.
Proof.
  intros H. unfold net_liquidity_block, series_get. simpl assoc. cbv iota.
  unfold bind at 1. unfold ret at 1. unfold bind at 1.
  destruct (fetch_series_cases fred "WALCL" st) as [E|[e E]]; rewrite E;
    [|reflexivity].
  unfold bind at 1. unfold ret at 1. unfold bind at 1.
  destruct (fetch_series_cases fred "RRPONTSYD" (logged "WALCL" st)) as [E2|[e E2]];
    rewrite E2; [|reflexivity].
  unfold bind at 1. unfold ret at 1. unfold bind at 1.
  destruct (fetch_series_cases fred "WTREGEN"
              (logged "RRPONTSYD" (logged "WALCL" st))) as [E3|[e E3]];
    rewrite E3; [|reflexivity].
  destruct (empty (fetched fred "WALCL")) eqn:Ew; [reflexivity|].
  destruct H as [H|H]; [discriminate|].
  cbn [negb]. cbv zeta. unfold resample_D_ffill.
  destruct (datetime_index _); [|reflexivity].
  unfold bind at 1. unfold ret at 1.
  fold (aligned_frame (fetched fred "WALCL") (fetched fred "RRPONTSYD")
          (fetched fred "WTREGEN")).
  fold (net_liquidity_series (fetched fred "WALCL") (fetched fred "RRPONTSYD")
          (fetched fred "WTREGEN")).
  rewrite H. reflexivity.
Qed.

(** The frame of the block has a [DatetimeIndex] exactly when none of the
    three series is empty. *)
Lemma datetime_index_frame (walcl rrp tga : Series) :
  datetime_index (DataFrame_of [("walcl", walcl); ("rrp", rrp); ("tga", tga)])
  = negb (empty walcl) && negb (empty rrp) && negb (empty tga).
Proof.
  unfold DataFrame_of, has_datetime_index. cbn [datetime_index forallb snd].
  rewrite andb_true_r, andb_assoc. reflexivity.
Qed.

(** When the balance-sheet series has observations and the reverse-repo or
    the treasury-cash series has none, the frame of the three series has no
    [DatetimeIndex], [resample] raises [TypeError], and the block stops
    there, after its three requests and without a signal. *)
Lemma net_liquidity_block_empty_input fred st :
  (forall code e, fred code = Raised e -> is_Exception e = true) ->
  fetched fred "WALCL" <> [] ->
  fetched fred "RRPONTSYD" = [] \/ fetched fred "WTREGEN" = [] ->
  net_liquidity_block fred st
  = (Raise TypeError,
     logged "WTREGEN" (logged "RRPONTSYD" (logged "WALCL" st))).
Proof.
  intros Hx Hw He.
  assert (Hf : forall code st',
             fetch_series fred code st' = (Ok (fetched fred code), logged code st')).
  { intros code st'.
    destruct (fetch_series_cases fred code st') as [E|[e E]]; [exact E|].
    exfalso. unfold fetch_series, bind, try_except_Exception, get_series in E.
    destruct (fred code) as [s|e'] eqn:F; [discriminate|].
    rewrite (Hx code e' F) in E. discriminate. }
  unfold net_liquidity_block, series_get. simpl assoc. cbv iota.
  unfold bind at 1. unfold ret at 1. unfold bind at 1. rewrite Hf.
  unfold bind at 1. unfold ret at 1. unfold bind at 1. rewrite Hf.
  unfold bind at 1. unfold ret at 1. unfold bind at 1. rewrite Hf.
  apply empty_false in Hw. rewrite Hw. cbn [negb]. cbv zeta.
  unfold resample_D_ffill. rewrite datetime_index_frame, Hw.
  assert (Hb : negb (empty (fetched fred "RRPONTSYD"))
               && negb (empty (fetched fred "WTREGEN")) = false).
  { destruct He as [-> | ->]; [reflexivity|apply andb_false_r]. }
  cbn [negb andb]. rewrite Hb. reflexivity.
Qed.

(** C10 fails on the code: with a balance-sheet series and a treasury-cash
    series fetched and the reverse-repo fetch failing, the placeholder
    series has no date index, the frame of the three series has no
    [DatetimeIndex] and [resample] raises [TypeError] at line 99.  The block
    does not get to an all-missing column and a silent skip: the run stops
    there and [docs/signals.json] is not written. *)
Theorem net_liquidity_empty_input_raises :
  empty (fetched no_rrp_provider "WALCL") = false /\
  fetched no_rrp_provider "RRPONTSYD" = [] /\
  net_liquidity_block no_rrp_provider initial
  = (Raise TypeError,
     logged "WTREGEN" (logged "RRPONTSYD" (logged "WALCL" initial))) /\
  fst (main (fun _ => "2.0") no_rrp_provider initial) = Raise TypeError /\
  calls (snd (main (fun _ => "2.0") no_rrp_provider initial))
  = ["DFII10"; "T10YIE"; "DTWEXBGS"; "BAMLH0A0HYM2"; "BAMLC0A0CM";
     "WALCL"; "RRPONTSYD"; "WTREGEN"] /\
  docs_signals_json (snd (main (fun _ => "2.0") no_rrp_provider initial)) = None.
Proof.
  split; [reflexivity|]. split; [reflexivity|]. split.
  - apply net_liquidity_block_empty_input.
    + intros code e. unfold no_rrp_provider.
      destruct (String.eqb code "WALCL"); [discriminate|].
      destruct (String.eqb code "WTREGEN"); [discriminate|].
      intros [= <-]. reflexivity.
    + discriminate.
    + left. reflexivity.
  - vm_compute. repeat split.
Qed.

(** ** JSON text round trip *)

Lemma sapp_assoc (a b c : string) : ((a ++ b) ++ c = a ++ (b ++ c))%string.
Proof. induction a as [|x a IH]; simpl; [reflexivity|]. rewrite IH. reflexivity. Qed.

Lemma slength_app (a b : string) :
  String.length (a ++ b)%string = (String.length a + String.length b)%nat.
Proof. induction a as [|x a IH]; simpl; [reflexivity|]. rewrite IH. reflexivity. Qed.

Lemma skip_ws_spaces (n : nat) (s : string) :
  skip_ws (spaces n ++ s)%string = skip_ws s.
Proof. induction n as [|n IH]; [reflexivity|exact IH]. Qed.

Lemma skip_ws_newline_indent (level : nat) (s : string) :
  skip_ws (newline_indent level ++ s)%string = skip_ws s.
Proof. unfold newline_indent. simpl. apply skip_ws_spaces. Qed.

(** One character of a string literal: whatever [escape_char] writes for
    [c], [scanstring] reads [c] back. *)
Lemma scanstring_escape_char (c : ascii) (f : nat) (r : string) :
  scanstring (S f) (escape_char c ++ r)%string
  = match scanstring f r with
    | Some (t, r') => Some (String c t, r')
    | None => None
    end.
Proof.
  destruct c as [[] [] [] [] [] [] [] []]; reflexivity.
Qed.

Lemma escape_char_length (c : ascii) : (1 <= String.length (escape_char c))%nat.
Proof.
  destruct c as [[] [] [] [] [] [] [] []]; simpl; lia.
Qed.

Lemma scanstring_escape (s : string) :
  forall (f : nat) (rest : string),
    (String.length (escape s) < f)%nat ->
    scanstring f (escape s ++ String DQ rest)%string = Some (s, rest).
Proof.
  induction s as [|c s IH]; intros f rest Hf.
  - destruct f; [simpl in Hf; lia|]. reflexivity.
  - destruct f; [lia|]. simpl escape. rewrite sapp_assoc, scanstring_escape_char.
    simpl escape in Hf. rewrite slength_app in Hf.
    pose proof (escape_char_length c).
    rewrite IH by lia. reflexivity.
Qed.

Lemma scan_once_number (f : nat) (s literal r : string) :
  match_number s = Some (literal, r) ->
  scan_once (S f) s = Some (JNum literal, r).
Proof.
  destruct s as [|c t]; [discriminate|]. intros H.
  destruct c as [[] [] [] [] [] [] [] []];
    try (exfalso; clear - H; cbv in H; discriminate).
  all: cbn - [match_number]; rewrite H; reflexivity.
Qed.

Lemma skip_ws_number (s literal r : string) :
  match_number s = Some (literal, r) -> skip_ws s = s.
Proof.
  destruct s as [|c t]; [discriminate|]. intros H.
  destruct c as [[] [] [] [] [] [] [] []];
    try (exfalso; clear - H; cbv in H; discriminate); reflexivity.
Qed.

Lemma skip_ws_DQ (r : string) : skip_ws (String DQ r) = String DQ r.
Proof. reflexivity. Qed.

Lemma scan_once_DQ (f : nat) (r : string) :
  scan_once (S f) (String DQ r)
  = match scanstring f r with
    | Some (t, r') => Some (JStr t, r')
    | None => None
    end.
Proof. reflexivity. Qed.

Lemma encode_basestring_ascii_nf (s r : string) :
  (encode_basestring_ascii s ++ r)%string
  = String DQ (escape s ++ String DQ r)%string.
Proof.
  unfold encode_basestring_ascii. simpl. rewrite sapp_assoc. reflexivity.
Qed.

Lemma scan_once_string (f : nat) (s r : string) :
  (String.length (escape s) < f)%nat ->
  scan_once (S f) (skip_ws (encode_basestring_ascii s ++ r)%string)
  = Some (JStr s, r).
Proof.
  intros Hf.
  rewrite encode_basestring_ascii_nf, skip_ws_DQ, scan_once_DQ.
  rewrite scanstring_escape by exact Hf. reflexivity.
Qed.

Lemma member_text_nf (k vt more : string) :
  member_text k vt more
  = String DQ (escape k ++ String DQ (String ":" (String " " (vt ++ more))))%string.
Proof.
  unfold member_text. rewrite encode_basestring_ascii_nf. reflexivity.
Qed.

Lemma scan_members_DQ (f : nat) (acc : list (string * json)) (k r rest : string) :
  scanstring f r = Some (k, String ":" (String " " rest)) ->
  scan_members (S f) acc (String DQ r)
  = match scan_once f (skip_ws rest) with
    | Some (v, r3) =>
        match skip_ws r3 with
        | String "}" r4 => Some (JDict (dict_set k v acc), r4)
        | String "," r4 => scan_members f (dict_set k v acc) (skip_ws r4)
        | _ => None
        end
    | None => None
    end.
Proof.
  intros H. cbn [scan_members]. change (Ascii.eqb DQ DQ) with true. cbv iota.
  rewrite H. reflexivity.
Qed.

(** A member followed by a comma and the next line. *)
Lemma scan_members_step (f : nat) (acc : list (string * json))
    (k vt more : string) (v : json) :
  (String.length (escape k) < f)%nat ->
  scan_once f (skip_ws (vt ++ String "," (newline_indent 2 ++ more))%string)
    = Some (v, String "," (newline_indent 2 ++ more)%string) ->
  skip_ws more = more ->
  scan_members (S f) acc
    (member_text k vt (String "," (newline_indent 2 ++ more)))%string
  = scan_members f (dict_set k v acc) more.
Proof.
  intros Hf Hv Hm. rewrite member_text_nf.
  rewrite (scan_members_DQ f acc k _ _ (scanstring_escape k f _ Hf)).
  rewrite Hv.
  replace (skip_ws (String "," (newline_indent 2 ++ more)%string))
    with (String "," (newline_indent 2 ++ more)%string) by reflexivity.
  rewrite skip_ws_newline_indent, Hm. reflexivity.
Qed.

(** The last member, followed by the closing line. *)
Lemma scan_members_last (f : nat) (acc : list (string * json))
    (k vt rest : string) (v : json) :
  (String.length (escape k) < f)%nat ->
  scan_once f (skip_ws (vt ++ newline_indent 1 ++ String "}" rest)%string)
    = Some (v, (newline_indent 1 ++ String "}" rest)%string) ->
  scan_members (S f) acc
    (member_text k vt (newline_indent 1 ++ String "}" rest))%string
  = Some (JDict (dict_set k v acc), rest).
Proof.
  intros Hf Hv. rewrite member_text_nf.
  rewrite (scan_members_DQ f acc k _ _ (scanstring_escape k f _ Hf)).
  rewrite Hv, skip_ws_newline_indent. reflexivity.
Qed.

Lemma scan_once_object (f : nat) (r r' : string) :
  skip_ws r = String DQ r' ->
  scan_once (S f) (String "{" r) = scan_members f [] (String DQ r').
Proof.
  intros H. cbn [scan_once].
  change (Ascii.eqb "{" DQ) with false. change (Ascii.eqb "{" "{") with true.
  cbv iota. rewrite H. reflexivity.
Qed.

Lemma skip_ws_bracket (r : string) : skip_ws (String "[" r) = String "[" r.
Proof. reflexivity. Qed.

Lemma scan_once_list (f : nat) (r r' : string) :
  skip_ws r = String "{" r' ->
  scan_once (S f) (String "[" r) = scan_items f [] (String "{" r').
Proof.
  intros H. cbn [scan_once].
  change (Ascii.eqb "[" DQ) with false. change (Ascii.eqb "[" "{") with false.
  change (Ascii.eqb "[" "[") with true.
  cbv iota. rewrite H. reflexivity.
Qed.

(** An item followed by a comma and the next line. *)
Lemma scan_items_step (f : nat) (acc : list json) (ot more : string) (v : json) :
  scan_once f (ot ++ String "," (newline_indent 1 ++ more))%string
    = Some (v, String "," (newline_indent 1 ++ more)%string) ->
  skip_ws more = more ->
  scan_items (S f) acc (ot ++ String "," (newline_indent 1 ++ more))%string
  = scan_items f (acc ++ [v]) more.
Proof.
  intros Hv Hm. cbn [scan_items]. rewrite Hv.
  replace (skip_ws (String "," (newline_indent 1 ++ more)%string))
    with (String "," (newline_indent 1 ++ more)%string) by reflexivity.
  rewrite skip_ws_newline_indent, Hm. reflexivity.
Qed.

(** The last item, followed by the closing line. *)
Lemma scan_items_last (f : nat) (acc : list json) (ot rest : string) (v : json) :
  scan_once f (ot ++ newline_indent 0 ++ String "]" rest)%string
    = Some (v, (newline_indent 0 ++ String "]" rest)%string) ->
  scan_items (S f) acc (ot ++ newline_indent 0 ++ String "]" rest)%string
  = Some (JList (acc ++ [v]), rest).
Proof.
  intros Hv. cbn [scan_items]. rewrite Hv. reflexivity.
Qed.

Lemma encode_items_eq (level : nat) (l : list json) :
  (fix items (l : list json) : string :=
     match l with
     | [] => ""
     | y :: l' => ("," ++ newline_indent (S level) ++ encode (S level) y
                    ++ items l')%string
     end) l
  = encode_items level l.
Proof.
  induction l as [|y l IH]; [reflexivity|].
  cbn [encode_items]. rewrite <- IH. reflexivity.
Qed.

Lemma encode_list_cons (level : nat) (x : json) (l : list json) :
  encode level (JList (x :: l))
  = ("[" ++ newline_indent (S level) ++ encode (S level) x
      ++ encode_items level l ++ newline_indent level ++ "]")%string.
Proof.
  rewrite <- encode_items_eq. reflexivity.
Qed.

Section Round_trip.

Variable float_repr : float -> string.

Hypothesis float_repr_literal :
  forall o, finite_number o -> number_literal (float_repr o).

Lemma floatstr_match_number (x : float) (rest : string) :
  (match_number (floatstr float_repr x ++ String "," rest)%string
   = Some (floatstr float_repr x, String "," rest)) \/
  (floatstr float_repr x = "NaN" \/ floatstr float_repr x = "Infinity"
   \/ floatstr float_repr x = "-Infinity").
Proof.
  unfold floatstr.
  destruct (x =? x)%float eqn:E1; simpl; [|right; left; reflexivity].
  destruct (x =? PrimFloat.infinity)%float eqn:E2; [right; right; left; reflexivity|].
  destruct (x =? PrimFloat.neg_infinity)%float eqn:E3; [right; right; right; reflexivity|].
  left. apply float_repr_literal. repeat split; assumption.
Qed.

Lemma scan_once_floatstr (f : nat) (x : float) (rest : string) :
  scan_once (S f) (skip_ws (floatstr float_repr x ++ String "," rest)%string)
  = Some (JNum (floatstr float_repr x), String "," rest).
Proof.
  destruct (floatstr_match_number x rest) as [H|[H|[H|H]]].
  - rewrite (skip_ws_number _ _ _ H). apply scan_once_number, H.
  - rewrite H. reflexivity.
  - rewrite H. reflexivity.
  - rewrite H. reflexivity.
Qed.

Lemma encode_signal_json_nf (sg : Signal) (rest : string) :
  (encode 1 (signal_json float_repr sg) ++ rest)%string
  = String "{" (newline_indent 2 ++
      member_text "id" (encode_basestring_ascii (id sg))
        (String "," (newline_indent 2 ++
      member_text "value" (floatstr float_repr (value sg))
        (String "," (newline_indent 2 ++
      member_text "z" (floatstr float_repr (z sg))
        (String "," (newline_indent 2 ++
      member_text "desc" (encode_basestring_ascii (desc sg))
        (newline_indent 1 ++ String "}" rest))))))))%string.
Proof.
  unfold signal_json, member_text. simpl.
  repeat (progress (repeat rewrite sapp_assoc; simpl)). reflexivity.
Qed.

Lemma encode_signal_json_length (sg : Signal) :
  (50 + String.length (escape (id sg)) + String.length (escape (desc sg))
   <= String.length (encode 1 (signal_json float_repr sg)))%nat.
Proof.
  unfold signal_json. simpl. repeat (rewrite slength_app; simpl). lia.
Qed.

Lemma skip_ws_member_text (k vt more : string) :
  skip_ws (member_text k vt more) = member_text k vt more.
Proof. rewrite member_text_nf. reflexivity. Qed.

Lemma scan_once_signal_json (sg : Signal) (f : nat) (rest : string) :
  (String.length (encode 1 (signal_json float_repr sg)) <= f)%nat ->
  scan_once f (encode 1 (signal_json float_repr sg) ++ rest)%string
  = Some (signal_json float_repr sg, rest).
Proof.
  intros Hf. pose proof (encode_signal_json_length sg) as Hl.
  do 7 (destruct f as [|f]; [lia|]).
  rewrite encode_signal_json_nf.
  erewrite scan_once_object
    by (rewrite skip_ws_newline_indent, member_text_nf; apply skip_ws_DQ).
  rewrite <- member_text_nf.
  rewrite scan_members_step with (v := JStr (id sg));
    [|simpl; lia|apply scan_once_string; lia|apply skip_ws_member_text].
  rewrite scan_members_step with (v := JNum (floatstr float_repr (value sg)));
    [|simpl; lia|apply scan_once_floatstr|apply skip_ws_member_text].
  rewrite scan_members_step with (v := JNum (floatstr float_repr (z sg)));
    [|simpl; lia|apply scan_once_floatstr|apply skip_ws_member_text].
  rewrite scan_members_last with (v := JStr (desc sg));
    [reflexivity|simpl; lia|].
  apply scan_once_string. lia.
Qed.

Lemma skip_ws_encode_signal_json (sg : Signal) (rest : string) :
  skip_ws (encode 1 (signal_json float_repr sg) ++ rest)%string
  = (encode 1 (signal_json float_repr sg) ++ rest)%string.
Proof. rewrite encode_signal_json_nf. reflexivity. Qed.

Lemma scan_items_signals (sigs : list Signal) :
  forall (sg : Signal) (acc : list json) (f : nat) (rest : string),
    (String.length (encode 1 (signal_json float_repr sg)
                    ++ encode_items 0 (map (signal_json float_repr) sigs))%string
     < f)%nat ->
    scan_items f acc
      (encode 1 (signal_json float_repr sg)
       ++ encode_items 0 (map (signal_json float_repr) sigs)
       ++ newline_indent 0 ++ String "]" rest)%string
    = Some (JList (acc ++ signal_json float_repr sg
                         :: map (signal_json float_repr) sigs), rest).
Proof.
  induction sigs as [|sg' sigs IH]; intros sg acc f rest Hf;
    (destruct f as [|f]; [lia|]); rewrite slength_app in Hf.
  - cbn [map encode_items String.append].
    apply scan_items_last with (v := signal_json float_repr sg).
    apply scan_once_signal_json. lia.
  - cbn [map encode_items] in *.
    change ("," ++ ?x)%string with (String "," x) in *.
    cbn [String.append]. rewrite !sapp_assoc.
    rewrite scan_items_step with (v := signal_json float_repr sg).
    + rewrite IH.
      * rewrite <- app_assoc. reflexivity.
      * cbn [String.length] in Hf. rewrite !slength_app in *. lia.
    + apply scan_once_signal_json. lia.
    + apply skip_ws_encode_signal_json.
Qed.

(** Reading back the text written for a signal list gives the list of the
    signals' JSON objects. *)
Lemma loads_json_dump (sigs : list Signal) :
  loads (json_dump float_repr sigs)
  = Some (JList (map (signal_json float_repr) sigs)).
Proof.
  unfold json_dump, loads. destruct sigs as [|sg sigs]; [reflexivity|].
  cbn [map]. rewrite encode_list_cons.
  change ("[" ++ ?x)%string with (String "[" x).
  rewrite skip_ws_bracket.
  cbn [String.length].
  erewrite scan_once_list
    by (rewrite skip_ws_newline_indent, encode_signal_json_nf; reflexivity).
  rewrite <- encode_signal_json_nf.
  change (newline_indent 0 ++ "]")%string with (newline_indent 0 ++ String "]" "")%string.
  rewrite scan_items_signals; [reflexivity|].
  rewrite !slength_app. simpl. lia.
Qed.

End Round_trip.

Lemma ids_of_signal_json float_repr (sigs : list Signal) :
  ids_of (JList (map (signal_json float_repr) sigs)) = Some (map id sigs).
Proof.
  unfold ids_of. induction sigs as [|sg sigs IH]; [reflexivity|].
  cbn [map fold_right]. rewrite IH. reflexivity.
Qed.

Lemma bind_Ok {A B} (m : M A) (k : A -> M B) st b st' :
  bind m k st = (Ok b, st') ->
  exists a st1, m st = (Ok a, st1) /\ k a st1 = (Ok b, st').
Proof.
  unfold bind. destruct (m st) as [[a|e] st1]; [|discriminate].
  intros H. exists a, st1. split; [reflexivity|exact H].
Qed.

(** A run that reaches the sink leaves in the file the text of its signal
    list. *)
Lemma main_writes_signals float_repr fred st' :
  main float_repr fred initial = (Ok tt, st') ->
  docs_signals_json st' = Some (json_dump float_repr (signals st')).
Proof.
  unfold main. intros H.
  repeat (apply bind_Ok in H; destruct H as [? [? [_ H]]]).
  unfold write_signals in H. injection H as <-. reflexivity.
Qed.

(** C8: the text written for a signal list reads back as a list of the same
    length whose records carry the same ids in the same order; this holds
    for the file left by every run that reaches the sink. *)
Theorem json_round_trip_ids :
  forall float_repr,
    (forall o, finite_number o -> number_literal (float_repr o)) ->
    (forall sigs,
        exists parsed,
          loads (json_dump float_repr sigs) = Some (JList parsed) /\
          List.length parsed = List.length sigs /\
          ids_of (JList parsed) = Some (map id sigs)) /\
    (forall fred st',
        main float_repr fred initial = (Ok tt, st') ->
        exists text parsed,
          docs_signals_json st' = Some text /\
          loads text = Some (JList parsed) /\
          List.length parsed = List.length (signals st') /\
          ids_of (JList parsed) = Some (map id (signals st'))).
Proof.
  intros float_repr Hr.
  assert (H : forall sigs,
             exists parsed,
               loads (json_dump float_repr sigs) = Some (JList parsed) /\
               List.length parsed = List.length sigs /\
               ids_of (JList parsed) = Some (map id sigs)).
  { intros sigs. exists (map (signal_json float_repr) sigs). split; [|split].
    - apply loads_json_dump, Hr.
    - apply length_map.
    - apply ids_of_signal_json. }
  split; [exact H|].
  intros fred st' Hm. destruct (H (signals st')) as [parsed Hp].
  exists (json_dump float_repr (signals st')), parsed.
  split; [apply (main_writes_signals _ _ _ Hm)|exact Hp].
Qed.

Lemma json_round_trip_ids_witness :
  exists parsed,
    loads (json_dump (fun _ => "2.0")
             [ {| id := "real_yield"; value := 2; z := PrimFloat.nan; desc := "a" |};
               {| id := "usd"; value := 2; z := 2; desc := "b" |} ])
      = Some (JList parsed) /\
    List.length parsed = 2%nat /\
    ids_of (JList parsed) = Some ["real_yield"; "usd"].
Proof.
  destruct (json_round_trip_ids (fun _ => "2.0")) as [H _].
  - intros o _ rest. reflexivity.
  - apply (H [ {| id := "real_yield"; value := 2; z := PrimFloat.nan; desc := "a" |};
               {| id := "usd"; value := 2; z := 2; desc := "b" |} ]).
Defined.

(** ** Binary64 rounding

    The arithmetic of [float] is specified by [SpecFloat] on mantissa and
    exponent.  This part relates what its rounding computes to the real
    value of the operands, as far as the bounds on the relative strength
    index need it. *)

Section Binary64.

Local Open Scope Z_scope.

Lemma fexp64_eq (e : Z) : fexp prec emax e = fexp64 e.
Proof. reflexivity. Qed.

Lemma bpow_pos (e : Z) : (0 < bpow e)%R.
Proof. apply powerRZ_lt. lra. Qed.

Lemma bpow_add (a b : Z) : bpow (a + b) = (bpow a * bpow b)%R.
Proof. apply powerRZ_add. lra. Qed.

Lemma bpow_IZR (n : Z) : 0 <= n -> bpow n = IZR (2 ^ n).
Proof.
  intros H. unfold bpow. rewrite <- (Z2Nat.id n H) at 2.
  rewrite <- (Z2Nat.id n H) at 1.
  rewrite <- pow_powerRZ. rewrite <- pow_IZR. reflexivity.
Qed.

Lemma bpow_le (a b : Z) : a <= b -> (bpow a <= bpow b)%R.
Proof.
  intros H. replace b with (a + (b - a)) by lia. rewrite bpow_add.
  rewrite (bpow_IZR (b - a)) by lia.
  assert (H0 : 1 <= 2 ^ (b - a)).
  { assert (0 < 2 ^ (b - a)) by (apply Z.pow_pos_nonneg; lia). lia. }
  apply IZR_le in H0. pose proof (bpow_pos a). nra.
Qed.

Lemma F2R_shift (m e k : Z) : 0 <= k -> F2R m (e + k) = F2R (m * 2 ^ k) e.
Proof.
  intros H. unfold F2R. rewrite bpow_add, (bpow_IZR k H), mult_IZR.
  rewrite (Rmult_comm (bpow e)). rewrite Rmult_assoc. reflexivity.
Qed.

Lemma F2R_le (m1 m2 e : Z) : m1 <= m2 -> (F2R m1 e <= F2R m2 e)%R.
Proof.
  intros H. unfold F2R. apply IZR_le in H. pose proof (bpow_pos e). nra.
Qed.

Lemma F2R_lt (m1 m2 e : Z) : m1 < m2 -> (F2R m1 e < F2R m2 e)%R.
Proof.
  intros H. unfold F2R. apply IZR_lt in H. pose proof (bpow_pos e). nra.
Qed.

Lemma F2R_le_inv (m1 m2 e : Z) : (F2R m1 e <= F2R m2 e)%R -> m1 <= m2.
Proof.
  intros H. destruct (Z_le_gt_dec m1 m2) as [L|G]; [exact L|].
  apply Z.gt_lt, (F2R_lt _ _ e) in G. lra.
Qed.

Lemma F2R_lt_inv (m1 m2 e : Z) : (F2R m1 e < F2R m2 e)%R -> m1 < m2.
Proof.
  intros H. destruct (Z_lt_ge_dec m1 m2) as [L|G]; [exact L|].
  apply Z.ge_le, (F2R_le _ _ e) in G. lra.
Qed.

(** The number of binary digits. *)
Lemma digits2_pos_bounds (p : positive) :
  2 ^ (Zpos (digits2_pos p) - 1) <= Zpos p < 2 ^ Zpos (digits2_pos p).
Proof.
  induction p as [p IH|p IH|]; cbn [digits2_pos].
  - rewrite Pos2Z.inj_succ.
    replace (Z.succ (Zpos (digits2_pos p)) - 1) with (Z.succ (Zpos (digits2_pos p) - 1)) by lia.
    rewrite !Z.pow_succ_r by lia. lia.
  - rewrite Pos2Z.inj_succ.
    replace (Z.succ (Zpos (digits2_pos p)) - 1) with (Z.succ (Zpos (digits2_pos p) - 1)) by lia.
    rewrite !Z.pow_succ_r by lia. lia.
  - simpl. lia.
Qed.

Lemma Zdigits2_bounds (m : Z) :
  0 < m -> 2 ^ (Zdigits2 m - 1) <= m < 2 ^ Zdigits2 m.
Proof.
  destruct m as [|p|p]; try lia. intros _. apply digits2_pos_bounds.
Qed.

Lemma Zdigits2_nonneg (m : Z) : 0 <= Zdigits2 m.
Proof. destruct m; simpl; lia. Qed.

Lemma Zdigits2_unique (m k : Z) :
  2 ^ (k - 1) <= m < 2 ^ k -> 0 < m -> Zdigits2 m = k.
Proof.
  intros [Hl Hu] Hm. pose proof (Zdigits2_bounds m Hm) as [Dl Du].
  pose proof (Zdigits2_nonneg m).
  assert (0 < k).
  { destruct (Z_lt_le_dec 0 k); [assumption|]. exfalso.
    destruct (Z.eq_dec k 0) as [->|Hk]; [simpl in Hu; lia|].
    rewrite Z.pow_neg_r in Hu by lia. lia. }
  destruct (Z_lt_le_dec (Zdigits2 m) k).
  - assert (2 ^ Zdigits2 m <= 2 ^ (k - 1)) by (apply Z.pow_le_mono_r; lia). lia.
  - destruct (Z_lt_le_dec k (Zdigits2 m)); [|lia].
    assert (2 ^ k <= 2 ^ (Zdigits2 m - 1)) by (apply Z.pow_le_mono_r; lia). lia.
Qed.

(** Shifting right. *)

Lemma iter_pos_nat {A} (f : A -> A) (p : positive) (x : A) :
  SpecFloat.iter_pos f p x = Nat.iter (Pos.to_nat p) f x.
Proof.
  revert x. induction p as [p IH|p IH|]; intros x; cbn [SpecFloat.iter_pos].
  - rewrite !IH. rewrite Pos2Nat.inj_xI.
    replace (S (2 * Pos.to_nat p))%nat with (Pos.to_nat p + (Pos.to_nat p + 1))%nat by lia.
    rewrite !Nat.iter_add. reflexivity.
  - rewrite !IH. rewrite Pos2Nat.inj_xO.
    replace (2 * Pos.to_nat p)%nat with (Pos.to_nat p + Pos.to_nat p)%nat by lia.
    rewrite Nat.iter_add. reflexivity.
  - reflexivity.
Qed.

Lemma shr_1_m (mrs : shr_record) :
  0 <= shr_m mrs -> shr_m (shr_1 mrs) = shr_m mrs / 2.
Proof.
  destruct mrs as [m r s]. cbn [shr_m]. intros H.
  destruct m as [|[p|p|]|p]; cbn [shr_1 shr_m]; try reflexivity.
  - apply Z.div_unique with 1; lia.
  - apply Z.div_unique with 0; lia.
  - lia.
Qed.

Lemma shr_1_exact (mrs : shr_record) :
  0 <= shr_m mrs ->
  shr_r mrs = false -> shr_s mrs = false -> shr_m mrs mod 2 = 0 ->
  shr_r (shr_1 mrs) = false /\ shr_s (shr_1 mrs) = false.
Proof.
  destruct mrs as [m r s]. cbn [shr_m shr_r shr_s]. intros H -> -> Hm.
  destruct m as [|[p|p|]|p]; cbn [shr_1 shr_r shr_s];
    try (split; reflexivity); exfalso.
  - assert (Z.pos p~1 mod 2 = 1) by (symmetry; apply Z.mod_unique with (Z.pos p); lia).
    lia.
  - discriminate.
  - lia.
Qed.

Lemma shr_iter_m (k : nat) (mrs : shr_record) :
  0 <= shr_m mrs ->
  shr_m (Nat.iter k shr_1 mrs) = shr_m mrs / 2 ^ Z.of_nat k.
Proof.
  intros H. induction k as [|k IH].
  - simpl. rewrite Z.div_1_r. reflexivity.
  - rewrite Nat.iter_succ, shr_1_m.
    + rewrite IH, Nat2Z.inj_succ, Z.pow_succ_r by lia.
      rewrite Z.div_div by lia. f_equal. lia.
    + rewrite IH. apply Z.div_pos; [exact H|]. apply Z.pow_pos_nonneg; lia.
Qed.

Lemma shr_iter_exact (k : nat) (mrs : shr_record) :
  0 <= shr_m mrs ->
  shr_r mrs = false -> shr_s mrs = false -> shr_m mrs mod 2 ^ Z.of_nat k = 0 ->
  shr_r (Nat.iter k shr_1 mrs) = false /\ shr_s (Nat.iter k shr_1 mrs) = false.
Proof.
  intros H Hr Hs. induction k as [|k IH]; intros Hm.
  - simpl. split; assumption.
  - rewrite Nat.iter_succ.
    rewrite Nat2Z.inj_succ, Z.pow_succ_r in Hm by lia.
    assert (P : 0 < 2 ^ Z.of_nat k) by (apply Z.pow_pos_nonneg; lia).
    assert (Hk : shr_m mrs mod 2 ^ Z.of_nat k = 0).
    { apply Z.mod_divide in Hm; [|lia]. apply Z.mod_divide; [lia|].
      destruct Hm as [c Hc]. exists (c * 2). lia. }
    destruct (IH Hk) as [Ir Is].
    apply shr_1_exact; try assumption.
    + rewrite shr_iter_m by exact H. apply Z.div_pos; lia.
    + rewrite shr_iter_m by exact H.
      apply Z.mod_divide in Hm; [|lia]. destruct Hm as [c Hc].
      rewrite Hc. replace (c * (2 * 2 ^ Z.of_nat k)) with (c * 2 * 2 ^ Z.of_nat k) by lia.
      rewrite Z.div_mul by lia. apply Z.mod_mul. lia.
Qed.

Lemma shr_spec (mrs : shr_record) (e n : Z) :
  0 <= shr_m mrs -> 0 <= n ->
  snd (shr mrs e n) = e + n /\
  shr_m (fst (shr mrs e n)) = shr_m mrs / 2 ^ n /\
  (shr_r mrs = false -> shr_s mrs = false -> shr_m mrs mod 2 ^ n = 0 ->
   loc_of_shr_record (fst (shr mrs e n)) = loc_Exact).
Proof.
  intros Hm Hn. destruct n as [|p|p]; [| |lia].
  - cbn [shr fst snd]. rewrite Z.add_0_r, Z.pow_0_r, Z.div_1_r.
    repeat split. intros Hr Hs _. destruct mrs as [m r s].
    cbn [shr_r shr_s] in *. subst. reflexivity.
  - cbn [shr fst snd]. rewrite iter_pos_nat.
    split; [reflexivity|].
    rewrite <- (positive_nat_Z p).
    split; [apply shr_iter_m, Hm|].
    intros Hr Hs Hd.
    destruct (shr_iter_exact (Pos.to_nat p) mrs Hm Hr Hs Hd) as [Er Es].
    destruct (Nat.iter (Pos.to_nat p) shr_1 mrs) as [m' r' s'].
    cbn [shr_r shr_s] in *. subst. reflexivity.
Qed.

Lemma round_nearest_even_cases (m : Z) (l : location) :
  (round_nearest_even m l = m \/ round_nearest_even m l = m + 1) /\
  (l = loc_Exact -> round_nearest_even m l = m).
Proof.
  destruct l as [|[]]; cbn [round_nearest_even]; try (split; [auto|]; try discriminate; auto).
  destruct (Z.even m); auto.
Qed.

(** The first shift of [binary_round_aux] brings the mantissa down to 53
    digits at the canonical exponent. *)
Lemma shr_fexp_spec (mx ex : Z) (lx : location) :
  0 <= mx -> ex <= fexp64 (Zdigits2 mx + ex) ->
  let e' := fexp64 (Zdigits2 mx + ex) in
  let n := e' - ex in
  let m' := shr_m (fst (shr_fexp prec emax mx ex lx)) in
  snd (shr_fexp prec emax mx ex lx) = e' /\
  m' = mx / 2 ^ n /\
  (lx = loc_Exact -> mx mod 2 ^ n = 0 ->
   loc_of_shr_record (fst (shr_fexp prec emax mx ex lx)) = loc_Exact) /\
  0 <= m' < 2 ^ 53 /\
  (-1074 < e' -> 2 ^ 52 <= m').
Proof.
  intros Hm Hn e' n m'. subst m'. unfold shr_fexp. rewrite fexp64_eq.
  fold e'. fold n.
  assert (Hn0 : 0 <= n) by (unfold n, e'; lia).
  assert (Hrec : shr_m (shr_record_of_loc mx lx) = mx)
    by (destruct lx as [|[]]; reflexivity).
  destruct (shr_spec (shr_record_of_loc mx lx) ex n) as [He [Hd Hx]];
    [rewrite Hrec; exact Hm|exact Hn0|].
  rewrite Hrec in Hd, Hx. rewrite He, Hd.
  assert (P : 0 < 2 ^ n) by (apply Z.pow_pos_nonneg; lia).
  split; [unfold n; lia|]. split; [reflexivity|]. split.
  { intros -> H0. apply Hx; [reflexivity|reflexivity|exact H0]. }
  destruct (Z.eq_dec mx 0) as [->|Hnz].
  - rewrite Z.div_0_l by lia. split; [lia|].
    intros He'. exfalso. unfold e', fexp64 in *. simpl Zdigits2 in *. lia.
  - assert (Hpos : 0 < mx) by lia.
    pose proof (Zdigits2_bounds mx Hpos) as [Dl Du].
    pose proof (Zdigits2_nonneg mx) as Dn.
    set (d := Zdigits2 mx) in *.
    split; [split|].
    + apply Z.div_pos; lia.
    + apply Z.div_lt_upper_bound; [lia|].
      rewrite <- Z.pow_add_r by lia.
      assert (2 ^ d <= 2 ^ (n + 53))
        by (apply Z.pow_le_mono_r; [lia|unfold n, e', fexp64; lia]).
      lia.
    + intros He'. assert (En : n = d - 53) by (unfold n, e', fexp64 in *; lia).
      apply Z.div_le_lower_bound; [lia|].
      rewrite Z.mul_comm, <- Z.pow_add_r by lia.
      replace (52 + n) with (d - 1) by lia. exact Dl.
Qed.

Lemma bounded_facts (m : positive) (e : Z) :
  SpecFloat.bounded prec emax m e = true ->
  Zpos m < 2 ^ 53 /\ -1074 <= e <= 971 /\ (-1074 < e -> 2 ^ 52 <= Zpos m).
Proof.
  unfold SpecFloat.bounded, canonical_mantissa. rewrite andb_true_iff, fexp64_eq.
  intros [Hc He]. apply Z.eqb_eq in Hc. apply Z.leb_le in He.
  change (emax - prec) with 971 in He.
  pose proof (digits2_pos_bounds m) as [Dl Du].
  set (d := Zpos (digits2_pos m)) in *.
  assert (Hd : 0 < d) by (unfold d; lia).
  unfold fexp64 in Hc. split; [|split; [lia|]].
  - assert (2 ^ d <= 2 ^ 53) by (apply Z.pow_le_mono_r; lia). lia.
  - intros H. assert (d = 53) by lia. replace 52 with (d - 1) by lia. exact Dl.
Qed.

Lemma F2R_rescale (m e e0 : Z) : e0 <= e -> F2R m e = F2R (m * 2 ^ (e - e0)) e0.
Proof.
  intros H. rewrite <- F2R_shift by lia. f_equal. lia.
Qed.

(** Between a grid point and the next one at the same exponent there is no
    binary64 number. *)
Lemma grid_gap (m e : Z) (mB : positive) (eB : Z) :
  on_grid m e -> SpecFloat.bounded prec emax mB eB = true ->
  ((F2R m e < F2R (Zpos mB) eB)%R -> (F2R (m + 1) e <= F2R (Zpos mB) eB)%R) /\
  ((F2R (Zpos mB) eB < F2R (m + 1) e)%R -> (F2R (Zpos mB) eB <= F2R m e)%R).
Proof.
  intros [Hm [He Hn]] HB. apply bounded_facts in HB. destruct HB as [B1 [B2 B3]].
  destruct (Z_le_gt_dec e eB) as [L|G].
  - rewrite (F2R_rescale (Zpos mB) eB e L). split; intros H.
    + apply F2R_lt_inv in H. apply F2R_le. lia.
    + apply F2R_lt_inv in H. apply F2R_le. lia.
  - assert (Hm52 : 2 ^ 52 <= m) by (apply Hn; lia).
    assert (Hlt : (F2R (Zpos mB) eB < F2R m e)%R).
    { rewrite (F2R_rescale m e eB) by lia. apply F2R_lt.
      assert (2 ^ 1 <= 2 ^ (e - eB)) by (apply Z.pow_le_mono_r; lia).
      change (2 ^ 1) with 2 in H. nia. }
    split; intros H; lra.
Qed.

Lemma F2R_floor (mx ex n : Z) :
  0 <= mx -> 0 <= n ->
  (F2R (mx / 2 ^ n) (ex + n) <= F2R mx ex)%R /\
  (F2R mx ex < F2R (mx / 2 ^ n + 1) (ex + n))%R /\
  (mx mod 2 ^ n <> 0 -> (F2R (mx / 2 ^ n) (ex + n) < F2R mx ex)%R).
Proof.
  intros Hm Hn. assert (P : 0 < 2 ^ n) by (apply Z.pow_pos_nonneg; lia).
  rewrite !F2R_shift by exact Hn.
  pose proof (Z.div_mod mx (2 ^ n) ltac:(lia)) as E.
  pose proof (Z.mod_pos_bound mx (2 ^ n) P) as Hb.
  split; [|split].
  - apply F2R_le. nia.
  - apply F2R_lt. nia.
  - intros H. apply F2R_lt. nia.
Qed.

(** What [binary_round_aux] computes on a mantissa that needs no left
    shift: a number of the binary64 grid, not above any binary64 number that
    bounds the input from above, and not below any that bounds an exact
    input from below. *)
Lemma binary_round_aux_spec (s : bool) (mx ex : Z) (lx : location) :
  0 <= mx -> ex <= fexp64 (Zdigits2 mx + ex) ->
  exists m2 e2,
    binary_round_aux prec emax s mx ex lx = sf_of s m2 e2 /\
    on_grid m2 e2 /\ m2 < 2 ^ 53 /\
    (forall mB eB,
        SpecFloat.bounded prec emax mB eB = true ->
        (lx = loc_Exact /\ (F2R mx ex <= F2R (Zpos mB) eB)%R) \/
        (F2R mx ex < F2R (Zpos mB) eB)%R ->
        (F2R m2 e2 <= F2R (Zpos mB) eB)%R) /\
    (lx = loc_Exact ->
     forall mB eB,
       SpecFloat.bounded prec emax mB eB = true ->
       (F2R (Zpos mB) eB <= F2R mx ex)%R ->
       (F2R (Zpos mB) eB <= F2R m2 e2)%R).
Proof.
  intros Hm Hn.
  destruct (shr_fexp_spec mx ex lx Hm Hn) as [E1 [M1 [X1 [B1 G1]]]].
  set (e' := fexp64 (Zdigits2 mx + ex)) in *.
  set (n := e' - ex) in *.
  assert (Hn0 : 0 <= n) by (unfold n; lia).
  unfold binary_round_aux.
  destruct (shr_fexp prec emax mx ex lx) as [mrs' e1] eqn:S1.
  cbn [fst snd] in *. subst e1.
  set (m' := shr_m mrs') in *.
  set (l' := loc_of_shr_record mrs') in *.
  destruct (round_nearest_even_cases m' l') as [Hr Hx].
  set (m1 := round_nearest_even m' l') in *.
  assert (He' : -1074 <= e') by (unfold e', fexp64; lia).
  assert (Hm1 : m' <= m1 <= m' + 1) by lia.
  (* the second shift *)
  assert (Hd1 : fexp64 (Zdigits2 m1 + e') - e' = 0 /\ m1 < 2 ^ 53 \/
                fexp64 (Zdigits2 m1 + e') - e' = 1 /\ m1 = 2 ^ 53).
  { destruct (Z.eq_dec m1 0) as [Z1|NZ1].
    - left. rewrite Z1. simpl Zdigits2. unfold fexp64. lia.
    - assert (P1 : 0 < m1) by lia.
      destruct (Z.eq_dec m1 (2 ^ 53)) as [E|NE].
      + right. split; [|exact E].
        rewrite (Zdigits2_unique m1 54); [unfold fexp64; lia| |exact P1].
        rewrite E. simpl. lia.
      + left. split; [|lia].
        pose proof (Zdigits2_bounds m1 P1) as [Dl Du].
        pose proof (Zdigits2_nonneg m1) as Dn.
        assert (Zdigits2 m1 <= 53).
        { destruct (Z_le_gt_dec (Zdigits2 m1) 53); [assumption|].
          assert (2 ^ 53 <= 2 ^ (Zdigits2 m1 - 1)) by (apply Z.pow_le_mono_r; lia).
          lia. }
        destruct (Z.eq_dec e' (-1074)) as [Em|Em].
        * unfold fexp64. lia.
        * assert (2 ^ 52 <= m') by (apply G1; lia).
          assert (Zdigits2 m1 = 53).
          { apply Zdigits2_unique; [|exact P1]. simpl Z.sub. lia. }
          unfold fexp64. lia. }
  assert (Hn2 : e' <= fexp64 (Zdigits2 m1 + e')) by lia.
  destruct (shr_fexp_spec m1 e' loc_Exact ltac:(lia) Hn2) as [E2 [M2 [_ [B2 G2]]]].
  destruct (shr_fexp prec emax m1 e' loc_Exact) as [mrs'' e2] eqn:S2.
  cbn [fst snd] in *.
  set (m2 := shr_m mrs'') in *.
  assert (Hval : F2R m2 e2 = F2R m1 e').
  { destruct Hd1 as [[D1 _]|[D1 D2]].
    - rewrite D1 in M2. rewrite Z.pow_0_r, Z.div_1_r in M2. rewrite M2.
      f_equal. lia.
    - rewrite D1 in M2. rewrite M2, D2.
      replace e2 with (e' + 1) by lia. rewrite F2R_shift by lia.
      f_equal. }
  exists m2, e2. split; [|split; [|split; [|split]]].
  - unfold sf_of. change (emax - prec) with 971. reflexivity.
  - unfold on_grid. rewrite E2. unfold fexp64 at 1. lia.
  - lia.
  - intros mB eB HB Hyp. rewrite Hval.
    destruct (F2R_floor mx ex n Hm Hn0) as [F1 [F2 F3]].
    replace (ex + n) with e' in * by (unfold n; lia).
    rewrite <- M1 in *.
    destruct (Z.eq_dec m1 m') as [Em|Em].
    + rewrite Em. destruct Hyp as [[_ H]|H]; lra.
    + assert (Em1 : m1 = m' + 1) by lia.
      assert (Hlt : (F2R m' e' < F2R (Zpos mB) eB)%R).
      { destruct Hyp as [[Hl H]|H]; [|lra].
        destruct (Z.eq_dec (mx mod 2 ^ n) 0) as [D|D].
        - exfalso. apply Em. apply Hx. apply X1; assumption.
        - specialize (F3 D). lra. }
      rewrite Em1.
      apply (grid_gap m' e' mB eB); [|exact HB|exact Hlt].
      unfold on_grid. lia.
  - intros Hl mB eB HB Hyp. rewrite Hval.
    destruct (F2R_floor mx ex n Hm Hn0) as [F1 [F2 F3]].
    replace (ex + n) with e' in * by (unfold n; lia).
    rewrite <- M1 in *.
    assert (Hle : (F2R (Zpos mB) eB <= F2R m' e')%R).
    { apply (grid_gap m' e' mB eB); [|exact HB|lra]. unfold on_grid. lia. }
    pose proof (F2R_le m' m1 e' ltac:(lia)). lra.
Qed.

Lemma sf_of_upper (s : bool) (m e : Z) (mB : positive) (eB : Z) :
  on_grid m e -> SpecFloat.bounded prec emax mB eB = true ->
  (F2R m e <= F2R (Zpos mB) eB)%R ->
  sf_of s m e = S754_zero s \/
  exists p, m = Zpos p /\ sf_of s m e = S754_finite s p e.
Proof.
  intros [Hm [He Hg]] HB Hle. apply bounded_facts in HB.
  destruct HB as [B1 [B2 B3]].
  destruct m as [|p|p]; [left; reflexivity| |lia].
  right. exists p. split; [reflexivity|]. unfold sf_of.
  destruct (Z.leb_spec e 971) as [L|G]; [reflexivity|]. exfalso.
  assert (H52 : 2 ^ 52 <= Zpos p) by (apply Hg; lia).
  assert (Hlt : (F2R (Zpos mB) eB < F2R (Zpos p) e)%R).
  { rewrite (F2R_rescale (Zpos p) e eB) by lia. apply F2R_lt.
    assert (2 ^ 1 <= 2 ^ (e - eB)) by (apply Z.pow_le_mono_r; lia).
    change (2 ^ 1) with 2 in H. nia. }
  lra.
Qed.

Lemma F2R_pos (m e : Z) : 0 < m -> (0 < F2R m e)%R.
Proof.
  intros H. unfold F2R. apply IZR_lt in H. pose proof (bpow_pos e). nra.
Qed.

Lemma F2R_0 (e : Z) : F2R 0 e = 0%R.
Proof. unfold F2R. lra. Qed.

Lemma sf_of_lower (s : bool) (m e : Z) (mB : positive) (eB : Z) :
  on_grid m e ->
  (F2R (Zpos mB) eB <= F2R m e)%R ->
  sf_of s m e = S754_infinity s \/
  exists p, m = Zpos p /\ sf_of s m e = S754_finite s p e.
Proof.
  intros [Hm _] Hle. pose proof (F2R_pos (Zpos mB) eB ltac:(lia)).
  destruct m as [|p|p]; [rewrite F2R_0 in Hle; lra| |lia].
  unfold sf_of. destruct (e <=? 971); [right; exists p; auto|left; reflexivity].
Qed.

Lemma sf_of_nonneg (s : bool) (m e : Z) :
  0 <= m ->
  sf_of s m e = S754_zero s \/ sf_of s m e = S754_infinity s \/
  exists p, sf_of s m e = S754_finite s p e.
Proof.
  intros H. destruct m as [|p|p]; [left; reflexivity| |lia].
  unfold sf_of. destruct (e <=? 971); [right; right; exists p|right; left]; reflexivity.
Qed.

(** Comparison of two positive binary64 numbers follows their values. *)
Lemma SFleb_finite (m1 m2 : positive) (e1 e2 : Z) :
  SpecFloat.bounded prec emax m1 e1 = true ->
  SpecFloat.bounded prec emax m2 e2 = true ->
  (F2R (Zpos m1) e1 <= F2R (Zpos m2) e2)%R ->
  SFleb (S754_finite false m1 e1) (S754_finite false m2 e2) = true.
Proof.
  intros H1 H2 Hle. apply bounded_facts in H1, H2.
  destruct H1 as [A1 [A2 A3]]. destruct H2 as [B1 [B2 B3]].
  unfold SFleb, SFcompare. destruct (Z.compare_spec e1 e2) as [E|L|G].
  - subst. apply F2R_le_inv in Hle.
    rewrite Pos.compare_cont_spec. cbn [Pos.switch_Eq].
    destruct (Pos.compare_spec m1 m2); try reflexivity. lia.
  - reflexivity.
  - exfalso.
    assert (H52 : 2 ^ 52 <= Zpos m1) by (apply A3; lia).
    assert (Hlt : (F2R (Zpos m2) e2 < F2R (Zpos m1) e1)%R).
    { rewrite (F2R_rescale (Zpos m1) e1 e2) by lia. apply F2R_lt.
      assert (2 ^ 1 <= 2 ^ (e1 - e2)) by (apply Z.pow_le_mono_r; lia).
      change (2 ^ 1) with 2 in H. nia. }
    lra.
Qed.

(** Left alignment. *)

Lemma Pos_iter_xO (d m : positive) :
  Zpos (Pos.iter xO m d) = Zpos m * 2 ^ Zpos d.
Proof.
  induction d as [|d IH] using Pos.peano_ind.
  - simpl. lia.
  - rewrite Pos.iter_succ, Pos2Z.inj_xO, IH, Pos2Z.inj_succ, Z.pow_succ_r by lia.
    lia.
Qed.

Lemma Zdigits2_shift (m k : Z) :
  0 < m -> 0 <= k -> Zdigits2 (m * 2 ^ k) = Zdigits2 m + k.
Proof.
  intros Hm Hk. pose proof (Zdigits2_bounds m Hm) as [Dl Du].
  pose proof (Zdigits2_nonneg m).
  assert (Hd : 0 < Zdigits2 m).
  { destruct (Z.eq_dec (Zdigits2 m) 0) as [E|E]; [|lia].
    rewrite E in Du. simpl in Du. lia. }
  assert (P : 0 < 2 ^ k) by (apply Z.pow_pos_nonneg; lia).
  apply Zdigits2_unique; [|nia].
  replace (Zdigits2 m + k - 1) with (Zdigits2 m - 1 + k) by lia.
  rewrite !Z.pow_add_r by lia. nia.
Qed.

Lemma shl_align_spec (mx : positive) (ex : Z) :
  let '(mz, ez) := shl_align mx ex (fexp64 (Zpos (digits2_pos mx) + ex)) in
  F2R (Zpos mz) ez = F2R (Zpos mx) ex /\
  ez <= fexp64 (Zdigits2 (Zpos mz) + ez).
Proof.
  unfold shl_align.
  destruct (fexp64 (Zpos (digits2_pos mx) + ex) - ex) as [|d|d] eqn:E.
  - split; [reflexivity|]. cbn [Zdigits2]. lia.
  - split; [reflexivity|]. cbn [Zdigits2]. lia.
  - set (e' := fexp64 (Zpos (digits2_pos mx) + ex)) in *.
    rewrite Pos_iter_xO. split.
    + rewrite (F2R_rescale (Zpos mx) ex e') by lia. f_equal. f_equal. f_equal. lia.
    + rewrite Zdigits2_shift by lia. cbn [Zdigits2].
      replace (Zpos (digits2_pos mx) + Zpos d + e') with (Zpos (digits2_pos mx) + ex) by lia.
      fold e'. lia.
Qed.

(** [binary_round] rounds the exact value of its input. *)
Lemma binary_round_spec (s : bool) (mx : positive) (ex : Z) :
  exists m2 e2,
    binary_round prec emax s mx ex = sf_of s m2 e2 /\
    on_grid m2 e2 /\
    (forall mB eB,
        SpecFloat.bounded prec emax mB eB = true ->
        (F2R (Zpos mx) ex <= F2R (Zpos mB) eB)%R ->
        (F2R m2 e2 <= F2R (Zpos mB) eB)%R) /\
    (forall mB eB,
        SpecFloat.bounded prec emax mB eB = true ->
        (F2R (Zpos mB) eB <= F2R (Zpos mx) ex)%R ->
        (F2R (Zpos mB) eB <= F2R m2 e2)%R).
Proof.
  unfold binary_round. rewrite fexp64_eq.
  pose proof (shl_align_spec mx ex) as H.
  destruct (shl_align mx ex (fexp64 (Zpos (digits2_pos mx) + ex))) as [mz ez].
  destruct H as [Hv Hn].
  destruct (binary_round_aux_spec s (Zpos mz) ez loc_Exact ltac:(lia) Hn)
    as [m2 [e2 [Hr [Hg [_ [Hu Hl]]]]]].
  exists m2, e2. split; [exact Hr|]. split; [exact Hg|]. split.
  - intros mB eB HB Hle. apply (Hu mB eB HB). left. split; [reflexivity|].
    rewrite Hv. exact Hle.
  - intros mB eB HB Hle. apply (Hl eq_refl mB eB HB). rewrite Hv. exact Hle.
Qed.

Lemma shl_align_fst (mx : positive) (ex ez : Z) :
  ez <= ex -> F2R (Zpos (fst (shl_align mx ex ez))) ez = F2R (Zpos mx) ex.
Proof.
  intros H. unfold shl_align. destruct (ez - ex) as [|d|d] eqn:E; cbn [fst].
  - f_equal. lia.
  - lia.
  - rewrite Pos_iter_xO, (F2R_rescale (Zpos mx) ex ez H).
    f_equal. f_equal. f_equal. lia.
Qed.

Lemma F2R_plus (a b e : Z) : F2R (a + b) e = (F2R a e + F2R b e)%R.
Proof. unfold F2R. rewrite plus_IZR. lra. Qed.

Lemma F2R_minus (a b e : Z) : F2R (a - b) e = (F2R a e - F2R b e)%R.
Proof. unfold F2R. rewrite minus_IZR. lra. Qed.

Lemma on_grid_zero : on_grid 0 (-1074).
Proof. unfold on_grid. lia. Qed.

(** The sum of two positive numbers. *)
Lemma SFadd_pos (mx my : positive) (ex ey : Z) :
  exists m2 e2,
    SFadd prec emax (S754_finite false mx ex) (S754_finite false my ey)
      = sf_of false m2 e2 /\
    on_grid m2 e2 /\
    (forall mB eB,
        SpecFloat.bounded prec emax mB eB = true ->
        (F2R (Zpos mB) eB <= F2R (Zpos mx) ex + F2R (Zpos my) ey)%R ->
        (F2R (Zpos mB) eB <= F2R m2 e2)%R).
Proof.
  cbn [SFadd cond_Zopp].
  set (ez := Z.min ex ey).
  pose proof (shl_align_fst mx ex ez ltac:(unfold ez; lia)) as Hx.
  pose proof (shl_align_fst my ey ez ltac:(unfold ez; lia)) as Hy.
  set (a := fst (shl_align mx ex ez)) in *.
  set (b := fst (shl_align my ey ez)) in *.
  change (Zpos a + Zpos b) with (Zpos (a + b)). cbn [binary_normalize].
  destruct (binary_round_spec false (a + b) ez) as [m2 [e2 [Hr [Hg [_ Hl]]]]].
  exists m2, e2. split; [exact Hr|]. split; [exact Hg|].
  intros mB eB HB Hle. apply (Hl mB eB HB).
  rewrite Pos2Z.inj_add, F2R_plus, Hx, Hy. exact Hle.
Qed.

(** The difference of two positive numbers, the first not the smaller. *)
Lemma SFsub_pos (mx my : positive) (ex ey : Z) :
  (F2R (Zpos my) ey <= F2R (Zpos mx) ex)%R ->
  exists m2 e2,
    SFsub prec emax (S754_finite false mx ex) (S754_finite false my ey)
      = sf_of false m2 e2 /\
    on_grid m2 e2 /\
    (forall mB eB,
        SpecFloat.bounded prec emax mB eB = true ->
        (F2R (Zpos mx) ex - F2R (Zpos my) ey <= F2R (Zpos mB) eB)%R ->
        (F2R m2 e2 <= F2R (Zpos mB) eB)%R).
Proof.
  intros Hle. cbn [SFsub cond_Zopp].
  set (ez := Z.min ex ey).
  pose proof (shl_align_fst mx ex ez ltac:(unfold ez; lia)) as Hx.
  pose proof (shl_align_fst my ey ez ltac:(unfold ez; lia)) as Hy.
  set (a := fst (shl_align mx ex ez)) in *.
  set (b := fst (shl_align my ey ez)) in *.
  assert (Hab : Zpos b <= Zpos a).
  { apply (F2R_le_inv _ _ ez). rewrite Hx, Hy. exact Hle. }
  destruct (Zpos a - Zpos b) as [|p|p] eqn:E; [| |lia]; cbn [binary_normalize].
  - exists 0, (-1074). split; [reflexivity|]. split; [exact on_grid_zero|].
    intros mB eB _ _. rewrite F2R_0.
    pose proof (F2R_pos (Zpos mB) eB ltac:(lia)). lra.
  - destruct (binary_round_spec false p ez) as [m2 [e2 [Hr [Hg [Hu _]]]]].
    exists m2, e2. split; [exact Hr|]. split; [exact Hg|].
    intros mB eB HB H. apply (Hu mB eB HB).
    rewrite <- E, F2R_minus, Hx, Hy. exact H.
Qed.

Lemma new_location_exact (nb k : Z) :
  new_location nb k = loc_Exact -> k = 0.
Proof.
  unfold new_location, new_location_even, new_location_odd.
  destruct (Z.even nb); destruct (Z.eqb_spec k 0); try discriminate; auto.
Qed.

Lemma fexp64_mono (a b : Z) : a <= b -> fexp64 a <= fexp64 b.
Proof. unfold fexp64. lia. Qed.

(** The quotient of two positive numbers. *)
Lemma SFdiv_pos (mx my : positive) (ex ey : Z) :
  exists m2 e2,
    SFdiv prec emax (S754_finite false mx ex) (S754_finite false my ey)
      = sf_of false m2 e2 /\
    on_grid m2 e2 /\
    (forall mB eB,
        SpecFloat.bounded prec emax mB eB = true ->
        (F2R (Zpos mx) ex <= F2R (Zpos mB) eB * F2R (Zpos my) ey)%R ->
        (F2R m2 e2 <= F2R (Zpos mB) eB)%R).
Proof.
  cbn [SFdiv xorb]. unfold SFdiv_core_binary. rewrite fexp64_eq.
  set (d1 := Zdigits2 (Zpos mx)). set (d2 := Zdigits2 (Zpos my)).
  set (e' := Z.min (fexp64 (d1 + ex - (d2 + ey))) (ex - ey)).
  set (s := ex - ey - e').
  assert (Hs : 0 <= s) by (unfold s, e'; lia).
  set (m' := match s with
             | 0 => Zpos mx
             | Zpos _ => Z.shiftl (Zpos mx) s
             | Zneg _ => 0
             end).
  assert (Hm' : m' = Zpos mx * 2 ^ s).
  { unfold m'. destruct s as [|p|p]; [simpl; lia| |lia].
    apply Z.shiftl_mul_pow2. lia. }
  assert (P : 0 < 2 ^ s) by (apply Z.pow_pos_nonneg; lia).
  assert (Hq : Z.div_eucl m' (Zpos my) = (m' / Zpos my, m' mod Zpos my)).
  { unfold Z.div, Z.modulo. destruct (Z.div_eucl m' (Zpos my)). reflexivity. }
  rewrite Hq.
  set (q := m' / Zpos my). set (r := m' mod Zpos my).
  pose proof (Z.div_mod m' (Zpos my) ltac:(lia)) as Edm. fold q r in Edm.
  pose proof (Z.mod_pos_bound m' (Zpos my) ltac:(lia)) as Hr. fold r in Hr.
  assert (Hq0 : 0 <= q) by (apply Z.div_pos; lia).
  (* the quotient has enough digits *)
  assert (Hn : e' <= fexp64 (Zdigits2 q + e')).
  { pose proof (Zdigits2_nonneg q) as Dq.
    assert (Hk : d1 + s - d2 <= Zdigits2 q).
    { destruct (Z_le_gt_dec (d1 + s - d2) 0) as [L|G]; [lia|].
      pose proof (Zdigits2_bounds (Zpos mx) ltac:(lia)) as [Xl Xu].
      pose proof (Zdigits2_bounds (Zpos my) ltac:(lia)) as [Yl Yu].
      fold d1 in Xl, Xu. fold d2 in Yl, Yu.
      assert (D1 : 0 < d1).
      { pose proof (Zdigits2_nonneg (Zpos mx)). fold d1 in H.
        destruct (Z.eq_dec d1 0) as [E|E]; [|lia]. rewrite E in Xu. simpl in Xu. lia. }
      assert (D2 : 0 < d2).
      { pose proof (Zdigits2_nonneg (Zpos my)). fold d2 in H.
        destruct (Z.eq_dec d2 0) as [E|E]; [|lia]. rewrite E in Yu. simpl in Yu. lia. }
      assert (Hlow : 2 ^ (d1 + s - d2 - 1) <= q).
      { apply Z.div_le_lower_bound; [lia|].
        assert (Zpos my * 2 ^ (d1 + s - d2 - 1) <= 2 ^ d2 * 2 ^ (d1 + s - d2 - 1))
          by (apply Z.mul_le_mono_nonneg_r; [apply Z.pow_nonneg; lia|lia]).
        rewrite <- Z.pow_add_r in H by lia.
        replace (d2 + (d1 + s - d2 - 1)) with (d1 - 1 + s) in H by lia.
        rewrite Z.pow_add_r in H by lia. rewrite Hm'. nia. }
      assert (Pq : 0 < q).
      { assert (0 < 2 ^ (d1 + s - d2 - 1)) by (apply Z.pow_pos_nonneg; lia). lia. }
      pose proof (Zdigits2_bounds q Pq) as [_ Qu].
      destruct (Z_le_gt_dec (d1 + s - d2) (Zdigits2 q)) as [L|G']; [exact L|].
      assert (2 ^ Zdigits2 q <= 2 ^ (d1 + s - d2 - 1))
        by (apply Z.pow_le_mono_r; lia).
      lia. }
    assert (fexp64 (d1 + ex - (d2 + ey)) <= fexp64 (Zdigits2 q + e'))
      by (apply fexp64_mono; unfold s in Hk; lia).
    unfold e' at 1. lia. }
  destruct (binary_round_aux_spec false q e' (new_location (Zpos my) r) Hq0 Hn)
    as [m2 [e2 [Hres [Hg [_ [Hu _]]]]]].
  exists m2, e2. split; [exact Hres|]. split; [exact Hg|].
  intros mB eB HB Hle. apply (Hu mB eB HB).
  (* the truncated quotient against the bound *)
  assert (HX : F2R (Zpos mx) ex = F2R m' (e' + ey)).
  { rewrite Hm', <- F2R_shift by lia. f_equal. unfold s. lia. }
  assert (HY : (F2R q e' * F2R (Zpos my) ey = F2R (q * Zpos my) (e' + ey))%R).
  { unfold F2R. rewrite mult_IZR, bpow_add. lra. }
  pose proof (F2R_pos (Zpos my) ey ltac:(lia)) as Ypos.
  destruct (Z.eq_dec r 0) as [R0|R0].
  - destruct (new_location (Zpos my) r) eqn:El.
    + left. split; [reflexivity|].
      assert (F2R q e' * F2R (Zpos my) ey <= F2R (Zpos mB) eB * F2R (Zpos my) ey)%R.
      { rewrite HY, <- Hle, HX. apply F2R_le. lia. }
      nra.
    + exfalso. unfold new_location, new_location_even, new_location_odd in El.
      rewrite R0 in El. destruct (Z.even (Zpos my)); discriminate.
  - right.
    assert (F2R q e' * F2R (Zpos my) ey < F2R (Zpos mB) eB * F2R (Zpos my) ey)%R.
    { rewrite HY. apply Rlt_le_trans with (F2R m' (e' + ey)); [|rewrite <- HX; exact Hle].
      apply F2R_lt. lia. }
    nra.
Qed.

End Binary64.

(** ** Bounds on the relative strength index *)

Lemma isna_add_r (x y : float) : isna y = true -> isna (x + y) = true.
Proof.
  rewrite !isna_spec, add_spec. intros ->. destruct (Prim2SF x); reflexivity.
Qed.

Lemma isna_div_l (x y : float) : isna x = true -> isna (x / y) = true.
Proof. rewrite !isna_spec, div_spec. intros ->. reflexivity. Qed.

Lemma isna_div_r (x y : float) : isna y = true -> isna (x / y) = true.
Proof.
  rewrite !isna_spec, div_spec. intros ->. destruct (Prim2SF x); reflexivity.
Qed.

Lemma isna_false_spec (x : float) : isna x = false <-> Prim2SF x <> S754_nan.
Proof.
  split.
  - intros H E. apply isna_spec in E. congruence.
  - intros H. destruct (isna x) eqn:E; [|reflexivity].
    apply isna_spec in E. contradiction.
Qed.

Lemma sf_of_sf_nonneg (m e : Z) : (0 <= m)%Z -> sf_nonneg (sf_of false m e).
Proof.
  intros H. destruct (sf_of_nonneg false m e H) as [E|[E|[p E]]]; rewrite E; exact I.
Qed.

Lemma F2R_one : F2R 4503599627370496 (-52) = 1%R.
Proof.
  change 4503599627370496%Z with (1 * 2 ^ 52)%Z.
  rewrite <- F2R_shift by lia. unfold F2R, bpow. simpl. lra.
Qed.

Lemma isna_rsi_of (g l : float) :
  isna g = true \/ isna l = true -> isna (rsi_of g l) = true.
Proof.
  intros H. unfold rsi_of. apply isna_sub_r, isna_div_r, isna_add_r.
  destruct H as [H|H]; [apply isna_div_l, H|apply isna_div_r, H].
Qed.

(** The relative strength: a quotient of two numbers that are zero or
    positive is undefined, a zero, an infinity or a positive number. *)
Lemma rs_class (G L : spec_float) :
  sf_nonneg G -> sf_nonneg L ->
  SFdiv prec emax G L = S754_nan \/
  (exists s, SFdiv prec emax G L = S754_zero s) \/
  (exists s, SFdiv prec emax G L = S754_infinity s) \/
  (exists m e, SFdiv prec emax G L = S754_finite false m e).
Proof.
  destruct G as [sg|sg| |sg mg eg]; destruct L as [sl|sl| |sl ml el];
    cbn [sf_nonneg]; try contradiction;
    try (destruct sg; try contradiction); try (destruct sl; try contradiction);
    intros _ _; try solve [cbn [SFdiv xorb]; eauto 10].
  destruct (SFdiv_pos mg ml eg el) as [m2 [e2 [Hr [[Hm _] _]]]].
  rewrite Hr.
  destruct (sf_of_nonneg false m2 e2 Hm) as [E|[E|[p E]]]; rewrite E; eauto 10.
Qed.

(** One plus the relative strength is an infinity or a number that is at
    least one. *)
Lemma one_plus_rs_class (RS : spec_float) :
  ((exists s, RS = S754_zero s) \/ (exists s, RS = S754_infinity s) \/
   (exists m e, RS = S754_finite false m e)) ->
  (exists s, SFadd prec emax (Prim2SF 1) RS = S754_infinity s) \/
  (exists m e, SFadd prec emax (Prim2SF 1) RS = S754_finite false m e /\
               (1 <= F2R (Zpos m) e)%R).
Proof.
  change (Prim2SF 1) with (S754_finite false 4503599627370496 (-52)).
  intros [[s ->]|[[s ->]|[m [e ->]]]].
  - right. exists 4503599627370496%positive, (-52)%Z.
    split; [reflexivity|]. rewrite F2R_one. lra.
  - left. exists s. reflexivity.
  - destruct (SFadd_pos 4503599627370496 m (-52) e) as [m2 [e2 [Hr [Hg Hl]]]].
    rewrite Hr.
    assert (H1 : (F2R 4503599627370496 (-52) <= F2R m2 e2)%R).
    { apply Hl; [reflexivity|].
      pose proof (F2R_pos (Zpos m) e ltac:(lia)). lra. }
    destruct (sf_of_lower false m2 e2 4503599627370496 (-52) Hg H1) as [E|[p [Ep E]]].
    + left. exists false. exact E.
    + right. exists p, e2. split; [exact E|]. rewrite <- Ep, <- F2R_one. exact H1.
Qed.

(** A hundred over that is a zero or a positive number up to a hundred. *)
Lemma hundred_over_class (D : spec_float) :
  ((exists s, D = S754_infinity s) \/
   (exists m e, D = S754_finite false m e /\ (1 <= F2R (Zpos m) e)%R)) ->
  (exists s, SFdiv prec emax (Prim2SF 100) D = S754_zero s) \/
  (exists m e, SFdiv prec emax (Prim2SF 100) D = S754_finite false m e /\
               (F2R (Zpos m) e <= F2R 7036874417766400 (-46))%R).
Proof.
  change (Prim2SF 100) with (S754_finite false 7036874417766400 (-46)).
  intros [[s ->]|[m [e [-> H1]]]].
  - left. exists (xorb false s). reflexivity.
  - destruct (SFdiv_pos 7036874417766400 m (-46) e) as [m2 [e2 [Hr [Hg Hu]]]].
    rewrite Hr.
    assert (H2 : (F2R m2 e2 <= F2R 7036874417766400 (-46))%R).
    { apply Hu; [reflexivity|].
      pose proof (F2R_pos 7036874417766400 (-46) ltac:(lia)). nra. }
    destruct (sf_of_upper false m2 e2 7036874417766400 (-46) Hg eq_refl H2)
      as [E|[p [Ep E]]].
    + left. exists false. exact E.
    + right. exists p, e2. split; [exact E|]. rewrite <- Ep. exact H2.
Qed.

(** A hundred minus that is a hundred, zero, or a positive number up to a
    hundred. *)
Lemma hundred_minus_class (Q : spec_float) :
  ((exists s, Q = S754_zero s) \/
   (exists m e, Q = S754_finite false m e /\
                (F2R (Zpos m) e <= F2R 7036874417766400 (-46))%R)) ->
  SFsub prec emax (Prim2SF 100) Q = Prim2SF 100 \/
  SFsub prec emax (Prim2SF 100) Q = S754_zero false \/
  (exists m e, SFsub prec emax (Prim2SF 100) Q = S754_finite false m e /\
               (F2R (Zpos m) e <= F2R 7036874417766400 (-46))%R).
Proof.
  change (Prim2SF 100) with (S754_finite false 7036874417766400 (-46)).
  intros [[s ->]|[m [e [-> H1]]]].
  - left. reflexivity.
  - destruct (SFsub_pos 7036874417766400 m (-46) e H1) as [m2 [e2 [Hr [Hg Hu]]]].
    rewrite Hr.
    assert (H2 : (F2R m2 e2 <= F2R 7036874417766400 (-46))%R).
    { apply Hu; [reflexivity|].
      pose proof (F2R_pos (Zpos m) e ltac:(lia)). lra. }
    destruct (sf_of_upper false m2 e2 7036874417766400 (-46) Hg eq_refl H2)
      as [E|[p [Ep E]]].
    + right. left. exact E.
    + right. right. exists p, e2. split; [exact E|]. rewrite <- Ep. exact H2.
Qed.

Lemma Prim2SF_rsi_of (g l : float) :
  Prim2SF (rsi_of g l)
  = SFsub prec emax (Prim2SF 100)
      (SFdiv prec emax (Prim2SF 100)
         (SFadd prec emax (Prim2SF 1) (SFdiv prec emax (Prim2SF g) (Prim2SF l)))).
Proof.
  unfold rsi_of. rewrite sub_spec, div_spec, add_spec, div_spec. reflexivity.
Qed.

(** From an average gain and an average loss that are zero or positive, a
    relative strength index that is a number lies between 0 and 100. *)
Lemma rsi_of_bounds (g l : float) :
  isna g = true \/ sf_nonneg (Prim2SF g) ->
  isna l = true \/ sf_nonneg (Prim2SF l) ->
  isna (rsi_of g l) = false ->
  (0 <=? rsi_of g l) = true /\ (rsi_of g l <=? 100) = true.
Proof.
  intros Hg Hl Hn.
  destruct Hg as [Hg|Hg];
    [rewrite isna_rsi_of in Hn by (left; exact Hg); discriminate|].
  destruct Hl as [Hl|Hl];
    [rewrite isna_rsi_of in Hn by (right; exact Hl); discriminate|].
  apply isna_false_spec in Hn.
  pose proof (Prim2SF_valid (rsi_of g l)) as Hv.
  rewrite !leb_spec.
  rewrite Prim2SF_rsi_of in *.
  destruct (rs_class _ _ Hg Hl) as [E|Hrs].
  - exfalso. apply Hn. rewrite E. reflexivity.
  - destruct (hundred_minus_class _
                (hundred_over_class _ (one_plus_rs_class _ Hrs)))
      as [E|[E|[m [e [E Hle]]]]].
    + rewrite E. split; reflexivity.
    + rewrite E. split; reflexivity.
    + rewrite E in Hv |- *. split; [reflexivity|].
      apply SFleb_finite; [exact Hv|reflexivity|exact Hle].
Qed.

(** With a positive average gain and a zero average loss the index is
    exactly 100. *)
Lemma rsi_of_saturates (g l : float) :
  (0 <? g) = true -> (l =? 0) = true -> rsi_of g l = 100.
Proof.
  rewrite ltb_spec, FloatAxioms.eqb_spec. intros Hg Hl.
  apply Prim2SF_inj. rewrite Prim2SF_rsi_of.
  change (Prim2SF 0) with (S754_zero false) in *.
  destruct (Prim2SF l) as [sl|sl| |sl ml el];
    try discriminate; try (destruct sl; discriminate).
  destruct (Prim2SF g) as [sg|sg| |sg mg eg]; try discriminate;
    destruct sg; try discriminate; destruct sl; reflexivity.
Qed.

(** ** The relative strength index of a series *)

Lemma rsi_values_eq (l : list float) (p : nat) :
  rsi_values l p
  = map (fun gl => rsi_of (fst gl) (snd gl))
        (combine (avg_gain_of l p) (avg_loss_of l p)).
Proof. unfold rsi_values. rewrite map_map. reflexivity. Qed.

Lemma nth_error_combine {A B} (a : list A) (b : list B) (i : nat) x y :
  nth_error (combine a b) i = Some (x, y) ->
  nth_error a i = Some x /\ nth_error b i = Some y.
Proof.
  revert b i. induction a as [|a0 a IH]; intros [|b0 b] [|i]; simpl;
    try discriminate.
  - intros [= -> ->]. split; reflexivity.
  - apply IH.
Qed.

Lemma add_mean_nobs (val : float) (st : mean_state) :
  (nobs (add_mean val st) <= S (nobs st))%nat.
Proof.
  unfold add_mean. destruct (val =? val); cbn [nobs]; lia.
Qed.

Lemma calc_mean_short (minp : nat) (st : mean_state) :
  (nobs st < minp)%nat -> calc_mean minp st = PrimFloat.nan.
Proof.
  intros H. unfold calc_mean.
  destruct (Nat.leb_spec minp (nobs st)); [lia|reflexivity].
Qed.

(** As long as no observation has left the window, the count of the
    observations in it grows by one at most at each position. *)
Lemma roll_mean_from_warmup (values : list float) (p : nat) :
  forall rest i st j v,
    (1 <= i)%nat -> (nobs st < i)%nat ->
    nth_error (roll_mean_from values p p i rest st) j = Some v ->
    (i + j < p)%nat -> v = PrimFloat.nan.
Proof.
  induction rest as [|val rest IH]; intros i st j v Hi Hn Hv Hj;
    [destruct j; discriminate|].
  cbn [roll_mean_from] in Hv.
  replace ((i =? 0) || (p <=? 1))%nat with false in Hv
    by (symmetry; apply orb_false_iff; split;
        [apply Nat.eqb_neq|apply Nat.leb_gt]; lia).
  replace (p <=? i)%nat with false in Hv by (symmetry; apply Nat.leb_gt; lia).
  pose proof (add_mean_nobs val st) as Ha.
  destruct j as [|j]; cbn [nth_error] in Hv.
  - injection Hv as <-. apply calc_mean_short. lia.
  - apply (IH (S i) (add_mean val st) j v); [lia|lia|exact Hv|lia].
Qed.

Lemma counted_false_skipped (x : float) :
  counted x = false -> (inf_to_nan x =? inf_to_nan x) = false.
Proof.
  unfold counted, inf_to_nan, isna, PrimFloat.is_nan.
  destruct (PrimFloat.is_infinity x); [reflexivity|].
  destruct (x =? x); [discriminate|reflexivity].
Qed.

(** While the window still reaches the first difference, which is missing,
    the rolling mean is missing. *)
Lemma rolling_mean_warmup (p i : nat) (x : float) (r : list float) (v : float) :
  counted x = false ->
  nth_error (rolling_mean p (x :: r)) i = Some v ->
  (i < p)%nat -> v = PrimFloat.nan.
Proof.
  intros Hx Hv Hi. unfold rolling_mean, roll_mean in Hv.
  cbn [map roll_mean_from Nat.eqb orb] in Hv.
  unfold add_mean at 1 2 in Hv. rewrite (counted_false_skipped x Hx) in Hv.
  destruct i as [|i]; cbn [nth_error] in Hv.
  - injection Hv as <-. unfold calc_mean, setup_mean. cbn [nobs Nat.ltb Nat.leb].
    rewrite andb_false_r. reflexivity.
  - apply (roll_mean_from_warmup _ p _ 1%nat _ i v) in Hv;
      [exact Hv|lia|cbn [setup_mean nobs]; lia|lia].
Qed.

Lemma rsi_values_warmup (l : list float) (p i : nat) (v : float) :
  nth_error (rsi_values l p) i = Some v -> (i < p)%nat -> isna v = true.
Proof.
  rewrite rsi_values_eq, nth_error_map.
  destruct (nth_error (combine (avg_gain_of l p) (avg_loss_of l p)) i)
    as [[g a]|] eqn:E; [|discriminate].
  intros [= <-] Hi. cbn [fst snd].
  apply nth_error_combine in E. destruct E as [Eg _].
  apply isna_rsi_of. left.
  unfold avg_gain_of in Eg. destruct l as [|x l]; [destruct i; discriminate|].
  cbn [diff map] in Eg.
  rewrite (rolling_mean_warmup p i (clip_lower0 PrimFloat.nan) _ g eq_refl Eg Hi).
  reflexivity.
Qed.

Lemma rsi_values_nth (l : list float) (p i : nat) (v : float) :
  nth_error (rsi_values l p) i = Some v ->
  exists g a,
    nth_error (avg_gain_of l p) i = Some g /\
    nth_error (avg_loss_of l p) i = Some a /\
    v = rsi_of g a.
Proof.
  rewrite rsi_values_eq, nth_error_map.
  destruct (nth_error (combine (avg_gain_of l p) (avg_loss_of l p)) i)
    as [[g a]|] eqn:E; [|discriminate].
  intros [= <-]. apply nth_error_combine in E. destruct E as [Eg Ea].
  exists g, a. auto.
Qed.

Lemma leb_zero_nonneg (x : float) :
  (0 <=? x) = true -> sf_nonneg (Prim2SF x).
Proof.
  rewrite leb_spec. change (Prim2SF 0) with (S754_zero false).
  destruct (Prim2SF x) as [s|s| |s m e]; cbn; try discriminate; auto;
    destruct s; try discriminate; auto.
Qed.

(** C3, as the code has it: at every point of the RSI(14) series the index
    is [100 - 100 / (1 + g / a)] for the rolling average gain [g] and the
    rolling average loss [a] at that point; when both averages are zero or
    positive a defined index lies between 0 and 100, and it is exactly 100
    when the average loss is zero and the average gain positive; the points
    before the fourteenth difference are undefined, so that the drop of
    missing values removes them.  The averages themselves come from the
    running sum of the rolling mean, which can be negative. *)
Theorem rsi_bounds_and_warmup :
  forall (s : Series),
    (forall i d v, nth_error (compute_rsi s 14) i = Some (d, v) ->
                   exists g a,
                     nth_error (avg_gain_of (values s) 14) i = Some g /\
                     nth_error (avg_loss_of (values s) 14) i = Some a /\
                     v = rsi_of g a /\
                     ((0 <=? g) = true -> (0 <=? a) = true -> isna v = false ->
                      (0 <=? v) = true /\ (v <=? 100) = true) /\
                     ((0 <? g) = true -> (a =? 0) = true -> v = 100)) /\
    (forall i d v, nth_error (compute_rsi s 14) i = Some (d, v) ->
                   (i < 14)%nat ->
                   isna v = true /\ ~ In (d, v) (dropna (compute_rsi s 14))).
Proof.
  intros s. split.
  - intros i d v H. unfold compute_rsi in H. apply nth_error_combine in H.
    destruct H as [_ H]. destruct (rsi_values_nth _ _ _ _ H) as [g [a [Hg [Ha Hv]]]].
    exists g, a. split; [exact Hg|]. split; [exact Ha|]. split; [exact Hv|].
    split.
    + intros G0 A0 Hn. rewrite Hv in *.
      apply rsi_of_bounds; [right; apply leb_zero_nonneg, G0
                           |right; apply leb_zero_nonneg, A0|exact Hn].
    + intros G0 A0. rewrite Hv. apply rsi_of_saturates; assumption.
  - intros i d v H Hi. unfold compute_rsi in H. apply nth_error_combine in H.
    destruct H as [_ H]. pose proof (rsi_values_warmup _ _ _ _ H Hi) as Hn.
    split; [exact Hn|]. intros Hin. apply dropna_not_nan in Hin. congruence.
Qed.

Lemma rsi_bounds_and_warmup_witness :
  In (15%Z, 100) (dropna (compute_rsi rising_prices 14)) /\
  (0 <=? 100) = true /\ (100 <=? 100) = true /\
  nth_error (compute_rsi rising_prices 14) 13 = Some (13%Z, PrimFloat.nan) /\
  isna PrimFloat.nan = true.
Proof.
  destruct (rsi_bounds_and_warmup rising_prices) as [Hb Hw].
  assert (Hin : In (15%Z, 100) (dropna (compute_rsi rising_prices 14)))
    by (vm_compute; right; left; reflexivity).
  assert (Hn : nth_error (compute_rsi rising_prices 14) 13 = Some (13%Z, PrimFloat.nan))
    by (vm_compute; reflexivity).
  assert (H15 : nth_error (compute_rsi rising_prices 14) 15 = Some (15%Z, 100))
    by (vm_compute; reflexivity).
  split; [exact Hin|].
  destruct (Hb 15%nat 15%Z 100 H15) as [g [a [Hg [Ha [_ [Hr _]]]]]].
  vm_compute in Hg. injection Hg as <-.
  vm_compute in Ha. injection Ha as <-.
  destruct (Hr eq_refl eq_refl eq_refl) as [H0 H100].
  split; [exact H0|]. split; [exact H100|]. split; [exact Hn|].
  apply (Hw 13%nat 13%Z PrimFloat.nan Hn). lia.
Defined.

(** C3 as stated fails: on eighteen prices with one far outlier the
    running sum of the losses ends below zero and the last point of the
    RSI(14) series is above 100. *)
Lemma rsi_above_100 :
  ~ (forall (s : Series) d v,
        In (d, v) (dropna (compute_rsi s 14)) ->
        (0 <=? v) = true /\ (v <=? 100) = true).
Proof.
  intros H.
  assert (Hin : exists v, In (17%Z, v) (dropna (compute_rsi spike_prices 14)) /\
                          (v <=? 100) = false).
  { eexists. split; [vm_compute; do 3 right; left; reflexivity|].
    vm_compute. reflexivity. }
  destruct Hin as [v [Hin Hv]]. destruct (H _ _ _ Hin) as [_ H100]. congruence.
Qed.


(** * The run as a whole *)

Lemma advanced_advanced cs1 s1 cs2 s2 st :
  advanced cs2 s2 (advanced cs1 s1 st) = advanced (cs1 ++ cs2) (s1 ++ s2) st.
Proof. unfold advanced. cbn [calls signals docs_signals_json]. rewrite !app_assoc. reflexivity. Qed.

Lemma logged_advanced code st : logged code st = advanced [code] [] st.
Proof. unfold logged, advanced. rewrite app_nil_r. reflexivity. Qed.

Lemma bind_run {A B} (m : M A) (k : A -> M B) st a st' :
  m st = (Ok a, st') -> bind m k st = k a st'.
Proof. intros H. unfold bind. rewrite H. reflexivity. Qed.

Lemma fetch_series_run fred code st :
  only_exceptions fred ->
  fetch_series fred code st = (Ok (fetched fred code), logged code st).
Proof.
  intros H. destruct (fetch_series_cases fred code st) as [E|[e E]]; [exact E|].
  exfalso. unfold fetch_series, bind, try_except_Exception, get_series in E.
  destruct (fred code) as [s|e'] eqn:F; [discriminate|].
  rewrite (H code e' F) in E. discriminate.
Qed.

(** The tail of every block on the series it ends with, when the block has
    checked that the series is not empty. *)
Lemma emit_run (s : Series) id_ desc_ st :
  s <> [] ->
  (val <- iloc_last s ;;
   z_ <- iloc_last (zscore s) ;;
   append {| id := id_; value := val; z := z_; desc := desc_ |}) st
  = (Ok tt, advanced [] (signal_of s id_ desc_) st).
Proof.
  intros Hs. unfold signal_of.
  destruct (last_opt s) as [[d v]|] eqn:E; [|apply last_opt_None in E; contradiction].
  unfold bind at 1. unfold iloc_last at 1. rewrite E. unfold ret at 1.
  unfold bind at 1. unfold iloc_last at 1. rewrite last_opt_zscore, E.
  cbn [option_map fst snd ret]. unfold append, advanced. rewrite app_nil_r.
  reflexivity.
Qed.

Lemma signal_of_nil id_ desc_ : signal_of [] id_ desc_ = [].
Proof. reflexivity. Qed.

Lemma simple_extractor_run fred key id_ desc_ code st :
  only_exceptions fred ->
  assoc key series = Some code ->
  simple_extractor fred key id_ desc_ st
  = (Ok (dropna (fetched fred code)),
     advanced [code] (signal_of (dropna (fetched fred code)) id_ desc_) st).
Proof.
  intros H Hk.
  pose proof (fetch_series_run fred code st H) as Hf.
  unfold signal_of.
  destruct (last_opt (dropna (fetched fred code))) as [[d v]|] eqn:E.
  - rewrite (simple_extractor_emits fred key id_ desc_ code _ d v st Hk Hf E).
    reflexivity.
  - apply last_opt_None in E.
    rewrite (simple_extractor_skips fred key id_ desc_ code _ st Hk Hf E).
    rewrite E, logged_advanced. reflexivity.
Qed.

Lemma underlying_net_liquidity fred :
  underlying fred "net_liquidity"
  = if empty (fetched fred "WALCL") then []
    else net_liquidity_series (fetched fred "WALCL")
           (fetched fred "RRPONTSYD") (fetched fred "WTREGEN").
Proof. reflexivity. Qed.

Lemma frame_fails_no_series fred :
  frame_fails fred = true -> underlying fred "net_liquidity" = [].
Proof.
  unfold frame_fails. rewrite underlying_net_liquidity.
  destruct (empty (fetched fred "WALCL")); [reflexivity|]. cbn [negb andb].
  intros H. apply net_liquidity_series_missing_input.
  apply orb_true_iff in H. destruct H as [H|H]; apply empty_true in H; auto.
Qed.

Lemma net_liquidity_block_run fred st :
  only_exceptions fred ->
  net_liquidity_block fred st
  = (if frame_fails fred then Raise TypeError else Ok tt,
     advanced ["WALCL"; "RRPONTSYD"; "WTREGEN"]
       (signal_of (underlying fred "net_liquidity") "net_liquidity"
          "Net liquidity = Fed balance sheet minus reverse repo and Treasury cash; rising liquidity supports risk assets.")
       st).
Proof.
  intros H. destruct (frame_fails fred) eqn:Ef.
  - rewrite (frame_fails_no_series fred Ef).
    unfold frame_fails in Ef. apply andb_true_iff in Ef. destruct Ef as [Ew Ee].
    apply negb_true_iff, empty_false in Ew.
    rewrite (net_liquidity_block_empty_input fred st H Ew).
    + rewrite !logged_advanced, !advanced_advanced. reflexivity.
    + apply orb_true_iff in Ee. destruct Ee as [E|E]; apply empty_true in E; auto.
  - unfold net_liquidity_block, series_get. simpl assoc. cbv iota.
    unfold bind at 1. unfold ret at 1.
    rewrite (bind_run _ _ _ _ _ (fetch_series_run fred "WALCL" st H)).
    unfold bind at 1. unfold ret at 1.
    rewrite (bind_run _ _ _ _ _ (fetch_series_run fred "RRPONTSYD" _ H)).
    unfold bind at 1. unfold ret at 1.
    rewrite (bind_run _ _ _ _ _ (fetch_series_run fred "WTREGEN" _ H)).
    rewrite !logged_advanced, !advanced_advanced. cbn [app].
    rewrite underlying_net_liquidity. unfold frame_fails in Ef.
    destruct (empty (fetched fred "WALCL")) eqn:Ew; cbn [negb]; [reflexivity|].
    cbn [negb andb] in Ef. apply orb_false_iff in Ef. destruct Ef as [Er Et].
    cbv zeta. unfold resample_D_ffill.
    rewrite datetime_index_frame, Ew, Er, Et. cbn [negb andb].
    unfold bind at 1. unfold ret at 1.
    fold (aligned_frame (fetched fred "WALCL") (fetched fred "RRPONTSYD")
            (fetched fred "WTREGEN")).
    fold (net_liquidity_series (fetched fred "WALCL") (fetched fred "RRPONTSYD")
            (fetched fred "WTREGEN")).
    destruct (net_liquidity_series (fetched fred "WALCL") (fetched fred "RRPONTSYD")
                (fetched fred "WTREGEN")) as [|p nl] eqn:En; [reflexivity|].
    cbn [empty negb]. rewrite emit_run by discriminate.
    rewrite advanced_advanced. reflexivity.
Qed.

Lemma spx_rsi14_block_run fred st :
  only_exceptions fred ->
  spx_rsi14_block fred st
  = (Ok tt,
     advanced ["SP500"]
       (signal_of (underlying fred "spx_rsi14") "spx_rsi14"
          "S&P 500 RSI (14-day); measures momentum; overbought >70, oversold <30.")
       st).
Proof.
  intros H. unfold spx_rsi14_block, series_get. simpl assoc. cbv iota.
  unfold bind at 1. unfold ret at 1.
  rewrite (bind_run _ _ _ _ _ (fetch_series_run fred "SP500" st H)).
  rewrite logged_advanced.
  change (underlying fred "spx_rsi14")
    with (dropna (compute_rsi (dropna (fetched fred "SP500")) 14)).
  destruct (dropna (fetched fred "SP500")) as [|q spx] eqn:Es; [reflexivity|].
  cbn [empty negb]. cbv zeta.
  destruct (dropna (compute_rsi (q :: spx) 14)) as [|p r] eqn:Er; [reflexivity|].
  cbn [empty negb]. rewrite emit_run by discriminate.
  rewrite advanced_advanced. reflexivity.
Qed.

Lemma vix_term_block_run fred st :
  only_exceptions fred ->
  vix_term_block fred (dropna (fetched fred "VIXCLS")) st
  = (if vix_join_empty fred then Raise IndexError else Ok tt,
     advanced ["VXVCLS"]
       (signal_of (underlying fred "vix_term") "vix_term"
          "VIX term structure (VIX minus VIX3M); positive spread indicates backwardation (stress).")
       st).
Proof.
  intros H. unfold vix_term_block, series_get. simpl assoc. cbv iota.
  unfold bind at 1. unfold ret at 1.
  rewrite (bind_run _ _ _ _ _ (fetch_series_run fred "VXVCLS" st H)).
  rewrite logged_advanced. unfold vix_join_empty.
  change (underlying fred "vix_term")
    with (if empty (dropna (fetched fred "VIXCLS"))
             || empty (dropna (fetched fred "VXVCLS")) then []
          else spread_series (dropna (fetched fred "VIXCLS"))
                             (dropna (fetched fred "VXVCLS"))).
  destruct (empty (dropna (fetched fred "VIXCLS"))) eqn:E1; cbn [negb andb orb];
    [reflexivity|].
  destruct (empty (dropna (fetched fred "VXVCLS"))) eqn:E2; cbn [negb andb orb];
    [reflexivity|].
  cbv zeta.
  fold (spread_series (dropna (fetched fred "VIXCLS")) (dropna (fetched fred "VXVCLS"))).
  destruct (spread_series (dropna (fetched fred "VIXCLS")) (dropna (fetched fred "VXVCLS")))
    as [|p sp] eqn:Es.
  - reflexivity.
  - cbn [empty]. rewrite emit_run by discriminate.
    rewrite advanced_advanced. reflexivity.
Qed.

Lemma bind_raise {A B} (m : M A) (k : A -> M B) st e st' :
  m st = (Raise e, st') -> bind m k st = (Raise e, st').
Proof. intros H. unfold bind. rewrite H. reflexivity. Qed.

(** The whole run when the provider fails with [Exception]s only.  When
    the frame of the net_liquidity block has no [DatetimeIndex] the run
    stops in that block on [TypeError], after eight requests and with the
    signals of the five blocks before it.  Otherwise it makes the twelve
    requests in order and collects the signals of the non-empty series in
    catalog order; it writes the file with that list, unless the two VIX
    series have observations and no date in common, in which case it ends
    on [IndexError] without writing. *)
Lemma main_run_eq :
  forall float_repr fred,
    only_exceptions fred ->
    main float_repr fred initial
    = if frame_fails fred then
        (Raise TypeError,
         {| calls := firstn 8 request_order;
            signals := signals_of fred (firstn 5 catalog);
            docs_signals_json := None |})
      else
        (if vix_join_empty fred then Raise IndexError else Ok tt,
         {| calls := request_order;
            signals := expected_signals fred;
            docs_signals_json :=
              if vix_join_empty fred then None
              else Some (json_dump float_repr (expected_signals fred)) |}).
Proof.
  intros float_repr fred H. unfold main.
  unfold real_yield_block, breakeven_block, usd_block, hy_oas_block,
    ig_oas_block, claims_block, vix_level_block.
  rewrite (bind_run _ _ _ _ _
             (simple_extractor_run fred "real_yield" _ _ "DFII10" _ H eq_refl)).
  rewrite (bind_run _ _ _ _ _
             (simple_extractor_run fred "breakeven" _ _ "T10YIE" _ H eq_refl)).
  rewrite (bind_run _ _ _ _ _
             (simple_extractor_run fred "usd" _ _ "DTWEXBGS" _ H eq_refl)).
  rewrite (bind_run _ _ _ _ _
             (simple_extractor_run fred "hy_oas" _ _ "BAMLH0A0HYM2" _ H eq_refl)).
  rewrite (bind_run _ _ _ _ _
             (simple_extractor_run fred "ig_oas" _ _ "BAMLC0A0CM" _ H eq_refl)).
  pose proof (net_liquidity_block_run fred) as Hnl.
  destruct (frame_fails fred) eqn:Ef.
  - rewrite (bind_raise _ _ _ _ _ (Hnl _ H)).
    rewrite (frame_fails_no_series fred Ef). rewrite !advanced_advanced.
    unfold advanced, signals_of.
    cbn [calls signals docs_signals_json initial app flat_map catalog
         request_order firstn fst snd signal_of last_opt].
    rewrite ?app_nil_r. reflexivity.
  - rewrite (bind_run _ _ _ _ _ (Hnl _ H)).
    rewrite (bind_run _ _ _ _ _
               (simple_extractor_run fred "claims" _ _ "ICSA" _ H eq_refl)).
    rewrite (bind_run _ _ _ _ _ (spx_rsi14_block_run fred _ H)).
    rewrite (bind_run _ _ _ _ _
               (simple_extractor_run fred "vix" _ _ "VIXCLS" _ H eq_refl)).
    unfold bind. rewrite (vix_term_block_run fred _ H).
    rewrite !advanced_advanced.
    destruct (vix_join_empty fred);
      unfold write_signals, advanced, expected_signals, signals_of;
      cbn [calls signals docs_signals_json initial app flat_map catalog fst snd];
      rewrite ?app_nil_r; reflexivity.
Qed.

(** X1: when the provider fails with [Exception]s only, a run is determined
    by the provider.  If the balance-sheet series has observations and the
    reverse-repo or the treasury-cash series has none, the run stops in the
    net_liquidity block on [TypeError], after eight requests, with the
    signals of the five blocks before it and without a file.  Otherwise it
    makes the twelve requests in the order of the script, it collects for
    each block, in block order, the signal of the series the block ends with
    when that series is not empty, and it writes the dump of that list; the
    one exception is the run in which both VIX series have observations but
    no date in common, which raises [IndexError] after the requests and
    writes nothing. *)
Theorem run_functional_spec :
  forall float_repr fred,
    only_exceptions fred ->
    main float_repr fred initial
    = if frame_fails fred then
        (Raise TypeError,
         {| calls := firstn 8 request_order;
            signals := signals_of fred (firstn 5 catalog);
            docs_signals_json := None |})
      else
        (if vix_join_empty fred then Raise IndexError else Ok tt,
         {| calls := request_order;
            signals := expected_signals fred;
            docs_signals_json :=
              if vix_join_empty fred then None
              else Some (json_dump float_repr (expected_signals fred)) |}).
Proof. exact main_run_eq. Qed.

Lemma run_functional_spec_witness :
  main (fun _ => "2.0") overlapping_vix_provider initial
  = (Ok tt,
     {| calls := request_order;
        signals := expected_signals overlapping_vix_provider;
        docs_signals_json :=
          Some (json_dump (fun _ => "2.0")
                  (expected_signals overlapping_vix_provider)) |}).
Proof.
  apply (run_functional_spec (fun _ => "2.0") overlapping_vix_provider).
  intros code e. unfold overlapping_vix_provider.
  destruct (String.eqb code "VIXCLS"); [discriminate|].
  destruct (String.eqb code "VXVCLS"); [discriminate|].
  intros [= <-]. reflexivity.
Defined.

(** ** Order and uniqueness of the signals *)

Lemma subseq_nil_l {A} (b : list A) : subseq [] b.
Proof. induction b; constructor; assumption. Qed.

Lemma subseq_app {A} (a1 b1 a2 b2 : list A) :
  subseq a1 b1 -> subseq a2 b2 -> subseq (a1 ++ a2) (b1 ++ b2).
Proof.
  intros H1 H2. induction H1; simpl; try (constructor; assumption). exact H2.
Qed.

Lemma subseq_In {A} (a b : list A) (x : A) : subseq a b -> In x a -> In x b.
Proof.
  induction 1; simpl; intros Hin; [exact Hin|right; auto|].
  destruct Hin as [->|Hin]; [left; reflexivity|right; auto].
Qed.

Lemma subseq_NoDup {A} (a b : list A) : subseq a b -> NoDup b -> NoDup a.
Proof.
  induction 1 as [|x a b H IH|x a b H IH]; intros Hn.
  - constructor.
  - inversion Hn; subst. auto.
  - inversion Hn as [|? ? Hx Hb]; subst. constructor; [|auto].
    intros Hin. apply Hx. apply (subseq_In _ _ _ H Hin).
Qed.

Lemma subseq_length {A} (a b : list A) :
  subseq a b -> (List.length a <= List.length b)%nat.
Proof. induction 1; simpl; lia. Qed.

Lemma subseq_map {A B} (f : A -> B) (a b : list A) :
  subseq a b -> subseq (map f a) (map f b).
Proof. induction 1; simpl; constructor; assumption. Qed.

Lemma emits_ret {A} ls (a : A) : emits ls (ret a).
Proof.
  intros st. exists []. split; [symmetry; apply app_nil_r|apply subseq_nil_l].
Qed.

Lemma emits_raise {A} ls (e : pyexn) : emits ls (@raise A e).
Proof.
  intros st. exists []. split; [symmetry; apply app_nil_r|apply subseq_nil_l].
Qed.

Lemma emits_bind {A B} l1 l2 (m : M A) (k : A -> M B) :
  emits l1 m -> (forall a, emits l2 (k a)) -> emits (l1 ++ l2) (bind m k).
Proof.
  intros Hm Hk st. unfold bind.
  destruct (Hm st) as [out1 [E1 S1]].
  destruct (m st) as [[a|e] st']; cbn [snd] in *.
  - destruct (Hk a st') as [out2 [E2 S2]].
    exists (out1 ++ out2). split.
    + rewrite E2, E1. symmetry. apply app_assoc.
    + rewrite map_app. apply subseq_app; assumption.
  - exists out1. split; [exact E1|].
    rewrite <- (app_nil_r (map label out1)).
    apply subseq_app; [exact S1|apply subseq_nil_l].
Qed.

Lemma emits_series_get key : emits [] (series_get key).
Proof.
  unfold series_get. destruct (assoc key series); [apply emits_ret|apply emits_raise].
Qed.

Lemma emits_fetch_series fred code : emits [] (fetch_series fred code).
Proof.
  intros st. exists []. split; [|constructor]. rewrite app_nil_r.
  destruct (fetch_series_cases fred code st) as [E|[e E]]; rewrite E; reflexivity.
Qed.

Lemma emits_iloc_last (s : Series) : emits [] (iloc_last s).
Proof.
  unfold iloc_last. destruct (last_opt s); [apply emits_ret|apply emits_raise].
Qed.

Lemma emits_append (sg : Signal) : emits [label sg] (append sg).
Proof.
  intros st. exists [sg]. split; [reflexivity|].
  apply subseq_take. apply subseq_nil.
Qed.

Lemma emits_emit (s : Series) id_ desc_ :
  emits [(id_, desc_)]
    (val <- iloc_last s ;;
     z_ <- iloc_last (zscore s) ;;
     append {| id := id_; value := val; z := z_; desc := desc_ |}).
Proof.
  apply (emits_bind [] [(id_, desc_)]); [apply emits_iloc_last|]. intros v.
  apply (emits_bind [] [(id_, desc_)]); [apply emits_iloc_last|]. intros x.
  apply (emits_append {| id := id_; value := v; z := x; desc := desc_ |}).
Qed.

Lemma emits_simple_extractor fred key id_ desc_ :
  emits [(id_, desc_)] (simple_extractor fred key id_ desc_).
Proof.
  unfold simple_extractor.
  apply (emits_bind [] [(id_, desc_)]); [apply emits_series_get|]. intros c.
  apply (emits_bind [] [(id_, desc_)]); [apply emits_fetch_series|]. intros raw.
  destruct (empty (dropna raw)); cbn [negb]; [apply emits_ret|].
  apply (emits_bind [] [(id_, desc_)]); [apply emits_iloc_last|]. intros v.
  apply (emits_bind [] [(id_, desc_)]); [apply emits_iloc_last|]. intros x.
  apply (emits_bind [(id_, desc_)] []);
    [apply (emits_append {| id := id_; value := v; z := x; desc := desc_ |})|].
  intros _. apply emits_ret.
Qed.

Lemma emits_resample_D_ffill (df : DataFrame) : emits [] (resample_D_ffill df).
Proof.
  unfold resample_D_ffill.
  destruct (datetime_index df); [apply emits_ret|apply emits_raise].
Qed.

Lemma emits_net_liquidity_block fred :
  emits [("net_liquidity",
          "Net liquidity = Fed balance sheet minus reverse repo and Treasury cash; rising liquidity supports risk assets.")]
    (net_liquidity_block fred).
Proof.
  unfold net_liquidity_block.
  apply (emits_bind [] [_]); [apply emits_series_get|]. intros c1.
  apply (emits_bind [] [_]); [apply emits_fetch_series|]. intros walcl.
  apply (emits_bind [] [_]); [apply emits_series_get|]. intros c2.
  apply (emits_bind [] [_]); [apply emits_fetch_series|]. intros rrp.
  apply (emits_bind [] [_]); [apply emits_series_get|]. intros c3.
  apply (emits_bind [] [_]); [apply emits_fetch_series|]. intros tga.
  destruct (empty walcl); cbn [negb]; [apply emits_ret|]. cbv zeta.
  apply (emits_bind [] [_]); [apply emits_resample_D_ffill|]. intros df.
  match goal with
  | |- emits _ (if negb (empty ?s) then _ else _) => destruct (empty s); cbn [negb]
  end; [apply emits_ret|apply emits_emit].
Qed.

Lemma emits_spx_rsi14_block fred :
  emits [("spx_rsi14",
          "S&P 500 RSI (14-day); measures momentum; overbought >70, oversold <30.")]
    (spx_rsi14_block fred).
Proof.
  unfold spx_rsi14_block.
  apply (emits_bind [] [_]); [apply emits_series_get|]. intros c.
  apply (emits_bind [] [_]); [apply emits_fetch_series|]. intros raw.
  destruct (empty (dropna raw)); cbn [negb]; [apply emits_ret|]. cbv zeta.
  match goal with
  | |- emits _ (if negb (empty ?s) then _ else _) => destruct (empty s); cbn [negb]
  end; [apply emits_ret|apply emits_emit].
Qed.

Lemma emits_vix_term_block fred vix :
  emits [("vix_term",
          "VIX term structure (VIX minus VIX3M); positive spread indicates backwardation (stress).")]
    (vix_term_block fred vix).
Proof.
  unfold vix_term_block.
  apply (emits_bind [] [_]); [apply emits_series_get|]. intros c.
  apply (emits_bind [] [_]); [apply emits_fetch_series|]. intros raw.
  destruct (negb (empty vix) && negb (empty (dropna raw)));
    [apply emits_emit|apply emits_ret].
Qed.

Lemma emits_main float_repr fred : emits catalog (main float_repr fred).
Proof.
  unfold main, catalog.
  apply (emits_bind [_] (_ :: _)); [apply emits_simple_extractor|]. intros _.
  apply (emits_bind [_] (_ :: _)); [apply emits_simple_extractor|]. intros _.
  apply (emits_bind [_] (_ :: _)); [apply emits_simple_extractor|]. intros _.
  apply (emits_bind [_] (_ :: _)); [apply emits_simple_extractor|]. intros _.
  apply (emits_bind [_] (_ :: _)); [apply emits_simple_extractor|]. intros _.
  apply (emits_bind [_] (_ :: _)); [apply emits_net_liquidity_block|]. intros _.
  apply (emits_bind [_] (_ :: _)); [apply emits_simple_extractor|]. intros _.
  apply (emits_bind [_] (_ :: _)); [apply emits_spx_rsi14_block|]. intros _.
  apply (emits_bind [_] (_ :: _)); [apply emits_simple_extractor|]. intros vix.
  apply (emits_bind [_] []); [apply emits_vix_term_block|]. intros _.
  intros st. exists []. split; [symmetry; apply app_nil_r|constructor].
Qed.

(** X2: in every run, cut short or not, the signals come in the order of the
    catalog, each with the description of its id, at most once each: no two
    signals share an id and there are at most ten. *)
Theorem signals_follow_catalog :
  forall float_repr fred,
    let sigs := signals (snd (main float_repr fred initial)) in
    subseq (map label sigs) catalog /\
    NoDup (map id sigs) /\
    (List.length sigs <= 10)%nat.
Proof.
  intros float_repr fred sigs. subst sigs.
  destruct (emits_main float_repr fred initial) as [out [E S]].
  rewrite E. cbn [signals initial app]. split; [exact S|]. split.
  - apply (subseq_map fst) in S. rewrite map_map in S. cbn [label fst] in S.
    apply (subseq_NoDup _ _ S).
    cbn. repeat (constructor; [cbn; intuition discriminate|]). constructor.
  - apply subseq_length in S. rewrite length_map in S. exact S.
Qed.

(** ** Which signals a run collects *)

Lemma map_id_signal_of (s : Series) id_ desc_ :
  map id (signal_of s id_ desc_) = if empty s then [] else [id_].
Proof.
  unfold signal_of. destruct s as [|p s]; [reflexivity|].
  destruct (last_opt (p :: s)) as [[d v]|] eqn:E; [reflexivity|].
  apply last_opt_None in E. discriminate.
Qed.

Lemma underlying_known fred id_ :
  underlying fred id_ <> [] -> In id_ (map fst catalog).
Proof.
  unfold underlying. intros H.
  repeat match type of H with
         | context [String.eqb id_ ?k] =>
             destruct (String.eqb_spec id_ k);
             [subst; cbn; auto 12|]
         end.
  contradiction.
Qed.

Lemma In_map_flat_map {A B C} (f : B -> C) (g : A -> list B) (l : list A) x :
  In x (map f (flat_map g l)) <-> exists e, In e l /\ In x (map f (g e)).
Proof.
  rewrite in_map_iff. split.
  - intros [b [Hb Hin]]. apply in_flat_map in Hin. destruct Hin as [e [He Hin]].
    exists e. split; [exact He|]. apply in_map_iff. exists b. auto.
  - intros [e [He Hin]]. apply in_map_iff in Hin. destruct Hin as [b [Hb Hin]].
    exists b. split; [exact Hb|]. apply in_flat_map. exists e. auto.
Qed.

Lemma In_ids_expected_signals fred id_ :
  In id_ (map id (expected_signals fred)) <-> underlying fred id_ <> [].
Proof.
  unfold expected_signals, signals_of. rewrite In_map_flat_map. split.
  - intros [[i d] [_ Hin]]. cbn [fst snd] in Hin.
    rewrite map_id_signal_of in Hin.
    destruct (underlying fred i) eqn:E; cbn in Hin; [contradiction|].
    destruct Hin as [<-|[]]. rewrite E. discriminate.
  - intros H. pose proof (underlying_known _ _ H) as Hk.
    apply in_map_iff in Hk. destruct Hk as [[i d] [Hi Hk]].
    cbn [fst] in Hi. subst i. exists (id_, d). split; [exact Hk|].
    cbn [fst snd]. rewrite map_id_signal_of.
    destruct (underlying fred id_); [contradiction|]. left. reflexivity.
Qed.

(** X3: when the provider fails with [Exception]s only and the frame of
    the net_liquidity block has a [DatetimeIndex], so that the run is not
    stopped there, the run collects a signal with a given id exactly when
    the series that signal is computed from is not empty. *)
Theorem signal_present_iff_data :
  forall float_repr fred id_,
    only_exceptions fred ->
    frame_fails fred = false ->
    (In id_ (map id (signals (snd (main float_repr fred initial))))
     <-> underlying fred id_ <> []).
Proof.
  intros float_repr fred id_ H Hf. rewrite (main_run_eq float_repr fred H), Hf.
  cbn [snd signals]. apply In_ids_expected_signals.
Qed.

Lemma signal_present_iff_data_witness :
  In "real_yield"
     (map id (signals (snd (main (fun _ => "2.0") flat_real_yield_provider initial))))
  <-> underlying flat_real_yield_provider "real_yield" <> [].
Proof.
  apply (signal_present_iff_data (fun _ => "2.0") flat_real_yield_provider).
  - intros code e. unfold flat_real_yield_provider.
    destruct (String.eqb code "DFII10"); [discriminate|].
    intros [= <-]. reflexivity.
  - reflexivity.
Defined.

(** ** A run without data *)

Lemma at_date_all_missing (d : date) (s : Series) :
  dropna s = [] -> isna (at_date d s) = true.
Proof.
  induction s as [|[d' v] s IH]; [reflexivity|].
  unfold dropna. cbn [filter snd at_date].
  destruct (isna v) eqn:E; cbn [negb]; [|discriminate].
  intros H. destruct (d =? d')%Z; [exact E|]. apply IH, H.
Qed.

Lemma net_liquidity_series_all_missing walcl rrp tga :
  dropna walcl = [] \/ dropna rrp = [] \/ dropna tga = [] ->
  net_liquidity_series walcl rrp tga = [].
Proof.
  intros H.
  destruct (net_liquidity_series walcl rrp tga) as [|[d v] l] eqn:E;
    [reflexivity|].
  assert (Hin : In (d, v) (net_liquidity_series walcl rrp tga))
    by (rewrite E; left; reflexivity).
  apply net_liquidity_series_In in Hin. destruct Hin as [r [Hr [Hv Hn]]].
  apply aligned_frame_rows_In in Hr. destruct Hr as [d0 ->]. subst v.
  rewrite isna_net_liquidity_of in Hn; [discriminate|].
  cbn [column_of String.eqb Ascii.eqb Bool.eqb].
  destruct H as [H|[H|H]];
    [left|right; left|right; right]; apply at_date_all_missing, H.
Qed.

Lemma underlying_no_data fred id_ : no_data fred -> underlying fred id_ = [].
Proof.
  intros H. unfold underlying. rewrite !H.
  rewrite (net_liquidity_series_all_missing _ _ _ (or_introl (H "WALCL"))).
  repeat match goal with
         | |- context [if ?b then _ else _] => destruct b
         end; reflexivity.
Qed.

Lemma flat_map_nil {A B} (f : A -> list B) (l : list A) :
  (forall a, f a = []) -> flat_map f l = [].
Proof.
  intros H. induction l as [|a l IH]; [reflexivity|].
  cbn [flat_map]. rewrite H, IH. reflexivity.
Qed.

(** X4: when the provider fails with [Exception]s only, no series it
    returns has an observation left once the missing ones are dropped, and
    the frame of the net_liquidity block has a [DatetimeIndex] (the
    balance-sheet series is empty, or the three series all have rows), the
    run still makes its twelve requests and returns normally, it collects no
    signal, and the file it writes is the empty JSON list. *)
Theorem run_without_data_writes_empty_list :
  forall float_repr fred,
    only_exceptions fred ->
    no_data fred ->
    frame_fails fred = false ->
    main float_repr fred initial
    = (Ok tt,
       {| calls := request_order;
          signals := [];
          docs_signals_json := Some "[]" |}).
Proof.
  intros float_repr fred H Hn Hf. rewrite (main_run_eq float_repr fred H), Hf.
  assert (Hv : vix_join_empty fred = false)
    by (unfold vix_join_empty; rewrite !Hn; reflexivity).
  assert (He : expected_signals fred = []).
  { unfold expected_signals, signals_of. apply flat_map_nil. intros [i d].
    cbn [fst snd]. rewrite (underlying_no_data fred i Hn). reflexivity. }
  rewrite Hv, He. reflexivity.
Qed.

Lemma run_without_data_writes_empty_list_witness :
  main (fun _ => "2.0") all_missing_provider initial
  = (Ok tt,
     {| calls := request_order;
        signals := [];
        docs_signals_json := Some "[]" |}).
Proof.
  apply (run_without_data_writes_empty_list (fun _ => "2.0") all_missing_provider).
  - intros code e. unfold all_missing_provider. discriminate.
  - intros code. reflexivity.
  - reflexivity.
Defined.

(** ** How a run ends *)

Lemma guarded_ret {A} fred (a : A) : guarded fred (ret a).
Proof. intros st. split; [reflexivity|]. intros e. discriminate. Qed.

Lemma guarded_bind {A B} fred (m : M A) (k : A -> M B) :
  guarded fred m -> (forall a, guarded fred (k a)) -> guarded fred (bind m k).
Proof.
  intros Hm Hk st. unfold bind. destruct (Hm st) as [D R].
  destruct (m st) as [[a|e] st']; cbn [fst snd] in *.
  - destruct (Hk a st') as [D' R']. split; [congruence|exact R'].
  - split; [exact D|]. intros e' [= <-]. apply R. reflexivity.
Qed.

Lemma guarded_series_get fred key code :
  assoc key series = Some code -> guarded fred (series_get key).
Proof. intros H. unfold series_get. rewrite H. apply guarded_ret. Qed.

Lemma guarded_resample_D_ffill fred (df : DataFrame) :
  guarded fred (resample_D_ffill df).
Proof.
  unfold resample_D_ffill. destruct (datetime_index df); [apply guarded_ret|].
  intros st. split; [reflexivity|]. intros e [= <-]. right. left. reflexivity.
Qed.

Lemma guarded_fetch_series fred code : guarded fred (fetch_series fred code).
Proof.
  intros st. unfold fetch_series, bind, try_except_Exception, get_series.
  destruct (fred code) as [s|e] eqn:E; cbn [fst snd docs_signals_json].
  - split; [reflexivity|]. intros e. discriminate.
  - destruct (is_Exception e) eqn:He; cbn [fst snd docs_signals_json ret];
      (split; [reflexivity|]); intros e'; [discriminate|].
    intros [= <-]. right. right. split; [exact He|]. exists code. exact E.
Qed.

Lemma guarded_iloc_last fred (s : Series) : guarded fred (iloc_last s).
Proof.
  unfold iloc_last. destruct (last_opt s); [apply guarded_ret|].
  intros st. split; [reflexivity|]. intros e [= <-]. left. reflexivity.
Qed.

Lemma guarded_append fred (sg : Signal) : guarded fred (append sg).
Proof. intros st. split; [reflexivity|]. intros e. discriminate. Qed.

Lemma guarded_emit fred (s : Series) id_ desc_ :
  guarded fred
    (val <- iloc_last s ;;
     z_ <- iloc_last (zscore s) ;;
     append {| id := id_; value := val; z := z_; desc := desc_ |}).
Proof.
  apply guarded_bind; [apply guarded_iloc_last|]. intros v.
  apply guarded_bind; [apply guarded_iloc_last|]. intros x.
  apply guarded_append.
Qed.

Lemma guarded_simple_extractor fred key id_ desc_ code :
  assoc key series = Some code ->
  guarded fred (simple_extractor fred key id_ desc_).
Proof.
  intros Hk. unfold simple_extractor.
  apply guarded_bind; [apply (guarded_series_get fred key code Hk)|]. intros c.
  apply guarded_bind; [apply guarded_fetch_series|]. intros raw.
  destruct (empty (dropna raw)); cbn [negb]; [apply guarded_ret|].
  apply guarded_bind; [apply guarded_iloc_last|]. intros v.
  apply guarded_bind; [apply guarded_iloc_last|]. intros x.
  apply guarded_bind; [apply guarded_append|]. intros _. apply guarded_ret.
Qed.

Lemma guarded_net_liquidity_block fred : guarded fred (net_liquidity_block fred).
Proof.
  unfold net_liquidity_block.
  apply guarded_bind; [apply (guarded_series_get fred "walcl" "WALCL" eq_refl)|]. intros c1.
  apply guarded_bind; [apply guarded_fetch_series|]. intros walcl.
  apply guarded_bind; [apply (guarded_series_get fred "rrp" "RRPONTSYD" eq_refl)|]. intros c2.
  apply guarded_bind; [apply guarded_fetch_series|]. intros rrp.
  apply guarded_bind; [apply (guarded_series_get fred "tga" "WTREGEN" eq_refl)|]. intros c3.
  apply guarded_bind; [apply guarded_fetch_series|]. intros tga.
  destruct (empty walcl); cbn [negb]; [apply guarded_ret|]. cbv zeta.
  apply guarded_bind; [apply guarded_resample_D_ffill|]. intros df.
  match goal with
  | |- guarded _ (if negb (empty ?s) then _ else _) => destruct (empty s); cbn [negb]
  end; [apply guarded_ret|apply guarded_emit].
Qed.

Lemma guarded_spx_rsi14_block fred : guarded fred (spx_rsi14_block fred).
Proof.
  unfold spx_rsi14_block.
  apply guarded_bind; [apply (guarded_series_get fred "spx" "SP500" eq_refl)|]. intros c.
  apply guarded_bind; [apply guarded_fetch_series|]. intros raw.
  destruct (empty (dropna raw)); cbn [negb]; [apply guarded_ret|]. cbv zeta.
  match goal with
  | |- guarded _ (if negb (empty ?s) then _ else _) => destruct (empty s); cbn [negb]
  end; [apply guarded_ret|apply guarded_emit].
Qed.

Lemma guarded_vix_term_block fred vix : guarded fred (vix_term_block fred vix).
Proof.
  unfold vix_term_block.
  apply guarded_bind; [apply (guarded_series_get fred "vix3m" "VXVCLS" eq_refl)|]. intros c.
  apply guarded_bind; [apply guarded_fetch_series|]. intros raw.
  destruct (negb (empty vix) && negb (empty (dropna raw)));
    [apply guarded_emit|apply guarded_ret].
Qed.

Lemma ends_well_bind {A} float_repr fred (m : M A) (k : A -> M unit) :
  guarded fred m -> (forall a, ends_well float_repr fred (k a)) ->
  ends_well float_repr fred (bind m k).
Proof.
  intros Hm Hk st Hst. unfold bind. destruct (Hm st) as [D R].
  destruct (m st) as [[a|e] st']; cbn [fst snd] in *.
  - apply Hk. congruence.
  - split; [congruence|apply R; reflexivity].
Qed.

Lemma ends_well_main float_repr fred : ends_well float_repr fred (main float_repr fred).
Proof.
  unfold main, real_yield_block, breakeven_block, usd_block, hy_oas_block,
    ig_oas_block, claims_block, vix_level_block.
  apply ends_well_bind; [apply (guarded_simple_extractor fred "real_yield" _ _ "DFII10" eq_refl)|]. intros _.
  apply ends_well_bind; [apply (guarded_simple_extractor fred "breakeven" _ _ "T10YIE" eq_refl)|]. intros _.
  apply ends_well_bind; [apply (guarded_simple_extractor fred "usd" _ _ "DTWEXBGS" eq_refl)|]. intros _.
  apply ends_well_bind; [apply (guarded_simple_extractor fred "hy_oas" _ _ "BAMLH0A0HYM2" eq_refl)|]. intros _.
  apply ends_well_bind; [apply (guarded_simple_extractor fred "ig_oas" _ _ "BAMLC0A0CM" eq_refl)|]. intros _.
  apply ends_well_bind; [apply guarded_net_liquidity_block|]. intros _.
  apply ends_well_bind; [apply (guarded_simple_extractor fred "claims" _ _ "ICSA" eq_refl)|]. intros _.
  apply ends_well_bind; [apply guarded_spx_rsi14_block|]. intros _.
  apply ends_well_bind; [apply (guarded_simple_extractor fred "vix" _ _ "VIXCLS" eq_refl)|]. intros vix.
  apply ends_well_bind; [apply guarded_vix_term_block|]. intros _.
  intros st _. reflexivity.
Qed.

(** X5: every run either returns normally, and then the output file holds
    the dump of the collected signals, or raises, and then no file has been
    written.  The exception of a run that raises is the [IndexError] of a
    read in an empty series, the [TypeError] of [resample] on a frame
    without a [DatetimeIndex], or something the provider raised that is not
    an [Exception]; in particular no lookup in the table of series codes
    fails. *)
Theorem run_writes_file_or_raises :
  forall float_repr fred,
    let r := main float_repr fred initial in
    match fst r with
    | Ok _ =>
        docs_signals_json (snd r)
        = Some (json_dump float_repr (signals (snd r)))
    | Raise e =>
        docs_signals_json (snd r) = None /\
        (e = IndexError \/ e = TypeError \/
         (is_Exception e = false /\ exists code, fred code = Raised e))
    end.
Proof.
  intros float_repr fred. exact (ends_well_main float_repr fred initial eq_refl).
Qed.

(** ** What [fetch_series] lets through *)

(** X6: [fetch_series] hands a returned series on unchanged; it raises
    exactly when the provider raises something that is not an [Exception],
    and then it raises that same thing; in every case the one request is
    logged and nothing else in the state changes. *)
Theorem fetch_series_outcomes :
  forall fred code st,
    (forall s, fred code = Returned s ->
               fst (fetch_series fred code st) = Ok s) /\
    (forall e, fst (fetch_series fred code st) = Raise e
               <-> fred code = Raised e /\ is_Exception e = false) /\
    snd (fetch_series fred code st) = logged code st.
Proof.
  intros fred code st.
  unfold fetch_series, bind, try_except_Exception, get_series, logged.
  destruct (fred code) as [s|e] eqn:E; cbn [fst snd].
  - split; [intros s' [= <-]; reflexivity|]. split; [|reflexivity].
    intros e. split; [discriminate|]. intros [H _]. discriminate.
  - split; [intros s; discriminate|].
    destruct (is_Exception e) eqn:He; cbn [fst snd ret]; (split; [|reflexivity]);
      intros e'; split.
    + discriminate.
    + intros [[= <-] H]. congruence.
    + intros [= <-]. auto.
    + intros [[= <-] _]. reflexivity.
Qed.

(** ** The signals of a run *)

(** X7: every signal a run collects, composite ones included, is computed
    from the series its block ends with: its value is the last entry of that
    series, its z is that value minus the mean over the standard deviation
    of the whole of that series, and its id and description are an entry of
    the catalog. *)
Theorem every_signal_from_its_series :
  forall float_repr fred sg,
    In sg (signals (snd (main float_repr fred initial))) ->
    (exists d, last_opt (underlying fred (id sg)) = Some (d, value sg)) /\
    z sg = (value sg - mean (underlying fred (id sg)))
           / std (underlying fred (id sg)) /\
    In (id sg, desc sg) catalog.
Proof.
  intros float_repr fred sg H.
  destruct (appends_main fred float_repr initial) as [[out [E F]] _].
  destruct (emits_main float_repr fred initial) as [out' [E' S]].
  rewrite E in E'. cbn [signals initial app] in E, E'. subst out'.
  rewrite E in H. rewrite Forall_forall in F.
  destruct (F sg H) as [d [Hl Hz]].
  split; [exists d; exact Hl|]. split; [exact Hz|].
  apply (subseq_In _ _ _ S). apply (in_map label) in H. exact H.
Qed.

Lemma every_signal_from_its_series_witness :
  (exists d, last_opt (underlying flat_real_yield_provider "real_yield")
             = Some (d, 2)) /\
  PrimFloat.nan
  = (2 - mean (underlying flat_real_yield_provider "real_yield"))
    / std (underlying flat_real_yield_provider "real_yield") /\
  In ("real_yield",
      "10-year TIPS real yield; rising real yields pressure growth and long-duration assets.")
     catalog.
Proof.
  apply (every_signal_from_its_series (fun _ => "2.0") flat_real_yield_provider
           {| id := "real_yield"; value := 2; z := PrimFloat.nan;
              desc := "10-year TIPS real yield; rising real yields pressure growth and long-duration assets." |}).
  vm_compute. left. reflexivity.
Defined.

Lemma var_short (s : Series) :
  (List.length s <= 1)%nat -> var s = PrimFloat.nan.
Proof.
  intros H. unfold var. cbv zeta.
  assert (Hl : (List.length (values (dropna s)) <= 1)%nat).
  { unfold values, dropna. rewrite length_map.
    pose proof (filter_length_le (fun p : date * float => negb (isna (snd p))) s).
    lia. }
  apply Nat.leb_le in Hl. rewrite Hl. reflexivity.
Qed.

(** X8: a signal computed from a series of one entry has no z: the standard
    deviation of one observation is undefined, and the signal is collected
    with a NaN z. *)
Theorem single_observation_has_no_z :
  forall float_repr fred sg,
    In sg (signals (snd (main float_repr fred initial))) ->
    List.length (underlying fred (id sg)) = 1%nat ->
    isna (z sg) = true.
Proof.
  intros float_repr fred sg H Hlen.
  destruct (appends_main fred float_repr initial) as [[out [E F]] _].
  cbn [signals initial app] in E. rewrite E in H. rewrite Forall_forall in F.
  destruct (F sg H) as [d [_ Hz]]. rewrite Hz.
  apply isna_div_r. unfold std. rewrite var_short by lia. reflexivity.
Qed.

Lemma single_observation_has_no_z_witness :
  isna (z {| id := "real_yield"; value := 2; z := PrimFloat.nan;
             desc := "10-year TIPS real yield; rising real yields pressure growth and long-duration assets." |})
  = true.
Proof.
  apply (single_observation_has_no_z (fun _ => "2.0") single_observation_provider).
  - vm_compute. left. reflexivity.
  - reflexivity.
Defined.

(** ** The fields of an emitted signal *)

Lemma well_founded_signal_value fred sg :
  well_founded_signal fred sg -> id sg <> "vix_term" -> isna (value sg) = false.
Proof.
  intros [d [H _]] Hid. apply last_opt_In in H. revert H. unfold underlying.
  repeat match goal with
         | |- In _ (if String.eqb ?a ?b then _ else _) -> _ =>
             destruct (String.eqb_spec a b)
         end;
    try (apply dropna_not_nan); try contradiction; try (intros []).
  destruct (empty (fetched fred "WALCL")); [intros []|].
  unfold net_liquidity_series. apply dropna_not_nan.
Qed.

Lemma sf_of_not_nan (s : bool) (m e : Z) : (0 <= m)%Z -> sf_of s m e <> S754_nan.
Proof.
  intros H. unfold sf_of. destruct m as [|p|p]; [discriminate| |lia].
  destruct (e <=? 971)%Z; discriminate.
Qed.

Lemma binary_round_not_nan (s : bool) (mx : positive) (ex : Z) :
  binary_round prec emax s mx ex <> S754_nan.
Proof.
  destruct (binary_round_spec s mx ex) as [m2 [e2 [Hr [[Hm _] _]]]].
  rewrite Hr. apply sf_of_not_nan, Hm.
Qed.

(** A difference of two numbers is undefined only for two infinities of the
    same sign. *)
Lemma SFsub_nan (x y : spec_float) :
  SFsub prec emax x y = S754_nan ->
  x = S754_nan \/ y = S754_nan \/
  exists s, x = S754_infinity s /\ y = S754_infinity s.
Proof.
  destruct x as [sx|sx| |sx mx ex]; destruct y as [sy|sy| |sy my ey];
    cbn [SFsub]; auto; try discriminate.
  - destruct sx, sy; discriminate.
  - destruct sx, sy; cbn; try discriminate; intros _; right; right;
      eexists; split; reflexivity.
  - intros H. exfalso. revert H.
    match goal with
    | |- binary_normalize _ _ ?m _ _ = _ -> _ => destruct m as [|p|p]
    end; cbn [binary_normalize]; try discriminate;
      apply binary_round_not_nan.
Qed.

Lemma sub_nan_infinite (x y : float) :
  isna x = false -> isna y = false -> isna (x - y) = true ->
  (x = infinity /\ y = infinity) \/ (x = neg_infinity /\ y = neg_infinity).
Proof.
  rewrite !isna_false_spec, isna_spec, sub_spec. intros Hx Hy H.
  apply SFsub_nan in H. destruct H as [H|[H|[s [H1 H2]]]]; try contradiction.
  destruct s; [right|left]; split; apply Prim2SF_inj; assumption.
Qed.

Lemma well_founded_vix_term fred sg :
  well_founded_signal fred sg -> id sg = "vix_term" ->
  exists d x y,
    In (d, x) (dropna (fetched fred "VIXCLS")) /\
    In (d, y) (dropna (fetched fred "VXVCLS")) /\
    value sg = x - y /\
    (isna (value sg) = true ->
     (x = infinity /\ y = infinity) \/ (x = neg_infinity /\ y = neg_infinity)).
Proof.
  intros [d [H _]] Hid. apply last_opt_In in H. rewrite Hid in H.
  unfold underlying in H. cbn [String.eqb Ascii.eqb Bool.eqb] in H.
  destruct (empty (dropna (fetched fred "VIXCLS"))
            || empty (dropna (fetched fred "VXVCLS"))); [destruct H|].
  rewrite spread_series_eq in H. apply in_map_iff in H.
  destruct H as [d' [E Hd]]. injection E as -> Ev.
  apply joint_dates_In in Hd. destruct Hd as [Ha Hb].
  apply at_date_present in Ha. apply at_date_present in Hb.
  exists d, (at_date d (dropna (fetched fred "VIXCLS"))),
    (at_date d (dropna (fetched fred "VXVCLS"))).
  split; [exact Ha|]. split; [exact Hb|]. split; [symmetry; exact Ev|].
  rewrite <- Ev. apply sub_nan_infinite.
  - apply (dropna_not_nan _ _ _ Ha).
  - apply (dropna_not_nan _ _ _ Hb).
Qed.

Lemma well_founded_single fred sg :
  well_founded_signal fred sg ->
  List.length (underlying fred (id sg)) = 1%nat -> isna (z sg) = true.
Proof.
  intros [d [_ Hz]] Hlen. rewrite Hz.
  apply isna_div_r. unfold std. rewrite var_short by lia. reflexivity.
Qed.

(** C2, as the code has it: a signal gets into the list only when the
    cleaned series it is computed from is non-empty.  The value of every
    signal other than vix_term is a number; the value of vix_term is the
    difference of the two observations at its date, and is a number unless
    both are infinite with the same sign.  The z field may be NaN, and is
    when the cleaned series has a single entry. *)
Theorem signal_only_from_nonempty_series :
  forall float_repr fred sg,
    In sg (signals (snd (main float_repr fred initial))) ->
    underlying fred (id sg) <> [] /\
    (id sg <> "vix_term" -> isna (value sg) = false) /\
    (id sg = "vix_term" ->
     exists d x y,
       In (d, x) (dropna (fetched fred "VIXCLS")) /\
       In (d, y) (dropna (fetched fred "VXVCLS")) /\
       value sg = x - y /\
       (isna (value sg) = true ->
        (x = infinity /\ y = infinity) \/
        (x = neg_infinity /\ y = neg_infinity))) /\
    (List.length (underlying fred (id sg)) = 1%nat -> isna (z sg) = true).
Proof.
  intros float_repr fred sg Hin.
  destruct (appends_main fred float_repr initial) as [[out [E F]] _].
  rewrite E in Hin. simpl in Hin.
  rewrite Forall_forall in F. specialize (F sg Hin). split; [|split; [|split]].
  - exact (well_founded_signal_nonempty _ _ F).
  - exact (well_founded_signal_value _ _ F).
  - exact (well_founded_vix_term _ _ F).
  - exact (well_founded_single _ _ F).
Qed.

Lemma signal_only_from_nonempty_series_witness :
  underlying overlapping_vix_provider "vix_term" <> [] /\
  exists d x y,
    In (d, x) (dropna (fetched overlapping_vix_provider "VIXCLS")) /\
    In (d, y) (dropna (fetched overlapping_vix_provider "VXVCLS")) /\
    3 = x - y.
Proof.
  destruct (signal_only_from_nonempty_series (fun _ => "2.0")
              overlapping_vix_provider
              {| id := "vix_term"; value := 3; z := PrimFloat.nan;
                 desc := "VIX term structure (VIX minus VIX3M); positive spread indicates backwardation (stress)." |})
    as [H1 [_ [H2 _]]].
  - vm_compute. right. left. reflexivity.
  - split; [exact H1|].
    destruct (H2 eq_refl) as [d [x [y [Hx [Hy [Hv _]]]]]].
    exists d, x, y. split; [exact Hx|]. split; [exact Hy|exact Hv].
Defined.

(** C2 as stated fails: two equal observations of the real yield give a
    signal whose z is NaN. *)
Lemma nan_z_is_emitted :
  ~ (forall fred sg,
        In sg (signals (snd (main (fun _ => "2.0") fred initial))) ->
        isna (value sg) = false /\ isna (z sg) = false).
Proof.
  intros H.
  specialize (H flat_real_yield_provider
                {| id := "real_yield"; value := 2; z := PrimFloat.nan;
                   desc := "10-year TIPS real yield; rising real yields pressure growth and long-duration assets." |}).
  assert (Hin : In {| id := "real_yield"; value := 2; z := PrimFloat.nan;
                      desc := "10-year TIPS real yield; rising real yields pressure growth and long-duration assets." |}
                   (signals (snd (main (fun _ => "2.0") flat_real_yield_provider initial)))).
  { vm_compute. left. reflexivity. }
  destruct (H Hin) as [_ Hz]. vm_compute in Hz. discriminate.
Qed.

(** The exception made for vix_term is met: two infinite observations on
    the common date give a vix_term signal whose value is NaN. *)
Lemma vix_term_value_of_infinities :
  In {| id := "vix_term"; value := PrimFloat.nan; z := PrimFloat.nan;
        desc := "VIX term structure (VIX minus VIX3M); positive spread indicates backwardation (stress)." |}
     (signals (snd (main (fun _ => "2.0") infinite_vix_provider initial))).
Proof. vm_compute. right. left. reflexivity. Qed.

(** ** The relative strength index *)

Lemma In_compute_rsi (s : Series) (p : nat) d v :
  In (d, v) (compute_rsi s p) -> In v (rsi_values (values s) p).
Proof. unfold compute_rsi. apply in_combine_r. Qed.

Lemma rsi_of_floor (g a : float) :
  (g =? 0) = true -> (0 <? a) = true -> rsi_of g a = 0.
Proof.
  rewrite ltb_spec, FloatAxioms.eqb_spec. intros Hg Ha.
  apply Prim2SF_inj. rewrite Prim2SF_rsi_of.
  change (Prim2SF 0) with (S754_zero false) in *.
  destruct (Prim2SF g) as [sg|sg| |sg mg eg];
    try discriminate; try (destruct sg; discriminate).
  destruct (Prim2SF a) as [sa|sa| |sa ma ea]; try discriminate;
    destruct sa; try discriminate; destruct sg; reflexivity.
Qed.

Lemma rsi_of_flat (g a : float) :
  (g =? 0) = true -> (a =? 0) = true -> isna (rsi_of g a) = true.
Proof.
  rewrite !FloatAxioms.eqb_spec. intros Hg Ha.
  apply isna_spec. rewrite Prim2SF_rsi_of.
  change (Prim2SF 0) with (S754_zero false) in *.
  destruct (Prim2SF g) as [sg|sg| |sg mg eg];
    try discriminate; try (destruct sg; discriminate).
  destruct (Prim2SF a) as [sa|sa| |sa ma ea];
    try discriminate; try (destruct sa; discriminate).
  reflexivity.
Qed.

(** X10: the low end and the flat case of the index.  At a point of the
    RSI(14) series where the average gain is zero, the index is exactly 0
    when the average loss is positive, and it is undefined when the average
    loss is zero too, so that the point is dropped with the missing
    values. *)
Theorem rsi_floor_and_flat :
  forall (s : Series) i d v,
    nth_error (compute_rsi s 14) i = Some (d, v) ->
    exists g a,
      nth_error (avg_gain_of (values s) 14) i = Some g /\
      nth_error (avg_loss_of (values s) 14) i = Some a /\
      ((g =? 0) = true -> (0 <? a) = true -> v = 0) /\
      ((g =? 0) = true -> (a =? 0) = true ->
       isna v = true /\ ~ In (d, v) (dropna (compute_rsi s 14))).
Proof.
  intros s i d v H. unfold compute_rsi in H.
  apply nth_error_combine in H. destruct H as [_ H].
  destruct (rsi_values_nth _ _ _ _ H) as [g [a [Hg [Ha ->]]]].
  exists g, a. split; [exact Hg|]. split; [exact Ha|]. split.
  - apply rsi_of_floor.
  - intros H0 H1. pose proof (rsi_of_flat g a H0 H1) as Hn.
    split; [exact Hn|]. intros Hin. apply dropna_not_nan in Hin. congruence.
Qed.

Lemma rsi_floor_and_flat_witness :
  exists g a,
    nth_error (avg_gain_of (values falling_prices) 14) 15 = Some g /\
    nth_error (avg_loss_of (values falling_prices) 14) 15 = Some a /\
    ((g =? 0) = true -> (0 <? a) = true -> 0 = 0) /\
    ((g =? 0) = true -> (a =? 0) = true ->
     isna 0 = true /\ ~ In (15%Z, 0) (dropna (compute_rsi falling_prices 14))).
Proof.
  apply (rsi_floor_and_flat falling_prices 15 15%Z 0).
  vm_compute. reflexivity.
Defined.

Lemma compute_rsi_short (s : Series) :
  (List.length s <= 14)%nat -> dropna (compute_rsi s 14) = [].
Proof.
  intros H. apply dropna_all_nan. intros d v Hin.
  apply In_nth_error in Hin. destruct Hin as [i Hi].
  assert (Hlt : (i < List.length (compute_rsi s 14))%nat)
    by (apply nth_error_Some; congruence).
  unfold compute_rsi in Hlt, Hi. rewrite length_combine in Hlt.
  unfold index in Hlt. rewrite length_map in Hlt.
  apply nth_error_combine in Hi. destruct Hi as [_ Hi].
  apply (rsi_values_warmup _ _ _ _ Hi). lia.
Qed.

Lemma spx_rsi14_block_silent fred st :
  dropna (compute_rsi (dropna (fetched fred "SP500")) 14) = [] ->
  signals (snd (spx_rsi14_block fred st)) = signals st.
Proof.
  intros Hr.
  unfold spx_rsi14_block, series_get. simpl assoc. cbv iota.
  unfold bind at 1. unfold ret at 1.
  unfold bind at 1.
  destruct (fetch_series_cases fred "SP500" st) as [E|[e E]]; rewrite E;
    [|reflexivity].
  destruct (empty (dropna (fetched fred "SP500"))); cbn [negb]; [reflexivity|].
  cbv zeta. rewrite Hr. reflexivity.
Qed.

(** X11: with fourteen cleaned prices or fewer the RSI(14) series has no
    defined point, and the spx_rsi14 block collects no signal. *)
Theorem short_price_history_gives_no_rsi :
  forall fred st,
    (List.length (dropna (fetched fred "SP500")) <= 14)%nat ->
    underlying fred "spx_rsi14" = [] /\
    signals (snd (spx_rsi14_block fred st)) = signals st.
Proof.
  intros fred st H. pose proof (compute_rsi_short _ H) as Hr.
  split; [exact Hr|]. apply spx_rsi14_block_silent, Hr.
Qed.

Lemma short_price_history_gives_no_rsi_witness :
  underlying short_spx_provider "spx_rsi14" = [] /\
  signals (snd (spx_rsi14_block short_spx_provider initial)) = signals initial.
Proof.
  apply (short_price_history_gives_no_rsi short_spx_provider initial).
  vm_compute. lia.
Defined.

(** ** The vix_term signal *)

(** X13: when the provider fails with [Exception]s only, the run is not
    stopped in the net_liquidity block, the VIX series lists its
    observations in ascending date order, and the cleaned VIX and VIX3M
    series have a date in common, the run returns normally and collects a
    vix_term signal whose value is the VIX observation minus the VIX3M
    observation at the latest date the two series share. *)
Theorem vix_term_signal_at_latest_common_date :
  forall float_repr fred d0,
    only_exceptions fred ->
    frame_fails fred = false ->
    chronological (fetched fred "VIXCLS") ->
    let vix := dropna (fetched fred "VIXCLS") in
    let vix3m := dropna (fetched fred "VXVCLS") in
    In d0 (index vix) -> In d0 (index vix3m) ->
    exists d sg,
      fst (main float_repr fred initial) = Ok tt /\
      In sg (signals (snd (main float_repr fred initial))) /\
      id sg = "vix_term" /\
      In d (index vix) /\ In d (index vix3m) /\
      (forall d', In d' (index vix) -> In d' (index vix3m) -> (d' <= d)%Z) /\
      value sg = at_date d vix - at_date d vix3m.
Proof.
  intros float_repr fred d0 H Hf Hch vix vix3m H1 H2.
  assert (Hj : In d0 (joint_dates vix vix3m)) by (apply joint_dates_In; auto).
  destruct (last_opt (joint_dates vix vix3m)) as [d|] eqn:El;
    [|apply last_opt_None in El; rewrite El in Hj; destruct Hj].
  assert (Hs : last_opt (spread_series vix vix3m)
               = Some (d, at_date d vix - at_date d vix3m))
    by (rewrite spread_series_eq, last_opt_map, El; reflexivity).
  assert (Hu : underlying fred "vix_term" = spread_series vix vix3m).
  { change (underlying fred "vix_term")
      with (if empty vix || empty vix3m then [] else spread_series vix vix3m).
    destruct vix; [destruct H1|]. destruct vix3m; [destruct H2|]. reflexivity. }
  assert (Hv : vix_join_empty fred = false).
  { unfold vix_join_empty. fold vix vix3m.
    destruct (spread_series vix vix3m); [discriminate|].
    cbn [empty]. apply andb_false_r. }
  exists d.
  exists {| id := "vix_term"; value := at_date d vix - at_date d vix3m;
            z := (at_date d vix - at_date d vix3m - mean (spread_series vix vix3m))
                 / std (spread_series vix vix3m);
            desc := "VIX term structure (VIX minus VIX3M); positive spread indicates backwardation (stress)." |}.
  rewrite (main_run_eq float_repr fred H), Hf, Hv. cbn [fst snd signals id value].
  split; [reflexivity|]. split.
  { unfold expected_signals, signals_of. apply in_flat_map.
    exists ("vix_term",
            "VIX term structure (VIX minus VIX3M); positive spread indicates backwardation (stress).").
    split; [cbn; auto 12|]. cbn [fst snd]. rewrite Hu. unfold signal_of.
    rewrite Hs. left. reflexivity. }
  split; [reflexivity|].
  pose proof (last_opt_In _ _ El) as Hd. apply joint_dates_In in Hd.
  destruct Hd as [Hd1 Hd2]. split; [exact Hd1|]. split; [exact Hd2|].
  split; [|reflexivity].
  intros d' Hd'1 Hd'2.
  assert (Hc : chronological (spread_series vix vix3m)).
  { unfold chronological. rewrite index_spread_series.
    apply joint_dates_sorted. apply chronological_filter, Hch. }
  apply (chronological_last _ _ _ Hc Hs d' (at_date d' vix - at_date d' vix3m)).
  rewrite spread_series_eq.
  apply (in_map (fun d => (d, at_date d vix - at_date d vix3m))).
  apply joint_dates_In. auto.
Qed.

Lemma vix_term_signal_at_latest_common_date_witness :
  exists d sg,
    fst (main (fun _ => "2.0") overlapping_vix_provider initial) = Ok tt /\
    In sg (signals (snd (main (fun _ => "2.0") overlapping_vix_provider initial))) /\
    id sg = "vix_term" /\
    In d (index (dropna (fetched overlapping_vix_provider "VIXCLS"))) /\
    In d (index (dropna (fetched overlapping_vix_provider "VXVCLS"))) /\
    (forall d', In d' (index (dropna (fetched overlapping_vix_provider "VIXCLS"))) ->
                In d' (index (dropna (fetched overlapping_vix_provider "VXVCLS"))) ->
                (d' <= d)%Z) /\
    value sg = at_date d (dropna (fetched overlapping_vix_provider "VIXCLS"))
               - at_date d (dropna (fetched overlapping_vix_provider "VXVCLS")).
Proof.
  apply (vix_term_signal_at_latest_common_date (fun _ => "2.0")
           overlapping_vix_provider 2%Z).
  - intros code e. unfold overlapping_vix_provider.
    destruct (String.eqb code "VIXCLS"); [discriminate|].
    destruct (String.eqb code "VXVCLS"); [discriminate|].
    intros [= <-]. reflexivity.
  - reflexivity.
  - unfold chronological. vm_compute.
    repeat (constructor; [|repeat constructor; lia]). constructor.
  - vm_compute. right. left. reflexivity.
  - vm_compute. left. reflexivity.
Defined.

(** ** The net-liquidity series *)

Lemma sorted_last_max {A} (rs : list (date * A)) :
  StronglySorted Z.le (map fst rs) ->
  forall d r, last_opt rs = Some (d, r) ->
  forall d' r', In (d', r') rs -> (d' <= d)%Z.
Proof.
  induction rs as [|[d1 r1] rs IH]; intros Hs d r Hl d' r' Hin; [destruct Hin|].
  cbn [map fst] in Hs. apply StronglySorted_inv in Hs. destruct Hs as [Hs Hall].
  destruct rs as [|p rs'].
  - injection Hl as <- <-. destruct Hin as [[= <- <-]|[]]. lia.
  - change (last_opt ((d1, r1) :: p :: rs')) with (last_opt (p :: rs')) in Hl.
    destruct Hin as [[= <- <-]|Hin].
    + rewrite Forall_forall in Hall. apply Hall.
      apply last_opt_In in Hl. apply (in_map fst) in Hl. exact Hl.
    + apply (IH Hs d r Hl d' r' Hin).
Qed.

Lemma sorted_filter_fst {A} (f : date * A -> bool) (rs : list (date * A)) :
  StronglySorted Z.le (map fst rs) ->
  StronglySorted Z.le (map fst (filter f rs)).
Proof.
  induction rs as [|p rs IH]; cbn [map filter]; intros H; [constructor|].
  apply StronglySorted_inv in H. destruct H as [Hs Hall].
  destruct (f p); [|apply IH, Hs].
  cbn [map]. constructor; [apply IH, Hs|].
  rewrite Forall_forall in *. intros x Hx. apply Hall.
  rewrite in_map_iff in *. destruct Hx as [q [Hq Hin]].
  exists q. split; [exact Hq|]. apply filter_In in Hin. apply Hin.
Qed.

Lemma asof_latest {A} (d : date) (rs : list (date * A)) (r : A) :
  StronglySorted Z.le (map fst rs) ->
  asof d rs = Some r ->
  exists d0, In (d0, r) rs /\ (d0 <= d)%Z /\
             forall d1 r1, In (d1, r1) rs -> (d1 <= d)%Z -> (d1 <= d0)%Z.
Proof.
  intros Hs H. unfold asof in H.
  destruct (last_opt (filter (fun r => (fst r <=? d)%Z) rs)) as [[d0 r0]|] eqn:E;
    [|discriminate].
  injection H as ->. exists d0.
  pose proof (last_opt_In _ _ E) as Hin. apply filter_In in Hin.
  destruct Hin as [Hin Hle]. cbn [fst] in Hle. apply Z.leb_le in Hle.
  split; [exact Hin|]. split; [exact Hle|].
  intros d1 r1 H1 Hle1.
  apply (sorted_last_max _ (sorted_filter_fst _ _ Hs) d0 r E d1 r1).
  apply filter_In. split; [exact H1|]. apply Z.leb_le. exact Hle1.
Qed.

Lemma DataFrame_of_index cols :
  map fst (rows (DataFrame_of cols))
  = frame_index (map (fun c => index (snd c)) cols).
Proof.
  unfold DataFrame_of. cbn [rows]. rewrite map_map. cbn [fst]. apply map_id.
Qed.

(** The labels of the frame are the dates of observation of its series. *)
Lemma DataFrame_of_labels cols (d : date) :
  (exists r, In (d, r) (rows (DataFrame_of cols)))
  <-> In d (union_indexes (map (fun c => index (snd c)) cols)).
Proof.
  rewrite union_indexes_In, <- frame_index_In, <- DataFrame_of_index. split.
  - intros [r H]. apply (in_map fst) in H. exact H.
  - intros H. apply in_map_iff in H. destruct H as [[d' r] [E H]].
    cbn [fst] in E. subst d'. exists r. exact H.
Qed.

(** X14: a day is kept in the net-liquidity series only with the values of
    one date of observation: the latest date, on or before that day, at
    which any of the three series has an observation.  All three series
    have an observation at that date, and the value of the day is
    [walcl * 1e6 - rrp * 1e9 - tga * 1e9] on those three observations; an
    older observation of a series is never carried past a later date of
    another series. *)
Theorem net_liquidity_uses_latest_label :
  forall walcl rrp tga d v,
    In (d, v) (net_liquidity_series walcl rrp tga) ->
    exists d0,
      (d0 <= d)%Z /\
      In d0 (union_indexes [index walcl; index rrp; index tga]) /\
      (forall d1, In d1 (union_indexes [index walcl; index rrp; index tga]) ->
                  (d1 <= d)%Z -> (d1 <= d0)%Z) /\
      isna (at_date d0 walcl) = false /\
      isna (at_date d0 rrp) = false /\
      isna (at_date d0 tga) = false /\
      v = at_date d0 walcl * 1e6 - at_date d0 rrp * 1e9 - at_date d0 tga * 1e9.
Proof.
  intros walcl rrp tga d v H.
  apply net_liquidity_series_In in H. destruct H as [r [Hr [Hv Hn]]].
  unfold aligned_frame in Hr. apply upsample_rows_In in Hr.
  pose proof (DataFrame_of_labels [("walcl", walcl); ("rrp", rrp); ("tga", tga)])
    as Hi.
  cbn [map snd] in Hi.
  apply asof_latest in Hr; [|apply sort_rows_sorted].
  destruct Hr as [d0 [Hin [Hle Hmax]]]. exists d0.
  apply (proj1 (sort_rows_In _ _)) in Hin.
  pose proof (DataFrame_of_rows_In _ _ _ Hin) as Er.
  split; [exact Hle|]. split.
  { apply Hi. exists r. exact Hin. }
  split.
  { intros d1 H1 Hle1. apply Hi in H1. destruct H1 as [r1 H1].
    apply (Hmax d1 r1); [|exact Hle1]. apply sort_rows_In, H1. }
  assert (Ev : v = at_date d0 walcl * 1e6 - at_date d0 rrp * 1e9
                   - at_date d0 tga * 1e9)
    by (rewrite Hv, Er; reflexivity).
  assert (Hnan : forall x, isna x = false \/ isna x = true)
    by (intros x; destruct (isna x); auto).
  pose proof (isna_net_liquidity_of r) as Hk. rewrite <- Hv, Hn in Hk.
  rewrite Er in Hk. cbn [column_of String.eqb Ascii.eqb Bool.eqb] in Hk.
  repeat split; try exact Ev.
  - destruct (Hnan (at_date d0 walcl)) as [E|E]; [exact E|].
    discriminate Hk. left. exact E.
  - destruct (Hnan (at_date d0 rrp)) as [E|E]; [exact E|].
    discriminate Hk. right. left. exact E.
  - destruct (Hnan (at_date d0 tga)) as [E|E]; [exact E|].
    discriminate Hk. right. right. exact E.
Qed.

Lemma net_liquidity_uses_latest_label_witness :
  exists d0,
    (d0 <= 2)%Z /\
    In d0 (union_indexes [index [(1%Z, 7000000)]; index [(1%Z, 500)];
                          index [(1%Z, 700); (3%Z, 710)]]) /\
    (forall d1, In d1 (union_indexes [index [(1%Z, 7000000)]; index [(1%Z, 500)];
                                      index [(1%Z, 700); (3%Z, 710)]]) ->
                (d1 <= 2)%Z -> (d1 <= d0)%Z) /\
    isna (at_date d0 [(1%Z, 7000000)]) = false /\
    isna (at_date d0 [(1%Z, 500)]) = false /\
    isna (at_date d0 [(1%Z, 700); (3%Z, 710)]) = false /\
    5800000000000
    = at_date d0 [(1%Z, 7000000)] * 1e6 - at_date d0 [(1%Z, 500)] * 1e9
      - at_date d0 [(1%Z, 700); (3%Z, 710)] * 1e9.
Proof.
  apply (net_liquidity_uses_latest_label
           [(1%Z, 7000000)] [(1%Z, 500)] [(1%Z, 700); (3%Z, 710)] 2%Z).
  vm_compute. right. left. reflexivity.
Defined.

Lemma day_range_In (lo hi d : date) :
  In d (day_range lo hi) <-> (lo <= d <= hi)%Z.
Proof.
  unfold day_range. rewrite in_map_iff. split.
  - intros [k [<- Hk]]. apply in_seq in Hk. lia.
  - intros H. exists (Z.to_nat (d - lo)). split; [lia|]. apply in_seq. lia.
Qed.

Lemma sorted_head_min {A} (d0 : date) (r0 : A) (rs : list (date * A)) :
  StronglySorted Z.le (map fst ((d0, r0) :: rs)) ->
  forall d r, In (d, r) ((d0, r0) :: rs) -> (d0 <= d)%Z.
Proof.
  cbn [map fst]. intros H d r Hin. apply StronglySorted_inv in H.
  destruct H as [_ Hall]. destruct Hin as [[= <- <-]|Hin]; [lia|].
  rewrite Forall_forall in Hall. apply (in_map fst) in Hin.
  apply Hall in Hin. cbn [fst] in Hin. lia.
Qed.

Lemma asof_of_latest {A} (d d0 : date) (rs : list (date * A)) (r : A) :
  StronglySorted Z.le (map fst rs) ->
  In (d0, r) rs -> (d0 <= d)%Z ->
  (forall r', In (d0, r') rs -> r' = r) ->
  (forall d1 r1, In (d1, r1) rs -> (d1 <= d)%Z -> (d1 <= d0)%Z) ->
  asof d rs = Some r.
Proof.
  intros Hs Hin Hle Hfun Hmax. unfold asof.
  assert (Hf : In (d0, r) (filter (fun r => (fst r <=? d)%Z) rs))
    by (apply filter_In; split; [exact Hin|apply Z.leb_le; exact Hle]).
  destruct (last_opt (filter (fun r => (fst r <=? d)%Z) rs)) as [[d' r']|] eqn:E;
    [|apply last_opt_None in E; rewrite E in Hf; destruct Hf].
  pose proof (sorted_last_max _ (sorted_filter_fst _ _ Hs) d' r' E d0 r Hf) as H1.
  pose proof (last_opt_In _ _ E) as Hin'. apply filter_In in Hin'.
  destruct Hin' as [Hin' Hle']. cbn [fst] in Hle'. apply Z.leb_le in Hle'.
  pose proof (Hmax d' r' Hin' Hle') as H2.
  assert (d' = d0) by lia. subst d'. cbn [option_map snd]. f_equal.
  apply Hfun, Hin'.
Qed.

Lemma reindex_rows_covered df d r lo hi r0 r1 :
  In (lo, r0) (rows df) -> In (hi, r1) (rows df) ->
  StronglySorted Z.le (map fst (rows df)) ->
  (lo <= d <= hi)%Z ->
  asof d (rows df) = Some r ->
  In (d, r) (rows (reindex_days_ffill df)).
Proof.
  intros Hlo Hhi Hs Hd Ha. unfold reindex_days_ffill.
  destruct (rows df) as [|[lo' q0] rs] eqn:E; [destruct Hlo|].
  destruct (last_opt ((lo', q0) :: rs)) as [[hi' q1]|] eqn:El;
    [|apply last_opt_None in El; discriminate].
  cbn [rows]. apply in_flat_map. exists d. split.
  - apply day_range_In.
    pose proof (sorted_head_min lo' q0 rs Hs lo r0 Hlo).
    pose proof (sorted_last_max _ Hs hi' q1 El hi r1 Hhi). lia.
  - rewrite Ha. left. reflexivity.
Qed.

(** X15: the net-liquidity series keeps every covered day.  A day that lies
    between two dates of observation, the bounds included, is in the
    series with the value computed at the latest date of observation on or
    before it, as soon as that value is a number. *)
Theorem net_liquidity_keeps_covered_days :
  forall walcl rrp tga d d0 hi,
    let labels := union_indexes [index walcl; index rrp; index tga] in
    let v := at_date d0 walcl * 1e6 - at_date d0 rrp * 1e9
             - at_date d0 tga * 1e9 in
    In d0 labels -> In hi labels -> (d0 <= d <= hi)%Z ->
    (forall d1, In d1 labels -> (d1 <= d)%Z -> (d1 <= d0)%Z) ->
    isna v = false ->
    In (d, v) (net_liquidity_series walcl rrp tga).
Proof.
  intros walcl rrp tga d d0 hi labels v H0 Hhi Hd Hmax Hn.
  pose proof (DataFrame_of_labels [("walcl", walcl); ("rrp", rrp); ("tga", tga)])
    as Hi.
  cbn [map snd] in Hi. fold labels in Hi.
  set (df := DataFrame_of [("walcl", walcl); ("rrp", rrp); ("tga", tga)]) in *.
  pose proof (sort_rows_sorted (rows df)) as Hs.
  destruct (proj2 (Hi d0) H0) as [r Hr]. destruct (proj2 (Hi hi) Hhi) as [r1 Hr1].
  apply net_liquidity_series_In. exists r.
  assert (Er : forall r', In (d0, r') (rows df) ->
                 r' = fun name =>
                        at_date d0 (column_of name [("walcl", walcl); ("rrp", rrp);
                                                    ("tga", tga)]))
    by (intros r'; apply DataFrame_of_rows_In).
  assert (Ev : v = net_liquidity_of r) by (rewrite (Er r Hr); reflexivity).
  split; [|split; [exact Ev|exact Hn]].
  unfold aligned_frame, upsample_D_ffill. fold df.
  apply (reindex_rows_covered _ d r d0 hi r r1).
  - cbn [rows]. apply sort_rows_In, Hr.
  - cbn [rows]. apply sort_rows_In, Hr1.
  - exact Hs.
  - exact Hd.
  - cbn [rows]. apply (asof_of_latest d d0 _ r Hs).
    + apply sort_rows_In, Hr.
    + exact (proj1 Hd).
    + intros r' Hr'. apply (proj1 (sort_rows_In _ _)) in Hr'.
      rewrite (Er r Hr), (Er r' Hr'). reflexivity.
    + intros d1 q1 H1 Hle. apply Hmax; [|exact Hle].
      apply Hi. exists q1. apply (proj1 (sort_rows_In _ _)), H1.
Qed.

Lemma net_liquidity_keeps_covered_days_witness :
  In (2%Z, at_date 1%Z [(1%Z, 7000000)] * 1e6 - at_date 1%Z [(1%Z, 500)] * 1e9
           - at_date 1%Z [(1%Z, 700); (3%Z, 710)] * 1e9)
     (net_liquidity_series [(1%Z, 7000000)] [(1%Z, 500)] [(1%Z, 700); (3%Z, 710)]).
Proof.
  apply (net_liquidity_keeps_covered_days
           [(1%Z, 7000000)] [(1%Z, 500)] [(1%Z, 700); (3%Z, 710)] 2%Z 1%Z 3%Z).
  - vm_compute. left. reflexivity.
  - vm_compute. right. left. reflexivity.
  - lia.
  - intros d1 H1 Hle. vm_compute in H1. destruct H1 as [<-|[<-|[]]]; lia.
  - reflexivity.
Defined.

Lemma reindex_index_sorted df :
  StronglySorted Z.lt (map fst (rows (reindex_days_ffill df))).
Proof.
  unfold reindex_days_ffill.
  destruct (rows df) as [|[lo r0] rs] eqn:E; [constructor|].
  destruct (last_opt ((lo, r0) :: rs)) as [[hi r1]|]; [|constructor].
  cbn [rows].
  assert (Hd : StronglySorted Z.lt (day_range lo hi)).
  { unfold day_range. generalize (Z.to_nat (hi - lo + 1)). intros n.
    generalize 0%nat. induction n as [|n IH]; intros k; [constructor|].
    cbn [seq map]. constructor; [apply IH|].
    rewrite Forall_forall. intros x Hx. apply in_map_iff in Hx.
    destruct Hx as [j [<- Hj]]. apply in_seq in Hj. lia. }
  revert Hd. generalize (day_range lo hi). intros l.
  induction 1 as [|d l Hs IH Hall]; cbn [flat_map map]; [constructor|].
  destruct (asof d ((lo, r0) :: rs)); cbn [app map fst]; [|exact IH].
  constructor; [exact IH|].
  rewrite Forall_forall in *. intros x Hx. apply Hall.
  apply in_map_iff in Hx. destruct Hx as [[x' r'] [Ex Hx]]. cbn [fst] in Ex.
  subst x'. apply in_flat_map in Hx. destruct Hx as [d' [Hd' Hx]].
  destruct (asof d' ((lo, r0) :: rs)); [|destruct Hx].
  destruct Hx as [[= -> _]|[]]. exact Hd'.
Qed.

(** X16: the combined net-liquidity series is in strictly ascending date
    order whatever the order in which the provider lists its observations,
    and the spread series is when the VIX series lists its observations in
    ascending date order; the row the block reads last is then the one of
    the latest date. *)
Theorem composite_series_chronological :
  forall a b c : Series,
    chronological (net_liquidity_series a b c) /\
    (forall d v, last_opt (net_liquidity_series a b c) = Some (d, v) ->
                 forall d' v', In (d', v') (net_liquidity_series a b c) ->
                               (d' <= d)%Z) /\
    (chronological a ->
     chronological (spread_series a b) /\
     forall d v, last_opt (spread_series a b) = Some (d, v) ->
                 forall d' v', In (d', v') (spread_series a b) -> (d' <= d)%Z).
Proof.
  intros a b c.
  assert (H1 : chronological (net_liquidity_series a b c)).
  { rewrite net_liquidity_series_eq. apply chronological_filter.
    unfold chronological, index. rewrite map_map. cbn [fst].
    unfold aligned_frame, upsample_D_ffill. apply reindex_index_sorted. }
  split; [exact H1|]. split.
  - intros d v. apply chronological_last, H1.
  - intros Ha.
    assert (H2 : chronological (spread_series a b))
      by (unfold chronological; rewrite index_spread_series;
          apply joint_dates_sorted, Ha).
    split; [exact H2|]. intros d v. apply chronological_last, H2.
Qed.

Lemma composite_series_chronological_witness :
  chronological (net_liquidity_series [(3%Z, 7100000); (1%Z, 7000000)]
                   [(3%Z, 510); (1%Z, 500)] [(3%Z, 710); (1%Z, 700)]) /\
  (1 <= 3)%Z /\
  chronological (spread_series [(1%Z, 20); (3%Z, 22)] [(1%Z, 18); (3%Z, 21)]).
Proof.
  destruct (composite_series_chronological [(3%Z, 7100000); (1%Z, 7000000)]
              [(3%Z, 510); (1%Z, 500)] [(3%Z, 710); (1%Z, 700)]) as [H1 [H2 _]].
  destruct (composite_series_chronological [(1%Z, 20); (3%Z, 22)]
              [(1%Z, 18); (3%Z, 21)] []) as [_ [_ H3]].
  split; [exact H1|]. split.
  - apply (H2 3%Z 5880000000000 eq_refl 1%Z 5800000000000).
    vm_compute. left. reflexivity.
  - apply H3. unfold chronological. vm_compute.
    repeat (constructor; [|repeat constructor; lia]). constructor.
Defined.

(** ** A price that never moves *)

Lemma sub_self (c : float) : nan_or_zero (c - c).
Proof.
  unfold nan_or_zero. rewrite isna_spec, FloatAxioms.eqb_spec, sub_spec.
  change (Prim2SF 0) with (S754_zero false).
  destruct (Prim2SF c) as [s|s| |s m e].
  - right. destruct s; reflexivity.
  - left. destruct s; reflexivity.
  - left. reflexivity.
  - right. unfold SF64sub, SFsub.
    assert (E1 : IntDef.Z.min e e = e) by apply Z.min_id.
    rewrite E1. unfold shl_align.
    assert (E2 : (e - e)%Z = 0%Z) by lia.
    rewrite E2. cbn [fst].
    assert (E3 : forall x : Z, IntDef.Z.sub x x = 0%Z)
      by (intros; apply Z.sub_diag).
    rewrite E3. reflexivity.
Qed.

Lemma nan_or_zero_clip_lower0 (x : float) :
  nan_or_zero x -> nan_or_zero (clip_lower0 x).
Proof.
  intros H. unfold clip_lower0.
  destruct (isna x || (0 <=? x)); [exact H|]. right. reflexivity.
Qed.

Lemma nan_or_zero_opp (x : float) : nan_or_zero x -> nan_or_zero (- x).
Proof.
  unfold nan_or_zero. rewrite !isna_spec, !FloatAxioms.eqb_spec, opp_spec.
  change (Prim2SF 0) with (S754_zero false).
  destruct (Prim2SF x) as [s|s| |s m e]; cbn; intros [H|H];
    try discriminate; auto; destruct s; discriminate.
Qed.

Lemma nan_or_zero_loss (x : float) :
  nan_or_zero x -> nan_or_zero (- clip_upper0 x).
Proof.
  intros H. apply nan_or_zero_opp. unfold clip_upper0.
  destruct (isna x || (x <=? 0)); [exact H|]. right. reflexivity.
Qed.

Lemma zero_add (x y : float) :
  (x =? 0) = true -> (y =? 0) = true -> (x + y =? 0) = true.
Proof.
  rewrite !FloatAxioms.eqb_spec, add_spec.
  change (Prim2SF 0) with (S754_zero false).
  destruct (Prim2SF x) as [s|s| |s m e]; try discriminate;
    try (destruct s; discriminate).
  destruct (Prim2SF y) as [t|t| |t m e]; try discriminate;
    try (destruct t; discriminate).
  destruct s, t; reflexivity.
Qed.

Lemma zero_div (x y : float) : (x =? 0) = true -> nan_or_zero (x / y).
Proof.
  unfold nan_or_zero. rewrite isna_spec, !FloatAxioms.eqb_spec, div_spec.
  change (Prim2SF 0) with (S754_zero false).
  destruct (Prim2SF x) as [s|s| |s m e]; try discriminate;
    try (destruct s; discriminate).
  intros _. destruct (Prim2SF y) as [t|t| |t m e]; cbn; auto;
    right; destruct s, t; reflexivity.
Qed.

Lemma zero_sub (x y : float) :
  (x =? 0) = true -> (y =? 0) = true -> (x - y =? 0) = true.
Proof.
  rewrite !FloatAxioms.eqb_spec, sub_spec.
  change (Prim2SF 0) with (S754_zero false).
  destruct (Prim2SF x) as [s|s| |s m e]; try discriminate;
    try (destruct s; discriminate).
  destruct (Prim2SF y) as [t|t| |t m e]; try discriminate;
    try (destruct t; discriminate).
  destruct s, t; reflexivity.
Qed.

Lemma zero_opp (x : float) : (x =? 0) = true -> (- x =? 0) = true.
Proof.
  rewrite !FloatAxioms.eqb_spec, opp_spec.
  change (Prim2SF 0) with (S754_zero false).
  destruct (Prim2SF x) as [s|s| |s m e]; try discriminate;
    try (destruct s; discriminate).
  destruct s; reflexivity.
Qed.

Lemma nan_or_zero_counted (x : float) :
  nan_or_zero x -> (x =? x) = true -> (x =? 0) = true.
Proof.
  intros [H|H] E; [|exact H]. apply isna_spec in H.
  rewrite FloatAxioms.eqb_spec, H in E. discriminate.
Qed.

Lemma nan_or_zero_inf_to_nan (x : float) :
  nan_or_zero x -> nan_or_zero (inf_to_nan x).
Proof.
  intros H. unfold inf_to_nan.
  destruct (PrimFloat.is_infinity x); [left; reflexivity|exact H].
Qed.

Lemma flat_state_add (val : float) (st : mean_state) :
  nan_or_zero val -> flat_state st -> flat_state (add_mean val st).
Proof.
  intros Hv [Hs [Ha [Hr Hp]]]. unfold add_mean.
  destruct (val =? val) eqn:E; [|repeat split; assumption].
  pose proof (nan_or_zero_counted val Hv E) as Hz. cbv zeta.
  unfold flat_state. cbn [sum_x compensation_add compensation_remove prev_value].
  assert (Hy : (val - compensation_add st =? 0) = true)
    by (apply zero_sub; assumption).
  assert (Ht : (sum_x st + (val - compensation_add st) =? 0) = true)
    by (apply zero_add; assumption).
  repeat split.
  - exact Ht.
  - apply zero_sub; [apply zero_sub|]; assumption.
  - exact Hr.
  - right. exact Hz.
Qed.

Lemma flat_state_remove (val : float) (st : mean_state) :
  nan_or_zero val -> flat_state st -> flat_state (remove_mean val st).
Proof.
  intros Hv [Hs [Ha [Hr Hp]]]. unfold remove_mean.
  destruct (val =? val) eqn:E; [|repeat split; assumption].
  pose proof (nan_or_zero_counted val Hv E) as Hz. cbv zeta.
  unfold flat_state. cbn [sum_x compensation_add compensation_remove prev_value].
  assert (Hy : (- val - compensation_remove st =? 0) = true)
    by (apply zero_sub; [apply zero_opp|]; assumption).
  assert (Ht : (sum_x st + (- val - compensation_remove st) =? 0) = true)
    by (apply zero_add; assumption).
  repeat split.
  - exact Ht.
  - exact Ha.
  - apply zero_sub; [apply zero_sub|]; assumption.
  - exact Hp.
Qed.

Lemma nth_nan_or_zero (values : list float) (n : nat) :
  (forall y, In y values -> nan_or_zero y) ->
  nan_or_zero (nth n values PrimFloat.nan).
Proof.
  intros H. destruct (nth_in_or_default n values PrimFloat.nan) as [Hn|Hn].
  - apply H, Hn.
  - rewrite Hn. left. reflexivity.
Qed.

Lemma flat_state_setup (values : list float) (s : nat) :
  (forall y, In y values -> nan_or_zero y) -> flat_state (setup_mean values s).
Proof.
  intros H. unfold flat_state, setup_mean.
  cbn [sum_x compensation_add compensation_remove prev_value].
  repeat split. apply nth_nan_or_zero, H.
Qed.

Lemma flat_state_calc (minp : nat) (st : mean_state) :
  flat_state st -> nan_or_zero (calc_mean minp st).
Proof.
  intros [Hs [_ [_ Hp]]]. unfold calc_mean.
  destruct ((minp <=? nobs st) && (0 <? nobs st))%nat; [|left; reflexivity].
  cbv zeta. destruct (nobs st <=? num_consecutive_same_value st)%nat;
    [exact Hp|].
  destruct ((neg_ct st =? 0)%nat && (sum_x st / of_nat (nobs st) <? 0));
    [right; reflexivity|].
  destruct ((neg_ct st =? nobs st)%nat && (0 <? sum_x st / of_nat (nobs st)));
    [right; reflexivity|].
  apply zero_div, Hs.
Qed.

Lemma roll_mean_from_flat (values : list float) (minp window : nat) :
  (forall y, In y values -> nan_or_zero y) ->
  forall rest i st x,
    (forall y, In y rest -> nan_or_zero y) -> flat_state st ->
    In x (roll_mean_from values minp window i rest st) -> nan_or_zero x.
Proof.
  intros Hv rest. induction rest as [|val rest IH]; intros i st x Hr Hst Hx;
    [destruct Hx|].
  cbn [roll_mean_from] in Hx. cbv zeta in Hx.
  set (st1 := if ((i =? 0) || (window <=? 1))%nat
              then setup_mean values (i + 1 - window)
              else if (window <=? i)%nat
                   then remove_mean (nth (i - window) values PrimFloat.nan) st
                   else st) in Hx.
  assert (H1 : flat_state st1).
  { unfold st1. destruct ((i =? 0) || (window <=? 1))%nat;
      [apply flat_state_setup, Hv|].
    destruct (window <=? i)%nat; [|exact Hst].
    apply flat_state_remove; [apply nth_nan_or_zero, Hv|exact Hst]. }
  assert (H2 : flat_state (add_mean val st1))
    by (apply flat_state_add; [apply Hr; left; reflexivity|exact H1]).
  destruct Hx as [<-|Hx]; [apply flat_state_calc, H2|].
  apply (IH (S i) (add_mean val st1) x); [|exact H2|exact Hx].
  intros y Hy. apply Hr. right. exact Hy.
Qed.

Lemma rolling_mean_flat (p : nat) (l : list float) (x : float) :
  (forall y, In y l -> nan_or_zero y) ->
  In x (rolling_mean p l) -> nan_or_zero x.
Proof.
  intros Hl Hx. unfold rolling_mean, roll_mean in Hx.
  assert (Hm : forall y, In y (map inf_to_nan l) -> nan_or_zero y).
  { intros y Hy. apply in_map_iff in Hy. destruct Hy as [z [<- Hz]].
    apply nan_or_zero_inf_to_nan, Hl, Hz. }
  apply (roll_mean_from_flat _ p p Hm _ 0%nat (setup_mean (map inf_to_nan l) 0)
           x Hm); [|exact Hx].
  apply flat_state_setup, Hm.
Qed.

Lemma diff_from_flat (c : float) (l : list float) (y : float) :
  (forall x, In x l -> x = c) -> In y (diff_from c l) -> nan_or_zero y.
Proof.
  induction l as [|x l IH]; intros H Hy; [destruct Hy|].
  cbn [diff_from] in Hy. rewrite (H x (or_introl eq_refl)) in Hy.
  destruct Hy as [<-|Hy]; [apply sub_self|].
  apply IH; [|exact Hy]. intros z Hz. apply H. right. exact Hz.
Qed.

Lemma diff_flat (c : float) (l : list float) (y : float) :
  (forall x, In x l -> x = c) -> In y (diff l) -> nan_or_zero y.
Proof.
  destruct l as [|x l]; intros H Hy; [destruct Hy|].
  cbn [diff] in Hy. destruct Hy as [<-|Hy]; [left; reflexivity|].
  rewrite (H x (or_introl eq_refl)) in Hy.
  apply (diff_from_flat c l y); [|exact Hy].
  intros z Hz. apply H. right. exact Hz.
Qed.

Lemma rsi_values_flat (c : float) (l : list float) (v : float) :
  (forall x, In x l -> x = c) -> In v (rsi_values l 14) -> isna v = true.
Proof.
  intros H Hv. rewrite rsi_values_eq in Hv. apply in_map_iff in Hv.
  destruct Hv as [[g a] [<- Hin]]. cbn [fst snd].
  assert (Hg : nan_or_zero g).
  { apply in_combine_l in Hin. unfold avg_gain_of in Hin.
    apply (fun Hl => rolling_mean_flat _ _ _ Hl Hin).
    intros y Hy. apply in_map_iff in Hy. destruct Hy as [x [<- Hx]].
    apply nan_or_zero_clip_lower0. apply (diff_flat c l x H Hx). }
  assert (Ha : nan_or_zero a).
  { apply in_combine_r in Hin. unfold avg_loss_of in Hin.
    apply (fun Hl => rolling_mean_flat _ _ _ Hl Hin).
    intros y Hy. apply in_map_iff in Hy. destruct Hy as [x [<- Hx]].
    apply nan_or_zero_loss. apply (diff_flat c l x H Hx). }
  destruct Hg as [Hg|Hg]; [apply isna_rsi_of; left; exact Hg|].
  destruct Ha as [Ha|Ha]; [apply isna_rsi_of; right; exact Ha|].
  apply rsi_of_flat; assumption.
Qed.

(** X17: when the cleaned S&P 500 prices all have the same value, every
    point of the RSI(14) series is undefined, however long the series is:
    the average gain and the average loss are both zero and their quotient
    is not a number.  The spx_rsi14 block then collects no signal. *)
Theorem flat_prices_give_no_rsi :
  forall fred (c : float) st,
    (forall d v, In (d, v) (dropna (fetched fred "SP500")) -> v = c) ->
    underlying fred "spx_rsi14" = [] /\
    signals (snd (spx_rsi14_block fred st)) = signals st.
Proof.
  intros fred c st H.
  assert (Hr : dropna (compute_rsi (dropna (fetched fred "SP500")) 14) = []).
  { apply dropna_all_nan. intros d v Hin. apply In_compute_rsi in Hin.
    apply (rsi_values_flat c (values (dropna (fetched fred "SP500"))) v);
      [|exact Hin].
    intros x Hx. unfold values in Hx. apply in_map_iff in Hx.
    destruct Hx as [[d' x'] [E Hx]]. cbn [snd] in E. subst x'.
    apply (H d' x Hx). }
  split; [exact Hr|]. apply spx_rsi14_block_silent, Hr.
Qed.

Lemma flat_prices_give_no_rsi_witness :
  underlying flat_spx_provider "spx_rsi14" = [] /\
  signals (snd (spx_rsi14_block flat_spx_provider initial)) = signals initial.
Proof.
  apply (flat_prices_give_no_rsi flat_spx_provider 4500 initial).
  intros d v H. vm_compute in H.
  repeat (destruct H as [H|H]; [injection H as _ <-; reflexivity|]).
  destruct H.
Defined.

(** ** The text of the output file *)

(** X18: the text written for a signal list reads back as the list of the
    records written, field for field: every record has its four keys in the
    order id, value, z, desc, the id and the description are the strings of
    the signal, character for character, and the two numbers are the
    literals the encoder wrote.  This holds for the file left by every run
    that returns. *)
Theorem json_document_round_trip :
  forall float_repr,
    (forall o, finite_number o -> number_literal (float_repr o)) ->
    (forall sigs,
        loads (json_dump float_repr sigs)
        = Some (JList (map (signal_json float_repr) sigs))) /\
    (forall fred st',
        main float_repr fred initial = (Ok tt, st') ->
        exists text,
          docs_signals_json st' = Some text /\
          loads text = Some (JList (map (signal_json float_repr) (signals st')))).
Proof.
  intros float_repr Hr. split.
  - intros sigs. apply loads_json_dump, Hr.
  - intros fred st' H. exists (json_dump float_repr (signals st')). split.
    + apply (main_writes_signals float_repr fred st' H).
    + apply loads_json_dump, Hr.
Qed.

Lemma json_document_round_trip_witness :
  loads (json_dump (fun _ => "2.0")
           [ {| id := "real_yield"; value := 2; z := PrimFloat.nan;
                desc := "a\b" |} ])
  = Some (JList [ JDict [ ("id", JStr "real_yield"); ("value", JNum "2.0");
                          ("z", JNum "NaN"); ("desc", JStr "a\b") ] ]).
Proof.
  destruct (json_document_round_trip (fun _ => "2.0")) as [H _].
  - intros o _ rest. reflexivity.
  - apply (H [ {| id := "real_yield"; value := 2; z := PrimFloat.nan;
                  desc := "a\b" |} ]).
Defined.

Lemma all_chars_app (P : ascii -> bool) (a b : string) :
  all_chars P (a ++ b)%string = all_chars P a && all_chars P b.
Proof.
  induction a as [|c a IH]; [reflexivity|].
  cbn [String.append all_chars]. rewrite IH. apply andb_assoc.
Qed.

Lemma all_chars_text (s : string) :
  all_chars printable s = true -> all_chars text_char s = true.
Proof.
  induction s as [|c s IH]; [reflexivity|]. cbn [all_chars].
  intros H. apply andb_prop in H. destruct H as [Hc Hs].
  rewrite (IH Hs). unfold text_char. rewrite Hc. reflexivity.
Qed.

Lemma escape_char_printable (c : ascii) :
  all_chars printable (escape_char c) = true.
Proof. destruct c as [[] [] [] [] [] [] [] []]; reflexivity. Qed.

Lemma escape_printable (s : string) : all_chars printable (escape s) = true.
Proof.
  induction s as [|c s IH]; [reflexivity|].
  cbn [escape]. rewrite all_chars_app, escape_char_printable, IH. reflexivity.
Qed.

Lemma encode_basestring_ascii_printable (s : string) :
  all_chars text_char (encode_basestring_ascii s) = true.
Proof.
  apply all_chars_text. unfold encode_basestring_ascii.
  cbn [String.append all_chars]. rewrite all_chars_app, escape_printable.
  reflexivity.
Qed.

Lemma spaces_text (n : nat) : all_chars text_char (spaces n) = true.
Proof. induction n as [|n IH]; [reflexivity|]. cbn [spaces all_chars]. exact IH. Qed.

Lemma newline_indent_text (n : nat) :
  all_chars text_char (newline_indent n) = true.
Proof. unfold newline_indent. cbn [all_chars]. apply spaces_text. Qed.

Section Ascii_output.

Variable float_repr : float -> string.

Hypothesis float_repr_printable :
  forall o, finite_number o -> all_chars printable (float_repr o) = true.

Lemma floatstr_text (o : float) :
  all_chars text_char (floatstr float_repr o) = true.
Proof.
  unfold floatstr.
  destruct (o =? o) eqn:E1; cbn [negb]; [|reflexivity].
  destruct (o =? PrimFloat.infinity) eqn:E2; [reflexivity|].
  destruct (o =? PrimFloat.neg_infinity) eqn:E3; [reflexivity|].
  apply all_chars_text, float_repr_printable. repeat split; assumption.
Qed.

Lemma member_text_text (k vt more : string) :
  all_chars text_char vt = true -> all_chars text_char more = true ->
  all_chars text_char (member_text k vt more) = true.
Proof.
  intros Hv Hm. unfold member_text.
  rewrite !all_chars_app, encode_basestring_ascii_printable, Hv, Hm.
  reflexivity.
Qed.

Lemma encode_signal_json_text (sg : Signal) :
  all_chars text_char (encode 1 (signal_json float_repr sg)) = true.
Proof.
  cut (all_chars text_char (encode 1 (signal_json float_repr sg) ++ "")%string
       = true).
  { rewrite all_chars_app. cbn [all_chars]. rewrite andb_true_r. auto. }
  rewrite encode_signal_json_nf. cbn [all_chars].
  rewrite all_chars_app, newline_indent_text. cbn [andb].
  apply member_text_text; [apply encode_basestring_ascii_printable|].
  cbn [all_chars]. rewrite all_chars_app, newline_indent_text. cbn [andb].
  apply member_text_text; [apply floatstr_text|].
  cbn [all_chars]. rewrite all_chars_app, newline_indent_text. cbn [andb].
  apply member_text_text; [apply floatstr_text|].
  cbn [all_chars]. rewrite all_chars_app, newline_indent_text. cbn [andb].
  apply member_text_text; [apply encode_basestring_ascii_printable|].
  rewrite all_chars_app, newline_indent_text. reflexivity.
Qed.

Lemma encode_items_text (sigs : list Signal) :
  all_chars text_char (encode_items 0 (map (signal_json float_repr) sigs)) = true.
Proof.
  induction sigs as [|sg sigs IH]; [reflexivity|].
  cbn [map encode_items]. cbn [String.append all_chars].
  rewrite !all_chars_app, newline_indent_text, encode_signal_json_text, IH.
  reflexivity.
Qed.

Lemma json_dump_text (sigs : list Signal) :
  all_chars text_char (json_dump float_repr sigs) = true.
Proof.
  unfold json_dump. destruct sigs as [|sg sigs]; [reflexivity|].
  cbn [map]. rewrite encode_list_cons. cbn [String.append all_chars].
  rewrite !all_chars_app, !newline_indent_text, encode_signal_json_text,
    encode_items_text.
  reflexivity.
Qed.

End Ascii_output.

(** X19: the output file is plain ASCII.  When the literals of the finite
    numbers are printable, every character of the text written for a signal
    list is a printable ASCII character or a line feed, whatever characters
    the ids and the descriptions hold: the encoder escapes the rest. *)
Theorem json_dump_is_ascii :
  forall float_repr,
    (forall o, finite_number o -> all_chars printable (float_repr o) = true) ->
    forall sigs, all_chars text_char (json_dump float_repr sigs) = true.
Proof. intros float_repr H sigs. apply json_dump_text, H. Qed.

Lemma json_dump_is_ascii_witness :
  all_chars text_char
    (json_dump (fun _ => "2.0")
       [ {| id := "real_yield"; value := 2; z := PrimFloat.nan;
            desc := String (ascii_of_nat 233) (String (ascii_of_nat 9) "x") |} ])
  = true.
Proof.
  apply (json_dump_is_ascii (fun _ => "2.0")).
  intros o _. reflexivity.
Defined.

(** ** The requests of a run *)

Lemma prefix_of_app {A} (a1 b1 a2 b2 : list A) :
  a1 = b1 -> prefix_of a2 b2 -> prefix_of (a1 ++ a2) (b1 ++ b2).
Proof.
  intros -> [rest <-]. exists rest. symmetry. apply app_assoc.
Qed.

Lemma prefix_of_weaken {A} (a b c : list A) :
  prefix_of a b -> prefix_of a (b ++ c).
Proof.
  intros [rest <-]. exists (rest ++ c). apply app_assoc.
Qed.

Lemma prefix_of_NoDup {A} (a b : list A) : prefix_of a b -> NoDup b -> NoDup a.
Proof. intros [rest <-] H. apply NoDup_app_remove_r in H. exact H. Qed.

Lemma requests_ret {A} (a : A) : requests [] (ret a).
Proof.
  intros st. exists []. split; [symmetry; apply app_nil_r|].
  split; [exists []; reflexivity|reflexivity].
Qed.

Lemma requests_raise {A} (e : pyexn) : requests [] (@raise A e).
Proof.
  intros st. exists []. split; [symmetry; apply app_nil_r|].
  split; [exists []; reflexivity|exact I].
Qed.

Lemma requests_bind {A B} cs1 cs2 (m : M A) (k : A -> M B) :
  requests cs1 m -> (forall a, requests cs2 (k a)) ->
  requests (cs1 ++ cs2) (bind m k).
Proof.
  intros Hm Hk st. unfold bind.
  destruct (Hm st) as [d1 [E1 [P1 R1]]].
  destruct (m st) as [[a|e] st']; cbn [fst snd] in *.
  - destruct (Hk a st') as [d2 [E2 [P2 R2]]].
    exists (d1 ++ d2). split; [rewrite E2, E1; symmetry; apply app_assoc|].
    split; [apply prefix_of_app; assumption|].
    destruct (fst (k a st')); [congruence|exact I].
  - exists d1. split; [exact E1|]. split; [apply prefix_of_weaken, P1|exact I].
Qed.

Lemma requests_bind_ret {A B} cs (a : A) (k : A -> M B) :
  requests cs (k a) -> requests cs (bind (ret a) k).
Proof. intros H st. exact (H st). Qed.

Lemma requests_resample_D_ffill (df : DataFrame) :
  requests [] (resample_D_ffill df).
Proof.
  unfold resample_D_ffill.
  destruct (datetime_index df); [apply requests_ret|apply requests_raise].
Qed.

Lemma requests_fetch_series fred code : requests [code] (fetch_series fred code).
Proof.
  intros st. exists [code]. split; [apply fetch_series_calls|].
  split; [exists []; reflexivity|].
  destruct (fst (fetch_series fred code st)); [reflexivity|exact I].
Qed.

Lemma requests_iloc_last (s : Series) : requests [] (iloc_last s).
Proof.
  unfold iloc_last. destruct (last_opt s); [apply requests_ret|apply requests_raise].
Qed.

Lemma requests_append (sg : Signal) : requests [] (append sg).
Proof.
  intros st. exists []. split; [symmetry; apply app_nil_r|].
  split; [exists []; reflexivity|reflexivity].
Qed.

Lemma requests_emit (s : Series) id_ desc_ :
  requests []
    (val <- iloc_last s ;;
     z_ <- iloc_last (zscore s) ;;
     append {| id := id_; value := val; z := z_; desc := desc_ |}).
Proof.
  apply (requests_bind [] []); [apply requests_iloc_last|]. intros v.
  apply (requests_bind [] []); [apply requests_iloc_last|]. intros x.
  apply requests_append.
Qed.

Lemma requests_simple_extractor fred key id_ desc_ code :
  assoc key series = Some code ->
  requests [code] (simple_extractor fred key id_ desc_).
Proof.
  intros Hk. unfold simple_extractor, series_get. rewrite Hk.
  apply requests_bind_ret.
  apply (requests_bind [code] []); [apply requests_fetch_series|]. intros raw.
  destruct (empty (dropna raw)); cbn [negb]; [apply requests_ret|].
  apply (requests_bind [] []); [apply requests_iloc_last|]. intros v.
  apply (requests_bind [] []); [apply requests_iloc_last|]. intros x.
  apply (requests_bind [] []); [apply requests_append|]. intros _.
  apply requests_ret.
Qed.

Lemma requests_net_liquidity_block fred :
  requests ["WALCL"; "RRPONTSYD"; "WTREGEN"] (net_liquidity_block fred).
Proof.
  unfold net_liquidity_block, series_get. simpl assoc. cbv iota.
  apply requests_bind_ret.
  apply (requests_bind ["WALCL"] [_; _]); [apply requests_fetch_series|].
  intros walcl. apply requests_bind_ret.
  apply (requests_bind ["RRPONTSYD"] [_]); [apply requests_fetch_series|].
  intros rrp. apply requests_bind_ret.
  apply (requests_bind ["WTREGEN"] []); [apply requests_fetch_series|].
  intros tga.
  destruct (empty walcl); cbn [negb]; [apply requests_ret|]. cbv zeta.
  apply (requests_bind [] []); [apply requests_resample_D_ffill|]. intros df.
  match goal with
  | |- requests _ (if negb (empty ?s) then _ else _) => destruct (empty s); cbn [negb]
  end; [apply requests_ret|apply requests_emit].
Qed.

Lemma requests_spx_rsi14_block fred : requests ["SP500"] (spx_rsi14_block fred).
Proof.
  unfold spx_rsi14_block, series_get. simpl assoc. cbv iota.
  apply requests_bind_ret.
  apply (requests_bind ["SP500"] []); [apply requests_fetch_series|].
  intros raw.
  destruct (empty (dropna raw)); cbn [negb]; [apply requests_ret|]. cbv zeta.
  match goal with
  | |- requests _ (if negb (empty ?s) then _ else _) => destruct (empty s); cbn [negb]
  end; [apply requests_ret|apply requests_emit].
Qed.

Lemma requests_vix_term_block fred vix :
  requests ["VXVCLS"] (vix_term_block fred vix).
Proof.
  unfold vix_term_block, series_get. simpl assoc. cbv iota.
  apply requests_bind_ret.
  apply (requests_bind ["VXVCLS"] []); [apply requests_fetch_series|].
  intros raw.
  destruct (negb (empty vix) && negb (empty (dropna raw)));
    [apply requests_emit|apply requests_ret].
Qed.

Lemma requests_main float_repr fred :
  requests request_order (main float_repr fred).
Proof.
  unfold main, request_order, real_yield_block, breakeven_block, usd_block,
    hy_oas_block, ig_oas_block, claims_block, vix_level_block.
  apply (requests_bind [_] (_ :: _));
    [apply (requests_simple_extractor fred "real_yield" _ _ _ eq_refl)|]. intros _.
  apply (requests_bind [_] (_ :: _));
    [apply (requests_simple_extractor fred "breakeven" _ _ _ eq_refl)|]. intros _.
  apply (requests_bind [_] (_ :: _));
    [apply (requests_simple_extractor fred "usd" _ _ _ eq_refl)|]. intros _.
  apply (requests_bind [_] (_ :: _));
    [apply (requests_simple_extractor fred "hy_oas" _ _ _ eq_refl)|]. intros _.
  apply (requests_bind [_] (_ :: _));
    [apply (requests_simple_extractor fred "ig_oas" _ _ _ eq_refl)|]. intros _.
  apply (requests_bind [_; _; _] (_ :: _));
    [apply requests_net_liquidity_block|]. intros _.
  apply (requests_bind [_] (_ :: _));
    [apply (requests_simple_extractor fred "claims" _ _ _ eq_refl)|]. intros _.
  apply (requests_bind [_] (_ :: _)); [apply requests_spx_rsi14_block|]. intros _.
  apply (requests_bind [_] (_ :: _));
    [apply (requests_simple_extractor fred "vix" _ _ _ eq_refl)|]. intros vix.
  apply (requests_bind [_] []); [apply requests_vix_term_block|]. intros _.
  intros st. exists []. split; [symmetry; apply app_nil_r|].
  split; [exists []; reflexivity|reflexivity].
Qed.

(** X20: in every run the requests made to the provider are an initial
    segment of the twelve requests of the script, in script order: no
    series is requested twice, whatever fails, and a run that returns has
    made all twelve. *)
Theorem requests_follow_script :
  forall float_repr fred,
    let r := main float_repr fred initial in
    prefix_of (calls (snd r)) request_order /\
    NoDup (calls (snd r)) /\
    match fst r with
    | Ok _ => calls (snd r) = request_order
    | Raise _ => True
    end.
Proof.
  intros float_repr fred r. subst r.
  destruct (requests_main float_repr fred initial) as [done [E [P R]]].
  rewrite E. cbn [calls initial app]. split; [exact P|]. split; [|exact R].
  apply (prefix_of_NoDup _ _ P).
  unfold request_order.
  repeat (constructor; [cbn; intuition discriminate|]). constructor.
Qed.

Lemma requests_follow_script_witness :
  prefix_of ["DFII10"; "T10YIE"] request_order /\
  NoDup ["DFII10"; "T10YIE"] /\ True.
Proof.
  apply (requests_follow_script (fun _ => "2.0") interrupted_provider).
Defined.

(** ** Trailing missing observations *)

(** X21: a simple block reports the latest observation that is present.
    When the fetched series ends with missing observations, they are
    skipped: the value of the signal is the last observation that is not
    NaN. *)
Theorem trailing_missing_observations_are_skipped :
  forall fred blk code id_ pre d v post st,
    In (blk, code, id_) (simple_blocks fred) ->
    fred code = Returned (pre ++ (d, v) :: post) ->
    isna v = false ->
    (forall d' v', In (d', v') post -> isna v' = true) ->
    exists sg,
      blk st = (Ok (dropna (pre ++ (d, v) :: post)),
                emitted sg (logged code st)) /\
      id sg = id_ /\
      value sg = v.
Proof.
  intros fred blk code id_ pre d v post st Hin Hf Hv Hpost.
  destruct (simple_blocks_shape _ _ _ _ Hin) as [key [desc_ [-> Hk]]].
  assert (Hl : last_opt (dropna (pre ++ (d, v) :: post)) = Some (d, v)).
  { unfold dropna. rewrite filter_app. cbn [filter snd]. rewrite Hv. cbn [negb].
    fold (dropna post). rewrite (dropna_all_nan post Hpost).
    apply last_opt_app. }
  eexists. split.
  - apply simple_extractor_emits with (code := code) (d := d);
      [exact Hk| |exact Hl].
    apply fetch_series_returned, Hf.
  - split; reflexivity.
Qed.

Lemma trailing_missing_observations_are_skipped_witness :
  exists sg,
    claims_block (fun _ => Returned ([(1%Z, 210)] ++ (8%Z, 220)
                                      :: [(15%Z, PrimFloat.nan)])) initial
    = (Ok (dropna ([(1%Z, 210)] ++ (8%Z, 220) :: [(15%Z, PrimFloat.nan)])),
       emitted sg (logged "ICSA" initial)) /\
    id sg = "claims" /\
    value sg = 220.
Proof.
  apply (trailing_missing_observations_are_skipped
           (fun _ => Returned ([(1%Z, 210)] ++ (8%Z, 220)
                                :: [(15%Z, PrimFloat.nan)]))
           (claims_block (fun _ => Returned ([(1%Z, 210)] ++ (8%Z, 220)
                                              :: [(15%Z, PrimFloat.nan)])))
           "ICSA" "claims" [(1%Z, 210)] 8%Z 220 [(15%Z, PrimFloat.nan)] initial).
  - simpl. do 5 right. left. reflexivity.
  - reflexivity.
  - reflexivity.
  - intros d' v' [[= _ <-]|[]]. reflexivity.
Defined.
